(** * otaku-news-backend: the API server and the YouTube ingestion script

    A shallow embedding of [src/server.js] and
    [src/scripts/fetch-youtube-trending.js].

    The program is JavaScript over two external services (the hosted store,
    reached through the supabase-js query builder, and the YouTube Data API),
    so the embedding has four layers:

    - [JsVal] and the handful of JavaScript operators the two files use
      (truthiness, [||], [+], [-], [>], [===], property access, [includes]);
    - [Prog], the programs of the two files as trees of effects ([await] of a
      store query, [fetch], the clock, the console, ...), with [throw] and
      [try]/[catch];
    - the handlers and the script functions, written statement by statement
      in that monad;
    - [pg], a reference interpretation of the effects: tables as lists of row
      objects, a script of injected store failures, a scripted clock.

    Statements that do not depend on how the store behaves are proved for
    every interpretation of the effects; the others are proved on [pg]. *)

From stdpp Require Import gmap strings list fin_maps pretty sorting.
From Stdlib Require Import ZArith NArith.

#[local] Set Warnings "-register-all".
#[local] Open Scope Z_scope.

(* ===================================================================== *)
(** ** JavaScript strings *)
(* ===================================================================== *)

(** A JavaScript string is a sequence of UTF-16 code units: [length] and
    [substring] count code units, not bytes and not characters. *)
Abbreviation jsstring := (list N).

(** Source literals are written in this file as UTF-8 text; [utf16] decodes
    the bytes of such a literal into the code units the JavaScript engine
    holds for it. *)
Fixpoint utf16_of_bytes (l : list N) : jsstring :=
  match l with
  | [] => []
  | b :: t =>
      if (b <? 128)%N then b :: utf16_of_bytes t
      else if (b <? 224)%N then
        match t with
        | b1 :: t1 =>
            (N.land b 31 * 64 + N.land b1 63)%N :: utf16_of_bytes t1
        | _ => []
        end
      else if (b <? 240)%N then
        match t with
        | b1 :: b2 :: t2 =>
            (N.land b 15 * 4096 + N.land b1 63 * 64 + N.land b2 63)%N
              :: utf16_of_bytes t2
        | _ => []
        end
      else
        match t with
        | b1 :: b2 :: b3 :: t3 =>
            let cp := (N.land b 7 * 262144 + N.land b1 63 * 4096
                       + N.land b2 63 * 64 + N.land b3 63)%N in
            let c := (cp - 65536)%N in
            (55296 + N.shiftr c 10)%N :: (56320 + N.land c 1023)%N
              :: utf16_of_bytes t3
        | _ => []
        end
  end.

Definition utf16 (s : string) : jsstring :=
  utf16_of_bytes (map Ascii.N_of_ascii (String.list_ascii_of_string s)).

Definition jsstring_eqb (a b : jsstring) : bool := bool_decide (a = b).

(** [s.substring(0, n)] *)
Definition substring0 (n : nat) (s : jsstring) : jsstring := take n s.

(** [hay.includes(needle)] on strings: [needle] occurs as a contiguous run. *)
Fixpoint is_prefix (p s : jsstring) : bool :=
  match p, s with
  | [], _ => true
  | _ :: _, [] => false
  | a :: p', b :: s' => (a =? b)%N && is_prefix p' s'
  end.

Fixpoint string_includes (hay needle : jsstring) : bool :=
  is_prefix needle hay
  || match hay with
     | [] => false
     | _ :: hay' => string_includes hay' needle
     end.

(* ===================================================================== *)
(** ** JavaScript values *)
(* ===================================================================== *)

(** The values that travel through the two files: what [JSON.parse] yields
    for a request body or a store reply, plus [undefined] and [NaN].
    Numbers are the integers: every number the program computes with is a
    counter, a length or a page bound. *)
Inductive JsVal : Type :=
| JUndefined
| JNull
| JBool (b : bool)
| JNum (n : Z)
| JNaN
| JStr (s : jsstring)
| JArr (l : list JsVal)
| JObj (o : gmap string JsVal).

(** An object literal [{ k1: v1, ..., kn: vn }]. *)
Definition obj (fields : list (string * JsVal)) : gmap string JsVal :=
  list_to_map fields.

(** What [if (v)], [!v], [v || w] and [v && w] test. *)
Definition truthy (v : JsVal) : bool :=
  match v with
  | JUndefined | JNull | JNaN => false
  | JBool b => b
  | JNum n => negb (n =? 0)
  | JStr s => match s with [] => false | _ => true end
  | JArr _ | JObj _ => true
  end.

(** [a || b] *)
Definition js_or (a b : JsVal) : JsVal := if truthy a then a else b.

(** [String(v)] for the values whose conversion cannot throw: what a
    template literal and [+] with a string make of a number, a string, a
    boolean, [null], [undefined], and of an array or object that has no
    [toString] of its own. [to_text] is the conversion that can throw. A
    number is written in decimal digits, as JavaScript writes an integer
    below 10^21. *)
Fixpoint to_string (v : JsVal) : jsstring :=
  match v with
  | JUndefined => utf16 "undefined"
  | JNull => utf16 "null"
  | JBool true => utf16 "true"
  | JBool false => utf16 "false"
  | JNum n => utf16 (pretty n)
  | JNaN => utf16 "NaN"
  | JStr s => s
  | JArr l =>
      (fix join (l : list JsVal) : jsstring :=
         match l with
         | [] => []
         | x :: t =>
             let sx := match x with
                       | JUndefined | JNull => []
                       | _ => to_string x
                       end in
             match t with
             | [] => sx
             | _ :: _ => sx ++ utf16 "," ++ join t
             end
         end) l
  | JObj _ => utf16 "[object Object]"
  end.

(** Reading a string as a number. The numbers of the model are the
    integers, and the spellings read are the decimal integer literals: an
    optional sign and digits, surrounded by optional blanks, and the empty
    string, which is 0. A spelling with a fraction, an exponent or a radix
    prefix is outside the model, which reads it as [NaN]; the statements
    about a number given as text are about decimal digits. *)
Definition is_blank (c : N) : bool :=
  ((c =? 32) || (c =? 9) || (c =? 10) || (c =? 13))%N.

Fixpoint trim_left (s : jsstring) : jsstring :=
  match s with
  | c :: t => if is_blank c then trim_left t else s
  | [] => []
  end.

Definition trim (s : jsstring) : jsstring :=
  reverse (trim_left (reverse (trim_left s))).

Fixpoint digits_value (acc : Z) (s : jsstring) : option Z :=
  match s with
  | [] => Some acc
  | c :: t =>
      if ((48 <=? c) && (c <=? 57))%N
      then digits_value (10 * acc + Z.of_N (c - 48)) t
      else None
  end.

Definition string_to_number (s : jsstring) : option Z :=
  match trim s with
  | [] => Some 0
  | c :: t =>
      if (c =? 45)%N then
        match t with [] => None | _ => Z.opp <$> digits_value 0 t end
      else if (c =? 43)%N then
        match t with [] => None | _ => digits_value 0 t end
      else digits_value 0 (c :: t)
  end.

(** [Number(v)]; [None] is [NaN]. *)
Definition to_number (v : JsVal) : option Z :=
  match v with
  | JUndefined | JNaN => None
  | JNull => Some 0
  | JBool b => Some (if b then 1 else 0)
  | JNum n => Some n
  | JStr s => string_to_number s
  | JArr _ | JObj _ => string_to_number (to_string v)
  end.

Definition of_number (n : option Z) : JsVal :=
  match n with Some z => JNum z | None => JNaN end.

(** An array or an object is turned into its string before [+]. *)
Definition to_primitive (v : JsVal) : JsVal :=
  match v with
  | JArr _ | JObj _ => JStr (to_string v)
  | _ => v
  end.

Definition is_string (v : JsVal) : bool :=
  match v with JStr _ => true | _ => false end.

(** [a + b]. On numbers it is the sum of the integers, which is what the
    program computes as long as the operands and the sum are safe integers;
    beyond 2^53 JavaScript rounds. *)
Definition js_add (a b : JsVal) : JsVal :=
  let pa := to_primitive a in
  let pb := to_primitive b in
  if is_string pa || is_string pb
  then JStr (to_string pa ++ to_string pb)
  else of_number (x ← to_number pa; y ← to_number pb; Some (x + y)).

(** [a - b], exact on the safe integers as [js_add] is. *)
Definition js_sub (a b : JsVal) : JsVal :=
  of_number (x ← to_number a; y ← to_number b; Some (x - y)).

(** [a > n] against a number literal [n]. *)
Definition js_gt_num (a : JsVal) (n : Z) : bool :=
  match to_number a with
  | Some x => n <? x
  | None => false
  end.

(** [v === 'literal'] *)
Definition strict_eq_str (v : JsVal) (s : jsstring) : bool :=
  match v with
  | JStr t => jsstring_eqb t s
  | _ => false
  end.

(** The comparison [Array.prototype.includes] makes between an element [x]
    of the array and the value [y] looked for. Two values that came out of
    two different [JSON.parse] calls are never the same array or the same
    object. *)
Definition same_value_zero (x y : JsVal) : bool :=
  match x, y with
  | JUndefined, JUndefined => true
  | JNull, JNull => true
  | JBool a, JBool b => bool_decide (a = b)
  | JNum a, JNum b => a =? b
  | JNaN, JNaN => true
  | JStr a, JStr b => jsstring_eqb a b
  | _, _ => false
  end.

(** Statements either complete normally or throw a value. *)
Inductive Completion (A : Type) : Type :=
| Normal (a : A)
| Throw (e : JsVal).
Arguments Normal {A} a.
Arguments Throw {A} e.

#[global] Instance Completion_ret : MRet Completion := @Normal.
#[global] Instance Completion_bind : MBind Completion :=
  fun A B f c => match c with Normal a => f a | Throw e => Throw e end.

(** [new TypeError(msg)], as far as the program can observe it. *)
Definition type_error (msg : string) : JsVal :=
  JObj (obj [("name", JStr (utf16 "TypeError")); ("message", JStr (utf16 msg))]).

(** [new Error(msg)] *)
Definition new_error (msg : jsstring) : JsVal :=
  JObj (obj [("name", JStr (utf16 "Error")); ("message", JStr msg)]).

(** The conversion to a string a template literal [`${v}`] and
    [encodeURIComponent(v)] apply to a value that came out of [JSON.parse],
    or is a number or a string of the program. An object that has a property
    of its own named [toString] cannot be converted: what it holds there is
    data, not a function, and the inherited [valueOf] only gives the object
    back, so the conversion throws a [TypeError]. An array is joined, which
    converts its elements. Where the conversion succeeds its result is
    [to_string]. *)
Fixpoint to_text (v : JsVal) : Completion jsstring :=
  match v with
  | JObj o =>
      if bool_decide (is_Some (o !! "toString"))
      then Throw (type_error "Cannot convert object to primitive value")
      else Normal (utf16 "[object Object]")
  | JArr l =>
      (fix join (l : list JsVal) : Completion jsstring :=
         match l with
         | [] => Normal []
         | x :: t =>
             match (match x with
                    | JUndefined | JNull => Normal []
                    | _ => to_text x
                    end) with
             | Throw e => Throw e
             | Normal sx =>
                 match t with
                 | [] => Normal sx
                 | _ :: _ =>
                     match join t with
                     | Throw e => Throw e
                     | Normal st => Normal (sx ++ utf16 "," ++ st)
                     end
                 end
             end
         end) l
  | _ => Normal (to_string v)
  end.

(** [v.key] where the base may be anything. *)
Definition js_get (v : JsVal) (key : string) : Completion JsVal :=
  match v with
  | JUndefined | JNull =>
      Throw (type_error ("Cannot read properties of " +:+
               (if v is JNull then "null" else "undefined") +:+
               " (reading '" +:+ key +:+ "')"))
  | JObj o => Normal (default JUndefined (o !! key))
  | JArr l =>
      Normal (if bool_decide (key = "length")
              then JNum (Z.of_nat (length l)) else JUndefined)
  | JStr s =>
      Normal (if bool_decide (key = "length")
              then JNum (Z.of_nat (length s)) else JUndefined)
  | _ => Normal JUndefined
  end.

(** [v?.key] *)
Definition js_get_opt (v : JsVal) (key : string) : JsVal :=
  match v with
  | JUndefined | JNull => JUndefined
  | _ => match js_get v key with Normal x => x | Throw _ => JUndefined end
  end.

(** [v[0]] *)
Definition js_first (v : JsVal) : Completion JsVal :=
  match v with
  | JUndefined | JNull =>
      Throw (type_error ("Cannot read properties of " +:+
               (if v is JNull then "null" else "undefined") +:+
               " (reading '0')"))
  | JArr l => Normal (default JUndefined (head l))
  | JStr s => Normal (match s with c :: _ => JStr [c] | [] => JUndefined end)
  | JObj o => Normal (default JUndefined (o !! "0"))
  | _ => Normal JUndefined
  end.

(** [base.includes]: reading the method throws on [null] and [undefined];
    what is read is the array method, the string method, or, on any other
    base, something that cannot be called. The argument of the call is
    evaluated between the two. *)
Definition js_includes (base : JsVal) : Completion (JsVal → Completion bool) :=
  match base with
  | JUndefined | JNull =>
      Throw (type_error ("Cannot read properties of " +:+
               (if base is JNull then "null" else "undefined") +:+
               " (reading 'includes')"))
  | JArr l => Normal (λ x, Normal (existsb (λ y, same_value_zero y x) l))
  | JStr s => Normal (λ x, Normal (string_includes s (to_string x)))
  | _ =>
      Normal (λ _, Throw (type_error
                            "viewed_articles.includes is not a function"))
  end.

(** The strings a string yields when it is iterated: one per code point, a
    surrogate pair staying together. *)
Definition is_high_surrogate (c : N) : bool :=
  ((55296 <=? c) && (c <=? 56319))%N.
Definition is_low_surrogate (c : N) : bool :=
  ((56320 <=? c) && (c <=? 57343))%N.

Fixpoint code_points (s : jsstring) : list jsstring :=
  match s with
  | [] => []
  | c :: t =>
      if is_high_surrogate c then
        match t with
        | d :: t' =>
            if is_low_surrogate d then [c; d] :: code_points t'
            else [c] :: code_points t
        | [] => [[c]]
        end
      else [c] :: code_points t
  end.

(** What [new Set(v)] and [Array.from(v)] enumerate, for the values the
    store client is given: an array, a string, or an object, which is not
    iterable. *)
Definition js_iterate (v : JsVal) : Completion (list JsVal) :=
  match v with
  | JArr l => Normal l
  | JStr s => Normal (JStr <$> code_points s)
  | _ =>
      Throw (type_error
               "object is not iterable (cannot read property Symbol(Symbol.iterator))")
  end.

(** What [for (const x of name)] enumerates. *)
Definition js_for_of (name : string) (v : JsVal)
  : Completion (list JsVal) :=
  match v with
  | JArr l => Normal l
  | JStr s => Normal (JStr <$> code_points s)
  | _ => Throw (type_error (name +:+ " is not iterable"))
  end.

(* ===================================================================== *)
(** ** The query builder of the store client *)
(* ===================================================================== *)

(** A row, a request body, a query string: JavaScript objects. *)
Abbreviation Obj := (gmap string JsVal).

(** [const { key } = o] *)
Definition field (o : Obj) (key : string) : JsVal :=
  default JUndefined (o !! key).

(** [const { key = dflt } = o], and a parameter default [f(x = dflt)] *)
Definition or_default (v dflt : JsVal) : JsVal :=
  match v with JUndefined => dflt | _ => v end.

Inductive Verb : Type :=
| Select (columns : string)
| Insert (rows : list Obj)
| Update (patch : Obj).

Inductive Filter : Type :=
| FEq (column : string) (value : JsVal)
| FIn (column : string) (values : list JsVal).

(** What a chain [supabase.from(t).select(..).eq(..)...] has accumulated
    when it is awaited. The methods only set request parameters, so their
    order in the chain does not matter. *)
Record Query : Type := {
  q_table : string;
  q_verb : option Verb;
  q_filters : list Filter;
  q_order : option (string * bool);
  q_offset : option JsVal;
  q_limit : option JsVal;
  q_returning : bool;
  q_single : bool
}.

Module supabase.

Definition from (table : string) : Query :=
  {| q_table := table; q_verb := None; q_filters := []; q_order := None;
     q_offset := None; q_limit := None; q_returning := false;
     q_single := false |}.

Definition with_verb (v : Verb) (q : Query) : Query :=
  {| q_table := q_table q; q_verb := Some v; q_filters := q_filters q;
     q_order := q_order q; q_offset := q_offset q; q_limit := q_limit q;
     q_returning := q_returning q; q_single := q_single q |}.

Definition with_returning (q : Query) : Query :=
  {| q_table := q_table q; q_verb := q_verb q; q_filters := q_filters q;
     q_order := q_order q; q_offset := q_offset q; q_limit := q_limit q;
     q_returning := true; q_single := q_single q |}.

(** [.select(columns)]: the read itself on a fresh builder, and "return
    the written rows" after [insert] or [update]. *)
Definition select (columns : string) (q : Query) : Query :=
  match q_verb q with
  | None => with_verb (Select columns) q
  | Some _ => with_returning q
  end.

Definition insert (rows : list Obj) (q : Query) : Query :=
  with_verb (Insert rows) q.

Definition update (patch : Obj) (q : Query) : Query :=
  with_verb (Update patch) q.

Definition with_filter (f : Filter) (q : Query) : Query :=
  {| q_table := q_table q; q_verb := q_verb q;
     q_filters := q_filters q ++ [f];
     q_order := q_order q; q_offset := q_offset q; q_limit := q_limit q;
     q_returning := q_returning q; q_single := q_single q |}.

Definition eq (column : string) (value : JsVal) (q : Query) : Query :=
  with_filter (FEq column value) q.

(** [.in(column, values)] enumerates [Array.from(new Set(values))] while the
    chain is built: a [TypeError], thrown in the caller, when [values]
    cannot be iterated. Dropping the duplicates does not change which rows
    the filter selects. *)
Definition in_ (column : string) (values : JsVal) (q : Query)
  : Completion Query :=
  l ← js_iterate values; Normal (with_filter (FIn column l) q).

Definition order (column : string) (ascending : bool) (q : Query) : Query :=
  {| q_table := q_table q; q_verb := q_verb q; q_filters := q_filters q;
     q_order := Some (column, ascending);
     q_offset := q_offset q; q_limit := q_limit q;
     q_returning := q_returning q; q_single := q_single q |}.

(** [.range(from, to)] sets [offset] to [from] and [limit] to
    [to - from + 1]. *)
Definition range (from to : JsVal) (q : Query) : Query :=
  {| q_table := q_table q; q_verb := q_verb q; q_filters := q_filters q;
     q_order := q_order q;
     q_offset := Some from;
     q_limit := Some (js_add (js_sub to from) (JNum 1));
     q_returning := q_returning q; q_single := q_single q |}.

Definition limit (count : JsVal) (q : Query) : Query :=
  {| q_table := q_table q; q_verb := q_verb q; q_filters := q_filters q;
     q_order := q_order q; q_offset := q_offset q;
     q_limit := Some count;
     q_returning := q_returning q; q_single := q_single q |}.

Definition single (q : Query) : Query :=
  {| q_table := q_table q; q_verb := q_verb q; q_filters := q_filters q;
     q_order := q_order q; q_offset := q_offset q; q_limit := q_limit q;
     q_returning := q_returning q; q_single := true |}.

End supabase.

(** [q ▸ f] reads as the method chain [q.f(..)]. *)
Notation "q ▸ f" := (f q) (at level 51, left associativity, only parsing).

(** The [{ data, error }] an awaited query resolves to. *)
Record Reply : Type := { data : JsVal; error : JsVal }.

(* ===================================================================== *)
(** ** Effects and programs *)
(* ===================================================================== *)

(** A request to the video platform: the endpoint and the parameters the
    URL carries. *)
Inductive YtRequest : Type :=
| YtSearch (q : jsstring) (maxResults : JsVal)
| YtCommentThreads (videoId : JsVal) (maxResults : JsVal).

(** A fetched response, as far as the script looks at it: what
    [response.json()] settles to. *)
Record HttpResponse : Type := { json : Completion JsVal }.

Inductive Eff : Type → Type :=
| Await (q : Query) : Eff Reply
| Fetch (r : YtRequest) : Eff (Completion HttpResponse)
| NowISO : Eff jsstring
| RandomBelow (n : Z) : Eff Z
| Sleep (ms : Z) : Eff unit
| ConsoleError (label : jsstring) (value : JsVal) : Eff unit
| ConsoleLog (line : jsstring) : Eff unit.

Inductive Prog (A : Type) : Type :=
| Ret (a : A)
| Do {X : Type} (e : Eff X) (k : X → Prog A).
Arguments Ret {A} a.
Arguments Do {A X} e k.

Fixpoint prog_bind {A B} (p : Prog A) (f : A → Prog B) : Prog B :=
  match p with
  | Ret a => f a
  | Do e k => Do e (fun x => prog_bind (k x) f)
  end.

(** Programs whose statements may throw. *)
Definition M (A : Type) : Type := Prog (Completion A).

Definition ret {A} (a : A) : M A := Ret (Normal a).
Definition throw {A} (e : JsVal) : M A := Ret (Throw e).
Definition lift {A} (c : Completion A) : M A := Ret c.
Definition perform {X} (e : Eff X) : M X := Do e (fun x => Ret (Normal x)).

Definition bind {A B} (m : M A) (f : A → M B) : M B :=
  prog_bind m (fun c => match c with
                        | Normal a => f a
                        | Throw e => Ret (Throw e)
                        end).

(** [try { body } catch (error) { handler }] *)
Definition try_catch {A} (body : M A) (handler : JsVal → M A) : M A :=
  prog_bind body (fun c => match c with
                           | Normal a => Ret (Normal a)
                           | Throw e => handler e
                           end).

#[global] Instance M_ret : MRet M := @ret.
#[global] Instance M_bind : MBind M := fun A B f m => bind m f.

Definition await (q : Query) : M Reply := perform (Await q).

Section Run.
Context {W : Type} (h : ∀ X, Eff X → W → X * W).

(** Running a program against an interpretation [h] of the effects. *)
Fixpoint run {A} (p : Prog A) (w : W) : A * W :=
  match p with
  | Ret a => (a, w)
  | Do e k => let '(x, w') := h _ e w in run (k x) w'
  end.
End Run.

(* ===================================================================== *)
(** ** The reference store *)
(* ===================================================================== *)

(** The hosted store is not part of the repository. [pg] is the model of it
    the store-dependent statements are proved on: a table is the list of its
    row objects, in insertion order; a row is kept as it was written
    (columns the schema would fill in by itself, such as keys, creation
    times and defaults, are not modelled, the schema being owned by the
    store); filter values travel as text and are compared as text; SQL
    [NULL] matches no filter. *)

Record PgError : Type := { pe_code : jsstring; pe_message : jsstring }.

Definition pg_error_val (e : PgError) : JsVal :=
  JObj (obj [("code", JStr (pe_code e)); ("message", JStr (pe_message e));
             ("details", JNull); ("hint", JNull)]).

Definition PGRST116 : PgError :=
  {| pe_code := utf16 "PGRST116";
     pe_message :=
       utf16 "JSON object requested, multiple (or no) rows returned" |}.

Definition PGRST103 : PgError :=
  {| pe_code := utf16 "PGRST103";
     pe_message := utf16 "Requested range not satisfiable" |}.

Definition PGRST100 : PgError :=
  {| pe_code := utf16 "PGRST100";
     pe_message := utf16 "Could not parse the request" |}.

Definition pg_eq (stored : option JsVal) (v : JsVal) : bool :=
  match stored with
  | None | Some JNull | Some JUndefined => false
  | Some x => jsstring_eqb (to_string x) (to_string v)
  end.

Definition matches (row : Obj) (f : Filter) : bool :=
  match f with
  | FEq c v => pg_eq (row !! c) v
  | FIn c vs => existsb (pg_eq (row !! c)) vs
  end.

Definition matches_all (fs : list Filter) (row : Obj) : bool :=
  forallb (matches row) fs.

(** The order of [ORDER BY]: numbers by value, strings code unit by code
    unit, [NULL] after everything else. *)
Fixpoint jsstring_compare (a b : jsstring) : comparison :=
  match a, b with
  | [], [] => Eq
  | [], _ :: _ => Lt
  | _ :: _, [] => Gt
  | x :: a', y :: b' =>
      match (x ?= y)%N with
      | Eq => jsstring_compare a' b'
      | c => c
      end
  end.

Definition sort_class (v : option JsVal) : Z :=
  match v with
  | Some (JBool _) => 0
  | Some (JNum _) => 1
  | Some (JStr _) => 2
  | Some (JArr _) | Some (JObj _) => 3
  | Some JNaN => 4
  | None | Some JNull | Some JUndefined => 5
  end.

Definition pg_compare (a b : option JsVal) : comparison :=
  match a, b with
  | Some (JBool x), Some (JBool y) => Z.b2z x ?= Z.b2z y
  | Some (JNum x), Some (JNum y) => x ?= y
  | Some (JStr x), Some (JStr y) => jsstring_compare x y
  | _, _ => sort_class a ?= sort_class b
  end.

Definition comes_before (column : string) (ascending : bool) (r s : Obj)
  : bool :=
  match pg_compare (r !! column) (s !! column) with
  | Eq => true
  | Lt => ascending
  | Gt => negb ascending
  end.

Fixpoint insert_sorted (before : Obj → Obj → bool) (r : Obj)
  (sorted : list Obj) : list Obj :=
  match sorted with
  | [] => [r]
  | s :: rest =>
      if before r s then r :: sorted
      else s :: insert_sorted before r rest
  end.

Definition sort_rows (before : Obj → Obj → bool) (rows : list Obj)
  : list Obj :=
  foldr (insert_sorted before) [] rows.

(** [offset] and [limit] arrive as text and must read as naturals. *)
Definition as_count (v : JsVal) : option nat :=
  n ← string_to_number (to_string v);
  if 0 <=? n then Some (Z.to_nat n) else None.

Definition window (offset limit : option JsVal) (rows : list Obj)
  : option (list Obj) :=
  rows ← match offset with
         | None => Some rows
         | Some o => (λ n, drop n rows) <$> as_count o
         end;
  match limit with
  | None => Some rows
  | Some l => (λ n, take n rows) <$> as_count l
  end.

Definition project (columns : string) (row : Obj) : Obj :=
  if bool_decide (columns = "*") then row
  else filter (λ kv, kv.1 = columns) row.

Definition ok (v : JsVal) : Reply := {| data := v; error := JNull |}.
Definition failed (e : PgError) : Reply :=
  {| data := JNull; error := pg_error_val e |}.

(** The reply carrying [rows]: an array, or with [.single()] the one row. *)
Definition shape (q : Query) (rows : list Obj) : Reply :=
  if q_single q then
    match rows with
    | [r] => ok (JObj r)
    | _ => failed PGRST116
    end
  else ok (JArr (JObj <$> rows)).

Definition written (q : Query) (rows : list Obj) : Reply :=
  if q_returning q then shape q rows else ok JNull.

Definition patch_row (fs : list Filter) (patch : Obj) (row : Obj) : Obj :=
  if matches_all fs row then patch ∪ row else row.

(** One query against one table: the reply, and the table afterwards when
    the query writes. *)
Definition exec (q : Query) (rows : list Obj) : Reply * option (list Obj) :=
  match q_verb q with
  | None => (failed PGRST100, None)
  | Some (Select columns) =>
      let hits := filter (λ r, matches_all (q_filters q) r = true) rows in
      let sorted := match q_order q with
                    | Some (c, asc) => sort_rows (comes_before c asc) hits
                    | None => hits
                    end in
      match window (q_offset q) (q_limit q) sorted with
      | None => (failed PGRST103, None)
      | Some page => (shape q (project columns <$> page), None)
      end
  | Some (Insert new) => (written q new, Some (rows ++ new))
  | Some (Update patch) =>
      (written q (patch_row (q_filters q) patch <$>
                    filter (λ r, matches_all (q_filters q) r = true) rows),
       Some (patch_row (q_filters q) patch <$> rows))
  end.

Inductive ConsoleLine : Type :=
| LogLine (line : jsstring)
| ErrorLine (label : jsstring) (value : JsVal).

(** The world the two programs run in. [faults] is a script of store
    failures: each awaited query takes the next entry, and fails with it,
    touching nothing, when it is an error. [clock] and [dice] are the
    successive readings of the clock and of the random generator. *)
Record World : Type := {
  tables : gmap string (list Obj);
  faults : list (option PgError);
  youtube : YtRequest → Completion HttpResponse;
  clock : list jsstring;
  dice : list Z;
  console : list ConsoleLine
}.

Definition table (w : World) (name : string) : list Obj :=
  default [] (tables w !! name).

Definition epoch : jsstring := utf16 "1970-01-01T00:00:00.000Z".

Definition now (w : World) : jsstring := default epoch (head (clock w)).

Definition set_store (t : gmap string (list Obj))
  (f : list (option PgError)) (w : World) : World :=
  {| tables := t; faults := f; youtube := youtube w; clock := clock w;
     dice := dice w; console := console w |}.

Definition tick (w : World) : World :=
  {| tables := tables w; faults := faults w; youtube := youtube w;
     clock := tail (clock w); dice := dice w; console := console w |}.

Definition roll (w : World) : World :=
  {| tables := tables w; faults := faults w; youtube := youtube w;
     clock := clock w; dice := tail (dice w); console := console w |}.

Definition print (l : ConsoleLine) (w : World) : World :=
  {| tables := tables w; faults := faults w; youtube := youtube w;
     clock := clock w; dice := dice w; console := console w ++ [l] |}.

Definition pg_await (q : Query) (w : World) : Reply * World :=
  match faults w with
  | Some e :: rest => (failed e, set_store (tables w) rest w)
  | _ =>
      match exec q (table w (q_table q)) with
      | (reply, Some rows) =>
          (reply,
           set_store (<[q_table q := rows]> (tables w)) (tail (faults w)) w)
      | (reply, None) => (reply, set_store (tables w) (tail (faults w)) w)
      end
  end.

Definition pg (X : Type) (e : Eff X) (w : World) : X * World :=
  match e in Eff X return X * World with
  | Await q => pg_await q w
  | Fetch r => (youtube w r, w)
  | NowISO => (now w, tick w)
  | RandomBelow n => (default 0 (head (dice w)) `mod` n, roll w)
  | Sleep _ => (tt, w)
  | ConsoleError label v => (tt, print (ErrorLine label v) w)
  | ConsoleLog line => (tt, print (LogLine line) w)
  end.

(* ===================================================================== *)
(** ** src/server.js *)
(* ===================================================================== *)

(** [arr.filter(cb)]; a callback that throws stops the iteration. *)
Fixpoint filter_with (cb : JsVal → Completion bool) (l : list JsVal)
  : Completion (list JsVal) :=
  match l with
  | [] => Normal []
  | x :: rest =>
      keep ← cb x;
      kept ← filter_with cb rest;
      Normal (if (keep : bool) then x :: kept else kept)
  end.

Definition js_filter (arr : JsVal) (cb : JsVal → Completion bool)
  : Completion JsVal :=
  match arr with
  | JArr l => kept ← filter_with cb l; Normal (JArr kept)
  | JUndefined | JNull =>
      Throw (type_error ("Cannot read properties of " +:+
               (if arr is JNull then "null" else "undefined") +:+
               " (reading 'filter')"))
  | _ => Throw (type_error "data.filter is not a function")
  end.

(** What [JSON.stringify] keeps of an object sent to the store: a key whose
    value is [undefined] is not sent. The other values are kept as they
    are, which is what JSON does to the values of a request and to the
    integers and strings the program computes from them; a [NaN], which
    JSON writes as [null], is kept here as it is. *)
Definition is_undefined (v : JsVal) : bool :=
  match v with JUndefined => true | _ => false end.

Definition sent (o : Obj) : Obj :=
  filter (λ kv, is_undefined kv.2 = false) o.

(** The request as the handlers read it, with [req.query] and [req.body]
    the objects the framework parsed. *)
Record Request : Type := { req_query : Obj; req_params : Obj; req_body : Obj }.

Record Response : Type := { status : Z; payload : Obj }.

(** [res.json(o)] and [res.status(code).json(o)] *)
Definition res_json (o : Obj) : Response := {| status := 200; payload := o |}.
Definition res_status_json (code : Z) (o : Obj) : Response :=
  {| status := code; payload := o |}.

(** The [catch] block every handler ends with. *)
Definition respond_500 (label : string) (err : JsVal) : M Response :=
  _ ← perform (ConsoleError (utf16 label) err);
  message ← lift (js_get err "message");
  ret (res_status_json 500
         (obj [("success", JBool false); ("error", message)])).

(** [GET /api/articles] *)
Definition get_api_articles (req : Request) : M Response :=
  try_catch
    (let category := field (req_query req) "category" in
     let limit := or_default (field (req_query req) "limit") (JNum 20) in
     let offset := or_default (field (req_query req) "offset") (JNum 0) in
     let query :=
       supabase.from "articles"
         ▸ supabase.select "*"
         ▸ supabase.order "published_at" false
         ▸ supabase.range offset (js_sub (js_add offset limit) (JNum 1)) in
     let query :=
       if truthy category && negb (strict_eq_str category (utf16 "all"))
       then query ▸ supabase.eq "category" category
       else query in
     r ← await query;
     if truthy (error r) then throw (error r)
     else ret (res_json (obj [("success", JBool true); ("data", data r)])))
    (respond_500 "Error fetching articles:").

(** [POST /api/comments] *)
Definition post_api_comments (req : Request) : M Response :=
  try_catch
    (let article_id := field (req_body req) "article_id" in
     let user_name := field (req_body req) "user_name" in
     let user_avatar := field (req_body req) "user_avatar" in
     let text := field (req_body req) "text" in
     if negb (truthy article_id) || negb (truthy text) then
       ret (res_status_json 400
              (obj [("success", JBool false);
                    ("error", JStr (utf16 "article_id and text are required"))]))
     else
       r ← await (supabase.from "comments"
                    ▸ supabase.insert
                        [sent (obj [("article_id", article_id);
                                    ("user_name",
                                      js_or user_name (JStr (utf16 "匿名")));
                                    ("user_avatar",
                                      js_or user_avatar (JStr (utf16 "😊")));
                                    ("text", text)])]
                    ▸ supabase.select "*");
       if truthy (error r) then throw (error r)
       else
         a ← await (supabase.from "articles"
                      ▸ supabase.select "comment_count"
                      ▸ supabase.eq "id" article_id
                      ▸ supabase.single);
         let article := data a in
         _ ← await (supabase.from "articles"
                      ▸ supabase.update
                          (sent (obj [("comment_count",
                                        js_add
                                          (js_or
                                             (js_get_opt article "comment_count")
                                             (JNum 0))
                                          (JNum 1))]))
                      ▸ supabase.eq "id" article_id);
         first ← lift (js_first (data r));
         ret (res_json (obj [("success", JBool true); ("data", first)])))
    (respond_500 "Error posting comment:").

(** [POST /api/recommendations/articles] *)
Definition post_api_recommendations_articles (req : Request) : M Response :=
  try_catch
    (let categories := field (req_body req) "categories" in
     let viewed_articles :=
       or_default (field (req_body req) "viewed_articles") (JArr []) in
     let query :=
       supabase.from "articles"
         ▸ supabase.select "*"
         ▸ supabase.order "published_at" false
         ▸ supabase.limit (JNum 10) in
     query ←
       (if truthy categories then
          len ← lift (js_get categories "length");
          if js_gt_num len 0
          then lift (query ▸ supabase.in_ "category" categories)
          else ret query
        else ret query);
     r ← await query;
     if truthy (error r) then throw (error r)
     else
       filteredData ←
         lift (js_filter (data r)
                 (λ article,
                    includes ← js_includes viewed_articles;
                    id ← js_get article "id";
                    seen ← includes id;
                    Normal (negb seen)));
       ret (res_json (obj [("success", JBool true); ("data", filteredData)])))
    (respond_500 "Error getting recommendations:").

(** [POST /api/user-preferences] *)
Definition post_api_user_preferences (req : Request) : M Response :=
  try_catch
    (let user_id := field (req_body req) "user_id" in
     let favorite_categories := field (req_body req) "favorite_categories" in
     let viewed_articles := field (req_body req) "viewed_articles" in
     if negb (truthy user_id) then
       ret (res_status_json 400
              (obj [("success", JBool false);
                    ("error", JStr (utf16 "user_id is required"))]))
     else
       e ← await (supabase.from "user_preferences"
                    ▸ supabase.select "*"
                    ▸ supabase.eq "user_id" user_id
                    ▸ supabase.single);
       let existing := data e in
       result ←
         (if truthy existing then
            old_categories ← lift (js_get existing "favorite_categories");
            old_viewed ← lift (js_get existing "viewed_articles");
            last_visit ← perform NowISO;
            r ← await (supabase.from "user_preferences"
                         ▸ supabase.update
                             (sent (obj [("favorite_categories",
                                           js_or favorite_categories
                                             old_categories);
                                         ("viewed_articles",
                                           js_or viewed_articles old_viewed);
                                         ("last_visit", JStr last_visit)]))
                         ▸ supabase.eq "user_id" user_id
                         ▸ supabase.select "*");
            if truthy (error r) then throw (error r)
            else lift (js_first (data r))
          else
            r ← await (supabase.from "user_preferences"
                         ▸ supabase.insert
                             [sent (obj [("user_id", user_id);
                                         ("favorite_categories",
                                           js_or favorite_categories (JArr []));
                                         ("viewed_articles",
                                           js_or viewed_articles (JArr []))])]
                         ▸ supabase.select "*");
            if truthy (error r) then throw (error r)
            else lift (js_first (data r)));
       ret (res_json (obj [("success", JBool true); ("data", result)])))
    (respond_500 "Error updating user preferences:").

(** [GET /api/articles/trending] *)
Definition get_api_articles_trending (req : Request) : M Response :=
  try_catch
    (let limit := or_default (field (req_query req) "limit") (JNum 10) in
     r ← await (supabase.from "articles"
                  ▸ supabase.select "*"
                  ▸ supabase.eq "is_trending" (JBool true)
                  ▸ supabase.order "reaction_count" false
                  ▸ supabase.limit limit);
     if truthy (error r) then throw (error r)
     else ret (res_json (obj [("success", JBool true); ("data", data r)])))
    (respond_500 "Error fetching trending articles:").

(** [{ ...v }]: the own enumerable properties of [v]; the indices of an
    array or of a string; nothing for the other values. *)
Definition indexed (l : list JsVal) : Obj :=
  list_to_map (imap (λ i x, (pretty i, x)) l).

Definition js_spread (v : JsVal) : Obj :=
  match v with
  | JObj o => o
  | JArr l => indexed l
  | JStr s => indexed ((λ c, JStr [c]) <$> s)
  | _ => ∅
  end.

(** [GET /api/articles/:id] *)
Definition get_api_articles_id (req : Request) : M Response :=
  try_catch
    (let id := field (req_params req) "id" in
     a ← await (supabase.from "articles"
                  ▸ supabase.select "*"
                  ▸ supabase.eq "id" id
                  ▸ supabase.single);
     let article := data a in
     if truthy (error a) then throw (error a)
     else
       rs ← await (supabase.from "reactions"
                     ▸ supabase.select "*"
                     ▸ supabase.eq "article_id" id
                     ▸ supabase.order "created_at" false);
       let reactions := data rs in
       if truthy (error rs) then throw (error rs)
       else
         cs ← await (supabase.from "comments"
                       ▸ supabase.select "*"
                       ▸ supabase.eq "article_id" id
                       ▸ supabase.order "created_at" false);
         let comments := data cs in
         if truthy (error cs) then throw (error cs)
         else
           view_count ← lift (js_get article "view_count");
           _ ← await (supabase.from "articles"
                        ▸ supabase.update
                            (sent (obj [("view_count",
                                          js_add view_count (JNum 1))]))
                        ▸ supabase.eq "id" id);
           ret (res_json
                  (obj [("success", JBool true);
                        ("data",
                          JObj (<["comments" := comments]>
                                  (<["reactions" := reactions]>
                                     (js_spread article))))])))
    (respond_500 "Error fetching article:").

(** [GET /api/tags/trending] *)
Definition get_api_tags_trending (req : Request) : M Response :=
  try_catch
    (let limit := or_default (field (req_query req) "limit") (JNum 10) in
     r ← await (supabase.from "tags"
                  ▸ supabase.select "*"
                  ▸ supabase.eq "is_trending" (JBool true)
                  ▸ supabase.order "count" false
                  ▸ supabase.limit limit);
     if truthy (error r) then throw (error r)
     else ret (res_json (obj [("success", JBool true); ("data", data r)])))
    (respond_500 "Error fetching trending tags:").

(** [POST /api/recommendations/products] *)
Definition post_api_recommendations_products (req : Request) : M Response :=
  try_catch
    (let categories := field (req_body req) "categories" in
     let query :=
       supabase.from "products"
         ▸ supabase.select "*"
         ▸ supabase.limit (JNum 5) in
     query ←
       (if truthy categories then
          len ← lift (js_get categories "length");
          if js_gt_num len 0
          then lift (query ▸ supabase.in_ "category" categories)
          else ret query
        else ret query);
     r ← await query;
     if truthy (error r) then throw (error r)
     else ret (res_json (obj [("success", JBool true); ("data", data r)])))
    (respond_500 "Error getting product recommendations:").

(** [GET /api/user-preferences/:user_id] *)
Definition get_api_user_preferences (req : Request) : M Response :=
  try_catch
    (let user_id := field (req_params req) "user_id" in
     r ← await (supabase.from "user_preferences"
                  ▸ supabase.select "*"
                  ▸ supabase.eq "user_id" user_id
                  ▸ supabase.single);
     let reply :=
       res_json (obj [("success", JBool true);
                      ("data", js_or (data r) JNull)]) in
     if truthy (error r) then
       code ← lift (js_get (error r) "code");
       if negb (strict_eq_str code (utf16 "PGRST116")) then throw (error r)
       else ret reply
     else ret reply)
    (respond_500 "Error fetching user preferences:").

(** [GET /health] *)
Definition get_health (req : Request) : M Response :=
  timestamp ← perform NowISO;
  ret (res_json (obj [("status", JStr (utf16 "ok"));
                      ("timestamp", JStr timestamp)])).

(** A JavaScript string used as a property key. Keys are written in this
    file as UTF-8 text, so the code units are encoded back: [utf8] is the
    inverse of [utf16] (a lone surrogate gets the three bytes of its
    value). *)
Fixpoint utf8_of_units (s : jsstring) : list N :=
  match s with
  | [] => []
  | c :: t =>
      if (c <? 128)%N then c :: utf8_of_units t
      else if (c <? 2048)%N then
        (192 + c / 64)%N :: (128 + c mod 64)%N :: utf8_of_units t
      else
        let three (rest : list N) :=
          (224 + c / 4096)%N :: (128 + (c / 64) mod 64)%N
            :: (128 + c mod 64)%N :: rest in
        if is_high_surrogate c then
          match t with
          | d :: t' =>
              if is_low_surrogate d then
                let cp := (65536 + (c - 55296) * 1024 + (d - 56320))%N in
                (240 + cp / 262144)%N :: (128 + (cp / 4096) mod 64)%N
                  :: (128 + (cp / 64) mod 64)%N :: (128 + cp mod 64)%N
                  :: utf8_of_units t'
              else three (utf8_of_units t)
          | [] => three []
          end
        else three (utf8_of_units t)
  end.

Definition utf8 (s : jsstring) : string :=
  String.string_of_list_ascii (Ascii.ascii_of_N <$> utf8_of_units s).

(** The members every plain object inherits from [Object.prototype]. *)
Definition inherited_functions : list (string * string) :=
  [("constructor", "Object");
   ("__defineGetter__", "__defineGetter__");
   ("__defineSetter__", "__defineSetter__");
   ("hasOwnProperty", "hasOwnProperty");
   ("__lookupGetter__", "__lookupGetter__");
   ("__lookupSetter__", "__lookupSetter__");
   ("isPrototypeOf", "isPrototypeOf");
   ("propertyIsEnumerable", "propertyIsEnumerable");
   ("toString", "toString");
   ("valueOf", "valueOf");
   ("toLocaleString", "toLocaleString")].

Definition inherited_names : list string :=
  "__proto__" :: inherited_functions.*1.

(** [acc[key]] on a plain object: the own property, else the inherited
    member. An inherited function is given as its source text, which is
    what [||] and [+] make of it; [__proto__] reads the prototype object. *)
Definition js_index (acc : Obj) (key : string) : JsVal :=
  match acc !! key with
  | Some v => v
  | None =>
      if bool_decide (key = "__proto__") then JObj ∅
      else
        match list_to_map (M := gmap string string) inherited_functions !! key with
        | Some name =>
            JStr (utf16 ("function " +:+ name +:+ "() { [native code] }"))
        | None => JUndefined
        end
  end.

(** [acc[key] = v] on a plain object, for a [v] that is a number or a
    string: an own property, except that assigning such a value to
    [__proto__] does nothing. *)
Definition js_assign (acc : Obj) (key : string) (v : JsVal) : Obj :=
  if bool_decide (key = "__proto__") then acc else <[key := v]> acc.

(** The callback of the [reduce] in [GET /api/stats/categories]:
    [(acc, { category }) => { acc[category] = (acc[category] || 0) + 1;
    return acc; }] *)
Definition tally_step (acc : Obj) (row : JsVal) : Completion Obj :=
  match row with
  | JUndefined | JNull =>
      Throw (type_error "Cannot destructure property 'category' of 'object'")
  | _ =>
      category ← js_get row "category";
      let key := utf8 (to_string category) in
      Normal (js_assign acc key
                (js_add (js_or (js_index acc key) (JNum 0)) (JNum 1)))
  end.

(** [arr.reduce(step, init)] *)
Fixpoint reduce_with {A} (step : A → JsVal → Completion A) (acc : A)
  (l : list JsVal) : Completion A :=
  match l with
  | [] => Normal acc
  | x :: rest => acc' ← step acc x; reduce_with step acc' rest
  end.

Definition js_reduce {A} (arr : JsVal) (step : A → JsVal → Completion A)
  (init : A) : Completion A :=
  match arr with
  | JArr l => reduce_with step init l
  | JUndefined | JNull =>
      Throw (type_error ("Cannot read properties of " +:+
               (if arr is JNull then "null" else "undefined") +:+
               " (reading 'reduce')"))
  | _ => Throw (type_error "data.reduce is not a function")
  end.

(** [GET /api/stats/categories] *)
Definition get_api_stats_categories (req : Request) : M Response :=
  try_catch
    (r ← await (supabase.from "articles"
                  ▸ supabase.select "category"
                  ▸ supabase.order "category" true);
     if truthy (error r) then throw (error r)
     else
       stats ← lift (js_reduce (data r) tally_step ∅);
       ret (res_json (obj [("success", JBool true); ("data", JObj stats)])))
    (respond_500 "Error fetching category stats:").

(** The routes of the server and their handlers. *)
Inductive Route : Type :=
| ListArticles
| TrendingArticles
| ArticleById
| PostComment
| TrendingTags
| RecommendArticles
| RecommendProducts
| GetPreferences
| PostPreferences
| CategoryStats
| Health.

Definition handler (route : Route) : Request → M Response :=
  match route with
  | ListArticles => get_api_articles
  | TrendingArticles => get_api_articles_trending
  | ArticleById => get_api_articles_id
  | PostComment => post_api_comments
  | TrendingTags => get_api_tags_trending
  | RecommendArticles => post_api_recommendations_articles
  | RecommendProducts => post_api_recommendations_products
  | GetPreferences => get_api_user_preferences
  | PostPreferences => post_api_user_preferences
  | CategoryStats => get_api_stats_categories
  | Health => get_health
  end.

(* ===================================================================== *)
(** ** src/scripts/fetch-youtube-trending.js *)
(* ===================================================================== *)

Definition nl : jsstring := [10%N].

(** [encodeURIComponent(v)] converts [v] to a string, which may throw, and
    throws a [URIError] on a string with a lone surrogate. The request
    record keeps the component as it was before escaping. *)
Fixpoint well_formed (s : jsstring) : bool :=
  match s with
  | [] => true
  | c :: t =>
      if is_high_surrogate c then
        match t with
        | d :: t' => is_low_surrogate d && well_formed t'
        | [] => false
        end
      else if is_low_surrogate c then false
      else well_formed t
  end.

Definition encodeURIComponent (v : JsVal) : Completion jsstring :=
  s ← to_text v;
  if well_formed s then Normal s
  else Throw (JObj (obj [("name", JStr (utf16 "URIError"));
                         ("message", JStr (utf16 "URI malformed"))])).

(** [await fetch(url)] *)
Definition fetch (r : YtRequest) : M HttpResponse :=
  c ← perform (Fetch r); lift c.

(** [searchTrendingVideos(keyword, maxResults = 5)]. The URL is a template
    literal evaluated before the [try] block: it encodes the keyword and
    converts [maxResults] to a string, and either may throw. *)
Definition searchTrendingVideos (keyword maxResults : JsVal) : M JsVal :=
  let maxResults := or_default maxResults (JNum 5) in
  q ← lift (encodeURIComponent keyword);
  _ ← lift (to_text maxResults);
  let url := YtSearch q maxResults in
  try_catch
    (response ← fetch url;
     data ← lift (json response);
     data_error ← lift (js_get data "error");
     if truthy data_error then
       message ← lift (js_get data_error "message");
       reason ← lift (to_text message);
       throw (new_error (utf16 "YouTube API Error: " ++ reason))
     else
       items ← lift (js_get data "items");
       ret (js_or items (JArr [])))
    (λ err,
       _ ← perform (ConsoleError (utf16 "Error searching videos:") err);
       ret (JArr [])).

(** [getVideoComments(videoId, maxResults = 20)]. The URL is a template
    literal evaluated before the [try] block: it converts [videoId] and
    [maxResults] to strings, and either conversion may throw. *)
Definition getVideoComments (videoId maxResults : JsVal) : M JsVal :=
  let maxResults := or_default maxResults (JNum 20) in
  id ← lift (to_text videoId);
  _ ← lift (to_text maxResults);
  let url := YtCommentThreads videoId maxResults in
  try_catch
    (response ← fetch url;
     data ← lift (json response);
     data_error ← lift (js_get data "error");
     if truthy data_error then
       message ← lift (js_get data_error "message");
       reason ← lift (to_text message);
       _ ← perform (ConsoleLog (utf16 "Cannot get comments for "
                                 ++ id ++ utf16 ": " ++ reason));
       ret (JArr [])
     else
       items ← lift (js_get data "items");
       ret (js_or items (JArr [])))
    (λ err,
       _ ← perform (ConsoleError (utf16 "Error fetching comments:") err);
       ret (JArr [])).

(** [comments.slice(0, 10).forEach((comment, index) => { commentText += .. })]
    starting from [commentText = acc]. *)
Fixpoint render_comments (acc : jsstring) (l : list JsVal)
  : Completion jsstring :=
  match l with
  | [] => Normal acc
  | comment :: rest =>
      s1 ← js_get comment "snippet";
      t1 ← js_get s1 "topLevelComment";
      i1 ← js_get t1 "snippet";
      text ← js_get i1 "textDisplay";
      s2 ← js_get comment "snippet";
      t2 ← js_get s2 "topLevelComment";
      i2 ← js_get t2 "snippet";
      author ← js_get i2 "authorDisplayName";
      author ← to_text author;
      text ← to_text text;
      render_comments
        (acc ++ utf16 "**" ++ author ++ utf16 "**: " ++ text ++ nl ++ nl)
        rest
  end.

Definition slice_for_each (comments : JsVal) (acc : jsstring)
  : Completion jsstring :=
  match comments with
  | JArr l => render_comments acc (take 10 l)
  | JStr _ =>
      Throw (type_error "comments.slice(...).forEach is not a function")
  | _ => Throw (type_error "comments.slice is not a function")
  end.

(** [d.substring(0, n)] *)
Definition js_substring0 (d : JsVal) (n : nat) : Completion JsVal :=
  match d with
  | JStr s => Normal (JStr (substring0 n s))
  | JUndefined | JNull =>
      Throw (type_error ("Cannot read properties of " +:+
               (if d is JNull then "null" else "undefined") +:+
               " (reading 'substring')"))
  | _ => Throw (type_error "snippet.description.substring is not a function")
  end.

(** [createArticleFromVideo(video, comments, category)] *)
Definition createArticleFromVideo (video comments category : JsVal)
  : M JsVal :=
  snippet ← lift (js_get video "snippet");
  video_id ← lift (js_get video "id");
  videoId ← lift (js_get video_id "videoId");
  snippet_title ← lift (js_get snippet "title");
  shown_title ← lift (to_text snippet_title);
  let title := utf16 "【話題】" ++ shown_title in
  len ← lift (js_get comments "length");
  commentText ←
    (if js_gt_num len 0
     then lift (slice_for_each comments
                  (nl ++ nl ++ utf16 "## 視聴者の反応" ++ nl ++ nl))
     else ret (nl ++ nl ++ utf16 "視聴者のコメントはまだありません。"));
  description ← lift (js_get snippet "description");
  lead ← lift (js_substring0 description 200);
  link ← lift (to_text videoId);
  let content :=
    utf16 "YouTubeで話題の動画「" ++ shown_title
      ++ utf16 "」が注目を集めています。" ++ nl ++ nl
      ++ to_string lead ++ utf16 "..." ++ nl
      ++ commentText ++ nl ++ nl
      ++ utf16 "動画リンク: https://www.youtube.com/watch?v="
      ++ link in
  excerpt ← lift (js_substring0 description 150);
  thumbnails ← lift (js_get snippet "thumbnails");
  high ← lift (js_get thumbnails "high");
  dflt ← lift (js_get thumbnails "default");
  fire_len ← lift (js_get comments "length");
  reactions ← perform (RandomBelow 1000);
  count_len ← lift (js_get comments "length");
  views ← perform (RandomBelow 10000);
  published_at ← perform NowISO;
  let articleData :=
    obj [("title", JStr title);
         ("content", JStr content);
         ("excerpt", js_or excerpt (JStr (utf16 "話題の動画をチェック!")));
         ("category", category);
         ("source_url",
           JStr (utf16 "https://www.youtube.com/watch?v=" ++ link));
         ("image_url", js_or (js_get_opt high "url") (js_get_opt dflt "url"));
         ("is_trending", JBool true);
         ("is_fire", JBool (js_gt_num fire_len 50));
         ("reaction_count", JNum (reactions + 500));
         ("comment_count", count_len);
         ("view_count", JNum (views + 1000));
         ("published_at", JStr published_at)] in
  r ← await (supabase.from "articles"
               ▸ supabase.insert [sent articleData]
               ▸ supabase.select "*");
  if truthy (error r) then
    _ ← perform (ConsoleError (utf16 "Error saving article:") (error r));
    ret JNull
  else
    _ ← perform (ConsoleLog (utf16 "✅ Article created: " ++ title));
    lift (js_first (data r)).

(** [for (const x of xs) { body }], threading the variables the body
    assigns. *)
Fixpoint for_of {A S} (xs : list A) (body : A → S → M S) (s : S) : M S :=
  match xs with
  | [] => ret s
  | x :: rest => s' ← body x s; for_of rest body s'
  end.

Definition keywords : list (jsstring * jsstring) :=
  [(utf16 "アニメ 話題", utf16 "anime");
   (utf16 "ゲーム 実況", utf16 "game");
   (utf16 "ボカロ 新曲", utf16 "music")].

(** [main()] *)
Definition main : M unit :=
  _ ← perform (ConsoleLog
                 (utf16 "🚀 Starting YouTube trending article generator..."));
  totalArticles ←
    for_of keywords
      (λ '(keyword, category) totalArticles,
         _ ← perform (ConsoleLog (nl ++ utf16 "📺 Searching: " ++ keyword));
         videos ← searchTrendingVideos (JStr keyword) (JNum 3);
         found ← lift (js_get videos "length");
         found ← lift (to_text found);
         _ ← perform (ConsoleLog (utf16 "Found " ++ found
                                    ++ utf16 " videos"));
         items ← lift (js_for_of "videos" videos);
         for_of items
           (λ video totalArticles,
              video_id ← lift (js_get video "id");
              videoId ← lift (js_get video_id "videoId");
              snippet ← lift (js_get video "snippet");
              title ← lift (js_get snippet "title");
              title ← lift (to_text title);
              _ ← perform (ConsoleLog (nl ++ utf16 "  Processing: "
                                         ++ title));
              comments ← getVideoComments videoId (JNum 20);
              shown ← lift (js_get comments "length");
              shown ← lift (to_text shown);
              _ ← perform (ConsoleLog (utf16 "  - Comments: " ++ shown));
              article ← createArticleFromVideo video comments (JStr category);
              let totalArticles :=
                if truthy article then totalArticles + 1 else totalArticles in
              _ ← perform (Sleep 1000);
              ret totalArticles)
           totalArticles)
      0;
  _ ← perform (ConsoleLog (nl ++ utf16 "✨ Completed! Created "
                             ++ to_string (JNum totalArticles)
                             ++ utf16 " articles."));
  ret tt.

(* ===================================================================== *)
(** ** Vocabulary of the statements *)
(* ===================================================================== *)

(** The articles in the [data] of a handler's reply; none when the reply
    carries no array. *)
Definition reply_data (c : Completion Response) : list JsVal :=
  match c with
  | Normal resp =>
      match payload resp !! "data" with
      | Some (JArr l) => l
      | _ => []
      end
  | Throw _ => []
  end.

Definition reply_status (c : Completion Response) : option Z :=
  match c with
  | Normal resp => Some (status resp)
  | Throw _ => None
  end.

(** [id] is a member of the viewed list [l], in the sense of [includes]. *)
Definition in_viewed (l : list JsVal) (id : JsVal) : Prop :=
  ∃ y, y ∈ l ∧ same_value_zero y id = true.

(** Strings, numbers, booleans, [null], [undefined]: the values [includes]
    compares by content. *)
Definition is_scalar (v : JsVal) : bool :=
  match v with
  | JArr _ | JObj _ => false
  | _ => true
  end.

(** The rows of [table] the filter [column = value] selects. *)
Definition rows_where (column : string) (value : JsVal) (rows : list Obj)
  : list Obj :=
  filter (λ r, matches_all [FEq column value] r = true) rows.

(** No store failure is scripted. *)
Definition healthy (w : World) : Prop := faults w = [].

(** The reply of [POST /api/comments] to a body without [article_id] or
    without [text]. *)
Definition comment_rejected : Response :=
  res_status_json 400
    (obj [("success", JBool false);
          ("error", JStr (utf16 "article_id and text are required"))]).

(** A request with the given query string and body. *)
Definition request (query body : list (string * JsVal)) : Request :=
  {| req_query := obj query; req_params := ∅; req_body := obj body |}.

(** A small world for the examples: three articles, a platform that cannot
    be reached, a clock with two readings. *)
Definition demo_articles : list Obj :=
  [obj [("id", JStr (utf16 "a1")); ("category", JStr (utf16 "anime"));
        ("comment_count", JNum 7);
        ("published_at", JStr (utf16 "2024-01-01T00:00:00.000Z"))];
   obj [("id", JStr (utf16 "a2")); ("category", JStr (utf16 "game"));
        ("comment_count", JNull);
        ("published_at", JStr (utf16 "2024-02-01T00:00:00.000Z"))];
   obj [("id", JStr (utf16 "a3")); ("category", JStr (utf16 "anime"));
        ("comment_count", JNum 0);
        ("published_at", JStr (utf16 "2024-03-01T00:00:00.000Z"))]].

Definition demo_world : World :=
  {| tables := {[ "articles" := demo_articles ]};
     faults := [];
     youtube := λ _, Throw (type_error "fetch failed");
     clock := [utf16 "2024-05-01T10:00:00.000Z";
               utf16 "2024-05-02T10:00:00.000Z"];
     dice := [];
     console := [] |}.

(** The article [a] of a reply has a [category] field whose text is the
    text of [category]. *)
Definition has_category (a : JsVal) (category : JsVal) : Prop :=
  ∃ r v, a = JObj r ∧ r !! "category" = Some v
         ∧ to_string v = to_string category.

(** The world after an awaited query that writes nothing. *)
Definition after_read (w : World) : World :=
  set_store (tables w) (tail (faults w)) w.

(** The third article of [demo_articles], as a reply carries it. *)
Definition demo_article_a3 : JsVal :=
  JObj (obj [("id", JStr (utf16 "a3")); ("category", JStr (utf16 "anime"));
             ("comment_count", JNum 0);
             ("published_at", JStr (utf16 "2024-03-01T00:00:00.000Z"))]).

(** The world after an awaited query that leaves [rows] in [name]. *)
Definition after_write (name : string) (rows : list Obj) (w : World)
  : World :=
  set_store (<[name := rows]> (tables w)) (tail (faults w)) w.

(** The count the comment handler takes from an article row: the stored
    number, and 0 for a missing or [null] count. Nothing for a row whose
    [comment_count] is not a count. *)
Definition prior_count (a : Obj) : option Z :=
  match a !! "comment_count" with
  | Some (JNum n) => Some n
  | None | Some JNull | Some JUndefined => Some 0
  | Some _ => None
  end.

(** The articles table after the comment count of the rows with id
    [article_id] has been set to [n]. *)
Definition with_count (article_id : JsVal) (n : Z) (rows : list Obj)
  : list Obj :=
  (λ r, if pg_eq (r !! "id") article_id
        then <["comment_count" := JNum n]> r else r) <$> rows.

(** The comment row [POST /api/comments] writes for a body that has no
    [user_name] and no [user_avatar]. *)
Definition anonymous_comment (article_id text : JsVal) : Obj :=
  obj [("article_id", article_id);
       ("user_name", JStr (utf16 "匿名"));
       ("user_avatar", JStr (utf16 "😊"));
       ("text", text)].

(** What [POST /api/comments] sends to the store for a body: the comment
    row, and the patch of the article once [article] has been read. *)
Definition comment_row (body : Obj) : Obj :=
  sent (obj [("article_id", field body "article_id");
             ("user_name", js_or (field body "user_name") (JStr (utf16 "匿名")));
             ("user_avatar",
               js_or (field body "user_avatar") (JStr (utf16 "😊")));
             ("text", field body "text")]).

Definition count_patch (article : JsVal) : Obj :=
  sent (obj [("comment_count",
               js_add (js_or (js_get_opt article "comment_count") (JNum 0))
                 (JNum 1))]).

(** The [data] of [select(columns).eq(key, value).single()] on [rows]. *)
Definition single_row (columns key : string) (value : JsVal)
  (rows : list Obj) : JsVal :=
  data (match project columns <$> rows_where key value rows with
        | [r] => ok (JObj r)
        | _ => failed PGRST116
        end).

(** What [POST /api/user-preferences] sends to the store for a body: the
    row of a first-time creation, and the patch of an update of [existing]
    at time [t]. *)
Definition pref_row (body : Obj) : Obj :=
  sent (obj [("user_id", field body "user_id");
             ("favorite_categories",
               js_or (field body "favorite_categories") (JArr []));
             ("viewed_articles",
               js_or (field body "viewed_articles") (JArr []))]).

Definition pref_patch (body existing : Obj) (t : jsstring) : Obj :=
  sent (obj [("favorite_categories",
               js_or (field body "favorite_categories")
                 (field existing "favorite_categories"));
             ("viewed_articles",
               js_or (field body "viewed_articles")
                 (field existing "viewed_articles"));
             ("last_visit", JStr t)]).

(** The user records of a world. *)
Definition prefs_of (user_id : JsVal) (w : World) : list Obj :=
  rows_where "user_id" user_id (table w "user_preferences").

(** A world with one user record and a clock, for the examples. *)
Definition demo_prefs_world : World :=
  {| tables :=
       {[ "user_preferences" :=
            [obj [("user_id", JStr (utf16 "u1"));
                  ("favorite_categories", JArr [JStr (utf16 "anime")]);
                  ("viewed_articles", JArr [JStr (utf16 "a1")])];
             obj [("user_id", JStr (utf16 "u2"));
                  ("favorite_categories", JArr []);
                  ("viewed_articles", JArr [])]] ]};
     faults := [];
     youtube := λ _, Throw (type_error "fetch failed");
     clock := [utf16 "2024-05-01T10:00:00.000Z";
               utf16 "2024-05-02T10:00:00.000Z"];
     dice := [];
     console := [] |}.

(** The two functions of the video platform client, and the request each
    sends once its URL has been built. *)
Inductive ClientCall : Type :=
| SearchCall (keyword maxResults : JsVal)
| CommentsCall (videoId maxResults : JsVal).

Definition client (c : ClientCall) : M JsVal :=
  match c with
  | SearchCall keyword maxResults => searchTrendingVideos keyword maxResults
  | CommentsCall videoId maxResults => getVideoComments videoId maxResults
  end.

Definition request_of (c : ClientCall) : Completion YtRequest :=
  match c with
  | SearchCall keyword maxResults =>
      q ← encodeURIComponent keyword;
      _ ← to_text (or_default maxResults (JNum 5));
      Normal (YtSearch q (or_default maxResults (JNum 5)))
  | CommentsCall videoId maxResults =>
      _ ← to_text videoId;
      _ ← to_text (or_default maxResults (JNum 20));
      Normal (YtCommentThreads videoId (or_default maxResults (JNum 20)))
  end.

(** The ways a call to the platform fails: [fetch] rejects (transport), the
    body cannot be read as JSON, or the body carries a truthy [error]. *)
Inductive call_failed : Completion HttpResponse → Prop :=
| transport_error (e : JsVal) : call_failed (Throw e)
| unreadable_body (e : JsVal) : call_failed (Normal {| json := Throw e |})
| api_error (body err : JsVal) :
    js_get body "error" = Normal err →
    truthy err = true →
    call_failed (Normal {| json := Normal body |}).

(** The articles table of [w] is that of [w0] followed by rows whose
    [is_fire] is [fire], and the platform answers as in [w0]. *)
Definition grown (w0 : World) (fire : bool) (w : World) : Prop :=
  youtube w = youtube w0
  ∧ ∃ added, table w "articles" = table w0 "articles" ++ added
             ∧ ∀ r, r ∈ added → r !! "is_fire" = Some (JBool fire).

(** [m] keeps the invariant [I], however it completes, and a value it
    returns satisfies [Q]. *)
Definition keeps {A} (I : World → Prop) (m : M A) (Q : A → Prop) : Prop :=
  ∀ w, I w → I (run pg m w).2 ∧ ∀ a, (run pg m w).1 = Normal a → Q a.

(** The platform returns at most [maxResults] comment threads. *)
Definition honours_max_results (w : World) : Prop :=
  ∀ videoId (n : Z) resp body l,
    youtube w (YtCommentThreads videoId (JNum n)) = Normal resp →
    json resp = Normal body →
    js_get body "items" = Normal (JArr l) →
    (length l ≤ Z.to_nat n)%nat.

(** A value that, if it is an array, has at most [n] elements. *)
Definition at_most (n : nat) (v : JsVal) : Prop :=
  ∀ l, v = JArr l → (length l ≤ n)%nat.

(** A platform for the examples: every search finds one video, and every
    video has three comment threads, of which [maxResults] are returned. *)
Definition js_obj (fields : list (string * JsVal)) : JsVal := JObj (obj fields).

Definition demo_video : JsVal :=
  js_obj [("id", js_obj [("videoId", JStr (utf16 "v1"))]);
          ("snippet",
            js_obj [("title", JStr (utf16 "Opening"));
                    ("description", JStr (utf16 "The new opening."));
                    ("thumbnails",
                      js_obj [("default",
                                js_obj [("url", JStr (utf16 "http://i/1"))])])])].

Definition demo_thread (author text : string) : JsVal :=
  js_obj [("snippet",
            js_obj [("topLevelComment",
                      js_obj [("snippet",
                                js_obj [("textDisplay", JStr (utf16 text));
                                        ("authorDisplayName",
                                          JStr (utf16 author))])])])].

Definition demo_threads : list JsVal :=
  [demo_thread "aki" "nice"; demo_thread "ben" "wow"; demo_thread "chie" "!"].

Definition demo_youtube (r : YtRequest) : Completion HttpResponse :=
  match r with
  | YtSearch _ _ =>
      Normal {| json := Normal (js_obj [("items", JArr [demo_video])]) |}
  | YtCommentThreads _ (JNum n) =>
      Normal {| json := Normal (js_obj [("items",
                                          JArr (take (Z.to_nat n)
                                                  demo_threads))]) |}
  | YtCommentThreads _ _ =>
      Normal {| json := Normal (js_obj [("error",
                                          js_obj [("message",
                                                    JStr (utf16 "bad request"))])]) |}
  end.

Definition demo_script_world : World :=
  {| tables := ∅;
     faults := [];
     youtube := demo_youtube;
     clock := [utf16 "2024-05-01T10:00:00.000Z"];
     dice := [1234; 99999];
     console := [] |}.

(** The effects that do not reach the store. *)
Definition quiet {X} (e : Eff X) : bool :=
  match e with
  | Await _ => false
  | _ => true
  end.

(** A comment list of [n] threads, for the examples. *)
Definition demo_comments (n : nat) : JsVal :=
  JArr (replicate n (demo_thread "aki" "nice")).

(** The value of [is_fire] in the rows of [articles]. *)
Definition fire_flags (w : World) : list (option JsVal) :=
  (λ r : Obj, r !! "is_fire") <$> table w "articles".

(** [demo_world] with a script of store failures. *)
Definition demo_faulty (script : list (option PgError)) : World :=
  set_store (tables demo_world) script demo_world.

Definition timeout_error : PgError :=
  {| pe_code := utf16 "57014"; pe_message := utf16 "statement timeout" |}.

(** The value of [comment_count] in the rows of [articles]. *)
Definition comment_counts (w : World) : list (option JsVal) :=
  (λ r : Obj, r !! "comment_count") <$> table w "articles".

(** [null] and [undefined]: the values whose properties cannot be read. *)
Definition nullish (v : JsVal) : bool :=
  match v with
  | JUndefined | JNull => true
  | _ => false
  end.

(** A completion that, if it throws, throws a value that is not nullish. *)
Definition throws_defined {A} (Q : A → Prop) (c : Completion A) : Prop :=
  match c with
  | Normal a => Q a
  | Throw e => nullish e = false
  end.

(** Whatever the effects answer, [m] returns a value satisfying [Q] or
    throws a value that is not nullish. *)
Definition safe {A} (Q : A → Prop) (m : M A) : Prop :=
  ∀ (W : Type) (h : ∀ X, Eff X → W → X * W) (w : W),
    throws_defined Q (run h m w).1.

(** The reply of [POST /api/user-preferences] to a body without
    [user_id]. *)
Definition preferences_rejected : Response :=
  res_status_json 400
    (obj [("success", JBool false);
          ("error", JStr (utf16 "user_id is required"))]).

(** The routes whose handler only reads. *)
Definition read_only (route : Route) : bool :=
  match route with
  | ArticleById | PostComment | PostPreferences => false
  | _ => true
  end.

(** The routes whose handler starts with a store query built from the
    request without any test, and checks its [error]; with the label its
    [catch] block prints. *)
Definition first_query_label (route : Route) : option string :=
  match route with
  | ListArticles => Some "Error fetching articles:"
  | TrendingArticles => Some "Error fetching trending articles:"
  | ArticleById => Some "Error fetching article:"
  | TrendingTags => Some "Error fetching trending tags:"
  | CategoryStats => Some "Error fetching category stats:"
  | _ => None
  end.

(** The reply of a handler to a store failure [e]. *)
Definition store_failure (e : PgError) : Response :=
  res_status_json 500
    (obj [("success", JBool false); ("error", JStr (pe_message e))]).

(** The rows a read [q] selects from [rows]: those passing the filters, in
    the order asked for, cut to the window. Nothing when the window cannot
    be read. *)
Definition selected (q : Query) (rows : list Obj) : option (list Obj) :=
  let hits := filter (λ r, matches_all (q_filters q) r = true) rows in
  window (q_offset q) (q_limit q)
    (match q_order q with
     | Some (c, asc) => sort_rows (comes_before c asc) hits
     | None => hits
     end).

(** [ORDER BY column DESC] does not put the row [b] before the row [a]. *)
Definition not_below (column : string) (a b : JsVal) : Prop :=
  ∀ r s, a = JObj r → b = JObj s →
         pg_compare (r !! column) (s !! column) ≠ Lt.

(** The rows of a reply are ranked by [column], greatest first: every row
    is [not_below] every row after it. *)
Definition ranked_by (column : string) (l : list JsVal) : Prop :=
  StronglySorted (not_below column) l.

(** The routes that answer with ranked rows: the table and the column. *)
Definition ranking (route : Route) : option (string * string) :=
  match route with
  | ListArticles | RecommendArticles => Some ("articles", "published_at")
  | TrendingArticles => Some ("articles", "reaction_count")
  | TrendingTags => Some ("tags", "count")
  | _ => None
  end.

(** The row [r] is flagged as trending. *)
Definition flagged_trending (r : Obj) : Prop :=
  ∃ v, r !! "is_trending" = Some v ∧ to_string v = utf16 "true".

(** The routes that list the trending rows of a table. *)
Definition trending_table (route : Route) : option string :=
  match route with
  | TrendingArticles => Some "articles"
  | TrendingTags => Some "tags"
  | _ => None
  end.

(** The routes that pass a row limit to the store, with the limit. *)
Definition row_limit (route : Route) (req : Request) : option JsVal :=
  match route with
  | TrendingArticles | TrendingTags =>
      Some (or_default (field (req_query req) "limit") (JNum 10))
  | RecommendArticles => Some (JNum 10)
  | RecommendProducts => Some (JNum 5)
  | _ => None
  end.

(** The routes that recommend rows of a table by category. *)
Definition recommended_table (route : Route) : option string :=
  match route with
  | RecommendArticles => Some "articles"
  | RecommendProducts => Some "products"
  | _ => None
  end.

(** The row [a] of a reply has a category whose text is that of a member
    of [l]. *)
Definition category_among (l : list JsVal) (a : JsVal) : Prop :=
  ∃ c, c ∈ l ∧ has_category a c.

(** The query a listing route awaits, as far as the statements below look
    at it. *)
Definition listing_query (route : Route) (req : Request) (q : Query)
  : Prop :=
  q_verb q = Some (Select "*") ∧ q_single q = false
  ∧ (∀ name column, ranking route = Some (name, column) →
       q_table q = name ∧ q_order q = Some (column, false))
  ∧ (∀ name, trending_table route = Some name →
       q_table q = name ∧ FEq "is_trending" (JBool true) ∈ q_filters q)
  ∧ (∀ limit, row_limit route req = Some limit → q_limit q = Some limit)
  ∧ (∀ name l, recommended_table route = Some name →
       req_body req !! "categories" = Some (JArr l) → l ≠ [] →
       q_table q = name ∧ FIn "category" l ∈ q_filters q).

(** The routes that answer with rows of one table. *)
Definition is_listing (route : Route) : bool :=
  match route with
  | ListArticles | TrendingArticles | TrendingTags
  | RecommendArticles | RecommendProducts => true
  | _ => false
  end.

(** The store after one run of the ingestion job on the demo platform:
    one article per keyword. *)
Definition demo_ingested : World := (run pg main demo_script_world).2.

(** The articles [GET /api/articles] pages through: those of the requested
    category (all of them for no category or for ['all']), newest first. *)
Definition category_filters (req : Request) : list Filter :=
  let category := field (req_query req) "category" in
  if truthy category && negb (strict_eq_str category (utf16 "all"))
  then [FEq "category" category]
  else [].

Definition listed_articles (req : Request) (w : World) : list Obj :=
  sort_rows (comes_before "published_at" false)
    (filter (λ r, matches_all (category_filters req) r = true)
       (table w "articles")).

(** The rows of [name] that refer to the article [id], newest first, as a
    reply carries them. *)
Definition related (name : string) (id : JsVal) (w : World) : list JsVal :=
  JObj <$> sort_rows (comes_before "created_at" false)
             (rows_where "article_id" id (table w name)).

(** The reply of [GET /api/articles/:id] for the stored row [article]. *)
Definition article_detail (article : Obj) (id : JsVal) (w : World)
  : Response :=
  res_json
    (obj [("success", JBool true);
          ("data",
            JObj (<["comments" := JArr (related "comments" id w)]>
                    (<["reactions" := JArr (related "reactions" id w)]>
                       article)))]).

(** The articles table after the view count of the rows with id [id] has been
    set to [n]. *)
Definition with_views (id : JsVal) (n : Z) (rows : list Obj) : list Obj :=
  (λ r, if pg_eq (r !! "id") id
        then <["view_count" := JNum n]> r else r) <$> rows.

(** A world with one article that has been viewed 41 times, and two comments
    on it. *)
Definition demo_viewed_world : World :=
  {| tables :=
       {[ "articles" :=
            [obj [("id", JStr (utf16 "a1")); ("view_count", JNum 41)];
             obj [("id", JStr (utf16 "a2")); ("view_count", JNum 7)]];
          "comments" :=
            [obj [("article_id", JStr (utf16 "a1"));
                  ("text", JStr (utf16 "first"));
                  ("created_at", JStr (utf16 "2024-04-01T08:00:00.000Z"))];
             obj [("article_id", JStr (utf16 "a1"));
                  ("text", JStr (utf16 "second"));
                  ("created_at", JStr (utf16 "2024-04-02T08:00:00.000Z"))]] ]};
     faults := [];
     youtube := λ _, Throw (type_error "fetch failed");
     clock := [];
     dice := [];
     console := [] |}.

(** The reply of the two preference routes carrying [v]. *)
Definition preferences_reply (v : JsVal) : Response :=
  res_json (obj [("success", JBool true); ("data", v)]).

(** The record a lookup with [.single()] finds among [rows]: the only one,
    and [null] when there is none or more than one. *)
Definition only_record (rows : list Obj) : JsVal :=
  match rows with
  | [r] => JObj r
  | _ => JNull
  end.

(** The lookup [POST /api/user-preferences] starts with comes back without
    a record: the store answers and the user has no record, or more than
    one; or the store fails on the lookup, and answers afterwards. *)
Definition lookup_misses (user_id : JsVal) (w : World) : Prop :=
  (healthy w ∧ length (prefs_of user_id w) ≠ 1%nat)
  ∨ ∃ e, faults w = [Some e].

(** The property key [GET /api/stats/categories] counts the row [r]
    under: its category as text, so ["undefined"] for a row that has none
    and ["null"] for a [null] one. *)
Definition category_key (r : Obj) : string :=
  utf8 (to_string (field r "category")).

(** The number of [rows] counted under [k]. *)
Definition tally (rows : list Obj) (k : string) : nat :=
  length (filter (λ r, category_key r = k) rows).

(** An accumulator of the tally: every property is a positive number. *)
Definition is_tally (acc : Obj) : Prop :=
  ∀ k v, acc !! k = Some v → ∃ n, v = JNum n ∧ 0 < n.

Definition count_at (acc : Obj) (k : string) : Z :=
  match acc !! k with
  | Some (JNum n) => n
  | _ => 0
  end.

(** The reply of [GET /api/stats/categories] carrying [stats]. *)
Definition stats_reply (stats : Obj) : Response :=
  res_json (obj [("success", JBool true); ("data", JObj stats)]).

(** The record the article synthesizer builds for [comments] and
    [category], as far as it does not depend on the video: the trending flag
    is set, the category and the comment count are the ones given, the two
    placeholder counters are in their ranges, and the title carries the
    marker. *)
Definition synthesized (comments category : JsVal) (r : Obj) : Prop :=
  r !! "is_trending" = Some (JBool true)
  ∧ field r "category" = category
  ∧ js_get comments "length" = Normal (field r "comment_count")
  ∧ (∃ x, r !! "reaction_count" = Some (JNum x) ∧ 500 ≤ x < 1500)
  ∧ (∃ y, r !! "view_count" = Some (JNum y) ∧ 1000 ≤ y < 11000)
  ∧ (∃ t, r !! "title" = Some (JStr (utf16 "【話題】" ++ t))).

(** A row the ingestion job writes. *)
Definition ingested_row (r : Obj) : Prop :=
  ∃ comments category,
    category ∈ keywords.*2 ∧ synthesized comments (JStr category) r.

(** From [w0] to [w], only rows satisfying [P] were appended to [articles],
    no other table changed, and the platform answers the same. *)
Definition appended (w0 : World) (P : Obj → Prop) (w : World) : Prop :=
  youtube w = youtube w0
  ∧ (∀ name, name ≠ "articles" → table w name = table w0 name)
  ∧ ∃ added, table w "articles" = table w0 "articles" ++ added
             ∧ ∀ r, r ∈ added → P r.

(** The platform cannot be used: every request fails. *)
Definition unreachable (w : World) : Prop :=
  ∀ r, call_failed (youtube w r).

(** [m] returns, with a value satisfying [Q], from every world satisfying
    [I], and keeps [I]. *)
Definition ends {A} (I : World → Prop) (m : M A) (Q : A → Prop) : Prop :=
  ∀ w, I w → ∃ a, (run pg m w).1 = Normal a ∧ Q a ∧ I (run pg m w).2.

(** The tables are [T] and the platform cannot be used. *)
Definition cut_off (T : gmap string (list Obj)) (w : World) : Prop :=
  tables w = T ∧ unreachable w.

(** The store fails on the read of the reactions or of the comments of an
    article, after the article itself has been read. *)
Definition related_read_fails (e : PgError) (w : World) : Prop :=
  ∃ rest, faults w = None :: Some e :: rest
          ∨ faults w = None :: None :: Some e :: rest.



(** The ten newest articles: all the recommendation route asks the store
    for when the request names no category. *)
Definition ten_newest (w : World) : list Obj :=
  take 10 (sort_rows (comes_before "published_at" false) (table w "articles")).

(** The integers on which the arithmetic of the program is the arithmetic of
    the integers: those [Number.isSafeInteger] accepts. From 2^53 on a sum
    is rounded, and [2^53 + 1] is [2^53]. *)
Definition safe_integer (n : Z) : Prop := - 2 ^ 53 < n < 2 ^ 53.

(** A text of decimal digits, at least one, and the number it writes. *)
Definition decimal (s : jsstring) : Prop :=
  s ≠ [] ∧ Forall (λ c, 48 ≤ c ≤ 57)%N s.

Definition decimal_value (s : jsstring) : Z :=
  fold_left (λ a c, 10 * a + Z.of_N (c - 48)) s 0.

(** The text of a parameter of the query string that the handler
    destructures with a numeric default: the text the request carries, and
    the digits of the default when it carries none. *)
Definition query_text (req : Request) (name : string) (dflt : Z)
  (s : jsstring) : Prop :=
  match req_query req !! name with
  | None => s = to_string (JNum dflt)
  | Some (JStr t) => s = t
  | Some _ => False
  end.

(** A video item as the platform lists it: an object with an [id] object
    and a [snippet] object, whose title and video id can be written into a
    text, whose description is a string, and which has thumbnails. *)
Definition usable_video (video : JsVal) : Prop :=
  ∃ (v id snippet thumbnails : Obj) (description : jsstring),
    video = JObj v
    ∧ v !! "id" = Some (JObj id)
    ∧ v !! "snippet" = Some (JObj snippet)
    ∧ (∃ link, to_text (field id "videoId") = Normal link)
    ∧ (∃ title, to_text (field snippet "title") = Normal title)
    ∧ snippet !! "description" = Some (JStr description)
    ∧ snippet !! "thumbnails" = Some (JObj thumbnails).

(** A comment thread as the platform lists it: its top-level comment has a
    snippet, whose author and text can be written into a text. *)
Definition usable_thread (comment : JsVal) : Prop :=
  ∃ (c outer top inner : Obj),
    comment = JObj c
    ∧ c !! "snippet" = Some (JObj outer)
    ∧ outer !! "topLevelComment" = Some (JObj top)
    ∧ top !! "snippet" = Some (JObj inner)
    ∧ (∃ author, to_text (field inner "authorDisplayName") = Normal author)
    ∧ (∃ text, to_text (field inner "textDisplay") = Normal text).

(* ===================================================================== *)
(** ** Running programs: the equations of [run] *)
(* ===================================================================== *)

Section RunFacts.
Context {W : Type} (h : ∀ X, Eff X → W → X * W).

Lemma run_prog_bind {A B} (p : Prog A) (f : A → Prog B) (w : W) :
  run h (prog_bind p f) w
  = let '(a, w') := run h p w in run h (f a) w'.
Proof.
  revert w. induction p as [a | X e k IH]; intros w; simpl; [done |].
  destruct (h X e w) as [x w']. apply IH.
Qed.

Lemma run_bind {A B} (m : M A) (f : A → M B) (w : W) :
  run h (m ≫= f) w
  = match run h m w with
    | (Normal a, w') => run h (f a) w'
    | (Throw e, w') => (Throw e, w')
    end.
Proof.
  unfold mbind, M_bind, bind. rewrite run_prog_bind.
  destruct (run h m w) as [[a | e] w']; done.
Qed.

Lemma run_try_catch {A} (body : M A) (handler : JsVal → M A) (w : W) :
  run h (try_catch body handler) w
  = match run h body w with
    | (Normal a, w') => (Normal a, w')
    | (Throw e, w') => run h (handler e) w'
    end.
Proof.
  unfold try_catch. rewrite run_prog_bind.
  destruct (run h body w) as [[a | e] w']; done.
Qed.

Lemma run_perform {X} (e : Eff X) (w : W) :
  run h (perform e) w = let '(x, w') := h X e w in (Normal x, w').
Proof. done. Qed.

Lemma run_ret {A} (a : A) (w : W) : run h (ret a) w = (Normal a, w).
Proof. done. Qed.

Lemma run_throw {A} (e : JsVal) (w : W) :
  run h (throw e : M A) w = (Throw e, w).
Proof. done. Qed.

Lemma run_lift {A} (c : Completion A) (w : W) : run h (lift c) w = (c, w).
Proof. done. Qed.

Lemma run_await (q : Query) (w : W) :
  run h (await q) w = let '(r, w') := h Reply (Await q) w in (Normal r, w').
Proof. done. Qed.
End RunFacts.

(** One statement of a program: rewrite [run] through it. *)
Ltac step :=
  first [ rewrite run_bind | rewrite run_try_catch | rewrite run_await
        | rewrite run_perform | rewrite run_ret | rewrite run_throw
        | rewrite run_lift ].
Ltac steps := repeat step.

(** Reduce the pattern matches on pairs and completions that [step] leaves,
    without unfolding the program. *)
Ltac tidy := cbv beta iota; cbn [fst snd].

(** Run a straight-line program to its end on the reference store. *)
Ltac walk := repeat first [step | progress tidy | progress cbn [pg json]].

(* ===================================================================== *)
(** ** Facts about values and objects *)
(* ===================================================================== *)

(** The two defaults of the comment handler, as code units: U+533F U+540D,
    and the surrogate pair of U+1F60A. *)
Example default_name_and_avatar_units :
  utf16 "匿名" = [21311; 21517]%N ∧ utf16 "😊" = [55357; 56842]%N.
Proof. vm_compute. done. Qed.

Lemma field_lookup (o : Obj) (key : string) (v : JsVal) :
  o !! key = Some v → field o key = v.
Proof. unfold field. by intros ->. Qed.

Lemma field_missing (o : Obj) (key : string) :
  o !! key = None → field o key = JUndefined.
Proof. unfold field. by intros ->. Qed.

Lemma js_or_undefined (v : JsVal) : js_or JUndefined v = v.
Proof. done. Qed.

Lemma truthy_defined (v : JsVal) : truthy v = true → is_undefined v = false.
Proof. by destruct v. Qed.

Lemma same_value_zero_refl (v : JsVal) :
  is_scalar v = true → same_value_zero v v = true.
Proof.
  destruct v as [| | b | n | | s | |]; simpl; try done; intros _.
  - by apply bool_decide_eq_true.
  - by apply Z.eqb_eq.
  - by apply bool_decide_eq_true.
Qed.

Lemma in_viewed_scalar (l : list JsVal) (id : JsVal) :
  is_scalar id = true → id ∈ l → in_viewed l id.
Proof. intros Hs Hin. exists id. eauto using same_value_zero_refl. Qed.

Lemma existsb_in_viewed (l : list JsVal) (id : JsVal) :
  existsb (λ y, same_value_zero y id) l = false → ¬ in_viewed l id.
Proof.
  intros Hex (y & Hy & Heq).
  assert (existsb (λ y, same_value_zero y id) l = true) as Ht.
  { apply existsb_exists. exists y. split; [by apply list_elem_of_In | done]. }
  congruence.
Qed.

(* ===================================================================== *)
(** ** POST /api/comments: validation *)
(* ===================================================================== *)

(** C2. A [POST /api/comments] whose body has no [text] field is answered
    with status 400 and performs no effect at all: whatever the
    interpretation of the effects, the world after the request is the world
    before it, so no comment is inserted and no article is updated. *)
Theorem comment_without_text_rejected
  (W : Type) (h : ∀ X, Eff X → W → X * W) (w : W) (req : Request) :
  req_body req !! "text" = None →
  run h (post_api_comments req) w = (Normal comment_rejected, w)
  ∧ status comment_rejected = 400.
Proof.
  intros Htext. split; [| done].
  unfold post_api_comments. step.
  rewrite (field_missing _ "text" Htext). simpl truthy.
  by rewrite orb_true_r.
Qed.

Lemma comment_without_text_rejected_witness :
  req_body (request [] [("article_id", JStr (utf16 "a1"))]) !! "text" = None
  ∧ run pg (post_api_comments
              (request [] [("article_id", JStr (utf16 "a1"))])) demo_world
    = (Normal comment_rejected, demo_world).
Proof.
  assert (req_body (request [] [("article_id", JStr (utf16 "a1"))]) !! "text"
          = None) as Hno by (vm_compute; reflexivity).
  split; [exact Hno |].
  exact (proj1 (comment_without_text_rejected World pg demo_world _ Hno)).
Defined.

(* ===================================================================== *)
(** ** POST /api/recommendations/articles *)
(* ===================================================================== *)

Lemma filter_with_kept (cb : JsVal → Completion bool) (l kept : list JsVal) :
  filter_with cb l = Normal kept →
  ∀ a, a ∈ kept → a ∈ l ∧ cb a = Normal true.
Proof.
  revert kept. induction l as [| x rest IH]; intros kept; simpl.
  - intros [= <-] a Ha. by apply elem_of_nil in Ha.
  - destruct (cb x) as [keep | e] eqn:Hx; simpl; [| done].
    destruct (filter_with cb rest) as [kept' | e]; simpl; [| done].
    intros [= <-] a Ha.
    assert (a ∈ kept' → a ∈ x :: rest ∧ cb a = Normal true) as Hrest.
    { intros Hk. destruct (IH kept' eq_refl a Hk).
      rewrite elem_of_cons. auto. }
    destruct keep; [| auto].
    apply elem_of_cons in Ha as [-> | Ha]; [| auto].
    rewrite elem_of_cons. auto.
Qed.

Lemma respond_500_no_data {W} (h : ∀ X, Eff X → W → X * W)
  (label : string) (err : JsVal) (w : W) :
  reply_data (run h (respond_500 label err) w).1 = [].
Proof.
  unfold respond_500. steps.
  destruct (h _ (ConsoleError (utf16 label) err) w) as [[] w1]. tidy.
  destruct (js_get err "message") as [m | e]; tidy; [| done].
  step. by vm_compute.
Qed.

(** C3. In the reply of [POST /api/recommendations/articles] to a body whose
    [viewed_articles] is an array (empty or not), every article of [data]
    has an [id] that is not a member of that array: the array method
    [includes] finds no element of it equal to the id, and an id that is a
    string, a number, a boolean or [null] does not occur in it. This holds
    whatever the store replies. *)
Theorem recommendations_exclude_viewed
  (W : Type) (h : ∀ X, Eff X → W → X * W) (w : W) (req : Request)
  (viewed : list JsVal) (a : JsVal) :
  req_body req !! "viewed_articles" = Some (JArr viewed) →
  a ∈ reply_data (run h (post_api_recommendations_articles req) w).1 →
  ∃ id, js_get a "id" = Normal id
        ∧ ¬ in_viewed viewed id
        ∧ (is_scalar id = true → id ∉ viewed).
Proof.
  intros Hviewed. unfold post_api_recommendations_articles.
  rewrite (field_lookup _ "viewed_articles" _ Hviewed). simpl or_default.
  assert (∀ label e w', a ∈ reply_data (run h (respond_500 label e) w').1
                        → ∃ id, js_get a "id" = Normal id
                                ∧ ¬ in_viewed viewed id
                                ∧ (is_scalar id = true → id ∉ viewed)) as H500.
  { intros label e w'. rewrite respond_500_no_data. by intros ?%elem_of_nil. }
  rewrite run_try_catch, run_bind.
  match goal with
  | |- context [run h ?builder w] =>
      destruct (run h builder w) as [[query | e] w1]
  end; tidy; [| apply H500].
  rewrite run_bind, run_await.
  destruct (h Reply (Await query) w1) as [r w2]. tidy.
  destruct (truthy (error r)).
  { rewrite run_throw. apply H500. }
  rewrite run_bind, run_lift.
  destruct (js_filter (data r) _) as [filtered | e] eqn:Hfilter;
    tidy; [| apply H500].
  rewrite run_ret. tidy. unfold reply_data, res_json, payload.
  replace (obj [("success", JBool true); ("data", filtered)] !! "data")
    with (Some filtered) by (symmetry; by vm_compute).
  destruct (data r) as [| | | | | | rows |]; simpl in Hfilter; try done.
  destruct (filter_with _ rows) as [kept | e] eqn:Hkept; simpl in Hfilter;
    [| done].
  injection Hfilter as <-. intros Ha.
  destruct (filter_with_kept _ _ _ Hkept a Ha) as [_ Hcb].
  cbn [js_includes mbind Completion_bind] in Hcb.
  destruct (js_get a "id") as [id | e]; simpl in Hcb; [| done].
  exists id. split; [done |].
  destruct (existsb (λ y, same_value_zero y id) viewed) eqn:Hex;
    simpl in Hcb; [done |].
  split; [by apply existsb_in_viewed |].
  intros Hs Hin. by apply (existsb_in_viewed _ _ Hex), in_viewed_scalar.
Qed.

Lemma recommendations_exclude_viewed_witness :
  let req := request [] [("viewed_articles", JArr [JStr (utf16 "a1")])] in
  req_body req !! "viewed_articles" = Some (JArr [JStr (utf16 "a1")])
  ∧ demo_article_a3
      ∈ reply_data
          (run pg (post_api_recommendations_articles req) demo_world).1
  ∧ ∃ id, js_get demo_article_a3 "id" = Normal id
          ∧ ¬ in_viewed [JStr (utf16 "a1")] id
          ∧ (is_scalar id = true → id ∉ [JStr (utf16 "a1")]).
Proof.
  intros req.
  assert (req_body req !! "viewed_articles"
          = Some (JArr [JStr (utf16 "a1")])) as H1
    by (vm_compute; reflexivity).
  assert (demo_article_a3
            ∈ reply_data
                (run pg (post_api_recommendations_articles req) demo_world).1)
    as H2 by (vm_compute; apply list_elem_of_here).
  split; [exact H1 |]. split; [exact H2 |].
  exact (recommendations_exclude_viewed World pg demo_world req _ _ H1 H2).
Defined.

(* ===================================================================== *)
(** ** The reference store: reads *)
(* ===================================================================== *)

Lemma insert_sorted_elem (before : Obj → Obj → bool) (r x : Obj)
  (sorted : list Obj) :
  x ∈ insert_sorted before r sorted ↔ x = r ∨ x ∈ sorted.
Proof.
  induction sorted as [| s rest IH]; simpl.
  - rewrite list_elem_of_singleton, elem_of_nil. tauto.
  - destruct (before r s); rewrite !elem_of_cons; [tauto |].
    rewrite IH. tauto.
Qed.

Lemma sort_rows_elem (before : Obj → Obj → bool) (rows : list Obj) (x : Obj) :
  x ∈ sort_rows before rows ↔ x ∈ rows.
Proof.
  unfold sort_rows. induction rows as [| r rest IH]; simpl; [done |].
  rewrite insert_sorted_elem, elem_of_cons, IH. tauto.
Qed.

Lemma window_subset (offset limit : option JsVal) (rows page : list Obj) :
  window offset limit rows = Some page → page ⊆ rows.
Proof.
  unfold window. intros Hw.
  destruct offset as [o |]; simpl in Hw.
  - destruct (as_count o) as [n |]; simpl in Hw; [| done].
    destruct limit as [l |]; simpl in Hw.
    + destruct (as_count l) as [m |]; simpl in Hw; [| done].
      injection Hw as <-.
      etrans; [apply subseteq_take | apply subseteq_drop].
    + injection Hw as <-. apply subseteq_drop.
  - destruct limit as [l |]; simpl in Hw.
    + destruct (as_count l) as [m |]; simpl in Hw; [| done].
      injection Hw as <-. apply subseteq_take.
    + by injection Hw as <-.
Qed.

Lemma project_all (rows : list Obj) : project "*" <$> rows = rows.
Proof.
  induction rows as [| r rows IH]; [done |].
  rewrite fmap_cons, IH. done.
Qed.

(** A [select('*')] without [.single()]: either the store reports an error,
    or [data] is an array of rows of the table, each passing every filter.
    The table is left as it was. *)
Lemma exec_select_all (q : Query) (rows : list Obj) :
  q_verb q = Some (Select "*") → q_single q = false →
  ∃ reply, exec q rows = (reply, None)
    ∧ ((truthy (error reply) = true ∧ data reply = JNull)
       ∨ (error reply = JNull
          ∧ ∃ page, data reply = JArr (JObj <$> page)
                    ∧ ∀ r, r ∈ page →
                           r ∈ rows ∧ matches_all (q_filters q) r = true)).
Proof.
  intros Hverb Hsingle. unfold exec. rewrite Hverb.
  set (hits := filter (λ r, matches_all (q_filters q) r = true) rows).
  set (sorted := match q_order q with
                 | Some (c, asc) => sort_rows (comes_before c asc) hits
                 | None => hits
                 end).
  destruct (window (q_offset q) (q_limit q) sorted) as [page |] eqn:Hwin.
  - eexists. split; [done |]. right. unfold shape. rewrite Hsingle.
    split; [done |]. exists page. split.
    + by rewrite project_all.
    + intros r Hr. apply (window_subset _ _ _ _ Hwin) in Hr.
      assert (r ∈ hits) as Hhit.
      { unfold sorted in Hr. destruct (q_order q) as [[c asc] |]; [| done].
        by apply sort_rows_elem in Hr. }
      apply list_elem_of_filter in Hhit. tauto.
  - eexists. split; [done |]. left. done.
Qed.

Lemma pg_await_select_all (q : Query) (w : World) :
  q_verb q = Some (Select "*") → q_single q = false →
  ∃ reply, pg_await q w = (reply, after_read w)
    ∧ ((truthy (error reply) = true ∧ data reply = JNull)
       ∨ (error reply = JNull
          ∧ ∃ page, data reply = JArr (JObj <$> page)
                    ∧ ∀ r, r ∈ page →
                           r ∈ table w (q_table q)
                           ∧ matches_all (q_filters q) r = true)).
Proof.
  intros Hverb Hsingle. unfold pg_await, after_read.
  destruct (exec_select_all q (table w (q_table q)) Hverb Hsingle)
    as (reply & Hexec & Hreply).
  destruct (faults w) as [| [e |] rest] eqn:Hfaults.
  - rewrite Hexec. eauto.
  - exists (failed e). split; [done |]. left. done.
  - rewrite Hexec. eauto.
Qed.

Lemma pg_eq_text (stored : option JsVal) (v : JsVal) :
  pg_eq stored v = true →
  ∃ x, stored = Some x ∧ to_string x = to_string v.
Proof.
  unfold pg_eq, jsstring_eqb.
  destruct stored as [x |]; [| done].
  destruct x; try done; intros H%bool_decide_eq_true; eauto.
Qed.

(* ===================================================================== *)
(** ** GET /api/articles *)
(* ===================================================================== *)

(** C5. In the reply of [GET /api/articles] to a request that carries a
    category filter, a [category] parameter that is not empty and is not
    ['all'], the word the handler reads as no filter, every article of
    [data] has a [category] field whose text is that parameter. *)
Theorem listed_articles_match_category
  (w : World) (req : Request) (category a : JsVal) :
  req_query req !! "category" = Some category →
  truthy category = true →
  strict_eq_str category (utf16 "all") = false →
  a ∈ reply_data (run pg (get_api_articles req) w).1 →
  has_category a category.
Proof.
  intros Hcat Htruthy Hall. unfold get_api_articles.
  rewrite (field_lookup _ "category" _ Hcat), Htruthy, Hall.
  cbn [andb negb].
  rewrite run_try_catch, run_bind, run_await. cbn [pg].
  match goal with
  | |- context [pg_await ?q w] =>
      destruct (pg_await_select_all q w eq_refl eq_refl)
        as (reply & -> & [[Herr _] | (Herr & page & Hdata & Hpage)])
  end; tidy.
  - rewrite Herr, run_throw. tidy. rewrite respond_500_no_data.
    by intros ?%elem_of_nil.
  - rewrite Herr. cbn [truthy]. rewrite run_ret. tidy.
    unfold reply_data, res_json, payload.
    replace (obj [("success", JBool true); ("data", data reply)] !! "data")
      with (Some (data reply)) by (symmetry; by vm_compute).
    rewrite Hdata. intros (r & -> & Hr)%list_elem_of_fmap.
    destruct (Hpage r Hr) as [_ Hmatch].
    cbn in Hmatch. rewrite andb_true_r in Hmatch.
    destruct (pg_eq_text _ _ Hmatch) as (v & Hv & Htext).
    by exists r, v.
Qed.

Lemma listed_articles_match_category_witness :
  let req := request [("category", JStr (utf16 "anime"))] [] in
  req_query req !! "category" = Some (JStr (utf16 "anime"))
  ∧ demo_article_a3 ∈ reply_data (run pg (get_api_articles req) demo_world).1
  ∧ has_category demo_article_a3 (JStr (utf16 "anime")).
Proof.
  intros req.
  assert (req_query req !! "category" = Some (JStr (utf16 "anime"))) as H1
    by (vm_compute; reflexivity).
  assert (demo_article_a3
            ∈ reply_data (run pg (get_api_articles req) demo_world).1) as H2
    by (vm_compute; apply list_elem_of_here).
  split; [exact H1 |]. split; [exact H2 |].
  refine (listed_articles_match_category demo_world req _ _ H1 _ _ H2);
    vm_compute; reflexivity.
Defined.

(** [all] is the handler's own word for no category filter: the reply to
    [category=all] lists the articles of every category, here one of
    category [anime]. *)
Lemma category_all_lists_other_categories :
  let req := request [("category", JStr (utf16 "all"))] [] in
  req_query req !! "category" = Some (JStr (utf16 "all"))
  ∧ demo_article_a3 ∈ reply_data (run pg (get_api_articles req) demo_world).1
  ∧ ¬ has_category demo_article_a3 (JStr (utf16 "all")).
Proof.
  intros req. split; [by vm_compute |]. split.
  - vm_compute. apply list_elem_of_here.
  - intros (r & v & Heq & Hv & Htext). injection Heq as <-.
    vm_compute in Hv. injection Hv as <-. vm_compute in Htext. done.
Qed.

(* ===================================================================== *)
(** ** The reference store: writes *)
(* ===================================================================== *)

Lemma pg_await_unfold (q : Query) (w : World) :
  pg_await q w
  = match faults w with
    | Some e :: _ => (failed e, after_read w)
    | _ =>
        match exec q (table w (q_table q)) with
        | (reply, Some rows) => (reply, after_write (q_table q) rows w)
        | (reply, None) => (reply, after_read w)
        end
    end.
Proof.
  unfold pg_await, after_read, after_write.
  destruct (faults w) as [| [e |] rest]; done.
Qed.

Lemma pg_await_healthy (q : Query) (w : World) :
  healthy w →
  pg_await q w
  = match exec q (table w (q_table q)) with
    | (reply, Some rows) => (reply, after_write (q_table q) rows w)
    | (reply, None) => (reply, after_read w)
    end.
Proof. intros Hw. rewrite pg_await_unfold, Hw. done. Qed.

Lemma healthy_after_read (w : World) : healthy w → healthy (after_read w).
Proof. unfold healthy. simpl. by intros ->. Qed.

Lemma healthy_after_write (name : string) (rows : list Obj) (w : World) :
  healthy w → healthy (after_write name rows w).
Proof. unfold healthy. simpl. by intros ->. Qed.

Lemma table_after_read (w : World) (name : string) :
  table (after_read w) name = table w name.
Proof. done. Qed.

Lemma table_after_write (name : string) (rows : list Obj) (w : World) :
  table (after_write name rows w) name = rows.
Proof. unfold table. simpl. by rewrite lookup_insert_eq. Qed.

Lemma table_after_write_other (name other : string) (rows : list Obj)
  (w : World) :
  name ≠ other → table (after_write name rows w) other = table w other.
Proof. intros Hne. unfold table. simpl. by rewrite lookup_insert_ne. Qed.

Lemma exec_insert_returning (name : string) (new rows : list Obj) :
  exec (supabase.from name ▸ supabase.insert new ▸ supabase.select "*") rows
  = (ok (JArr (JObj <$> new)), Some (rows ++ new)).
Proof. done. Qed.

Lemma exec_select_single (name columns key : string) (value : JsVal)
  (rows : list Obj) :
  exec (supabase.from name ▸ supabase.select columns
          ▸ supabase.eq key value ▸ supabase.single) rows
  = (match project columns <$> rows_where key value rows with
     | [r] => ok (JObj r)
     | _ => failed PGRST116
     end, None).
Proof. done. Qed.

Lemma exec_update (name key : string) (patch : Obj) (value : JsVal)
  (rows : list Obj) :
  exec (supabase.from name ▸ supabase.update patch ▸ supabase.eq key value)
    rows
  = (ok JNull, Some (patch_row [FEq key value] patch <$> rows)).
Proof. done. Qed.

Lemma exec_update_returning (name key : string) (patch : Obj) (value : JsVal)
  (rows : list Obj) :
  exec (supabase.from name ▸ supabase.update patch ▸ supabase.eq key value
          ▸ supabase.select "*") rows
  = (ok (JArr (JObj <$> (patch_row [FEq key value] patch
                           <$> rows_where key value rows))),
     Some (patch_row [FEq key value] patch <$> rows)).
Proof. done. Qed.

Lemma sent_nil : sent (obj []) = ∅.
Proof. apply map_filter_empty. Qed.

Lemma sent_cons_defined (key : string) (v : JsVal)
  (fields : list (string * JsVal)) :
  is_undefined v = false →
  sent (obj ((key, v) :: fields)) = <[key := v]> (sent (obj fields)).
Proof. intros Hv. unfold sent, obj. simpl. by rewrite map_filter_insert_True. Qed.

Lemma patch_row_singleton (key column : string) (value v : JsVal) (r : Obj) :
  patch_row [FEq key value] {[ column := v ]} r
  = if pg_eq (r !! key) value then <[column := v]> r else r.
Proof.
  unfold patch_row, matches_all. simpl. rewrite andb_true_r.
  destruct (pg_eq (r !! key) value); [| done].
  by rewrite insert_union_singleton_l.
Qed.

(* ===================================================================== *)
(** ** POST /api/comments on the reference store *)
(* ===================================================================== *)

(** The whole run of a valid comment post when no store failure is
    scripted: a row in [comments], then the read and the write of the
    article's count. *)
Lemma post_comment_healthy (w : World) (req : Request) :
  truthy (field (req_body req) "article_id") = true →
  truthy (field (req_body req) "text") = true →
  healthy w →
  ∃ resp w',
    run pg (post_api_comments req) w = (Normal resp, w')
    ∧ status resp = 200
    ∧ healthy w'
    ∧ table w' "comments" = table w "comments" ++ [comment_row (req_body req)]
    ∧ table w' "articles"
      = patch_row [FEq "id" (field (req_body req) "article_id")]
          (count_patch
             (single_row "comment_count" "id"
                (field (req_body req) "article_id") (table w "articles")))
          <$> table w "articles".
Proof.
  intros Hid Htext Hw. unfold post_api_comments.
  rewrite Hid, Htext. cbn [negb orb].
  rewrite run_try_catch, run_bind, run_await. cbn [pg].
  rewrite (pg_await_healthy _ _ Hw), exec_insert_returning. tidy.
  set (w1 := after_write _ _ w).
  assert (healthy w1) as Hw1 by by apply healthy_after_write.
  cbn [error ok truthy].
  rewrite run_bind, run_await. cbn [pg].
  rewrite (pg_await_healthy _ _ Hw1), exec_select_single. tidy.
  set (w2 := after_read w1).
  assert (healthy w2) as Hw2 by by apply healthy_after_read.
  rewrite run_bind, run_await. cbn [pg].
  rewrite (pg_await_healthy _ _ Hw2), exec_update. tidy.
  rewrite run_bind, run_lift. cbn [data ok js_first fmap list_fmap head default].
  tidy. rewrite run_ret. tidy.
  eexists _, _. split; [reflexivity |]. split; [done |].
  split; [by apply healthy_after_write |].
  cbn [q_table supabase.select supabase.insert supabase.from supabase.update
       supabase.eq supabase.single supabase.with_filter
       supabase.with_verb supabase.with_returning q_verb].
  split.
  - rewrite table_after_write_other by done.
    unfold w2. rewrite table_after_read. unfold w1.
    by rewrite table_after_write.
  - rewrite table_after_write. unfold w2. rewrite table_after_read.
    unfold w1. rewrite table_after_write_other by done. done.
Qed.

Lemma project_lookup (column : string) (r : Obj) :
  column ≠ "*" → project column r !! column = r !! column.
Proof.
  intros Hne. unfold project. rewrite bool_decide_eq_false_2 by done.
  rewrite map_lookup_filter. destruct (r !! column) as [v |]; [| done].
  simpl. by rewrite option_guard_True.
Qed.

Lemma count_patch_prior (a : Obj) (n : Z) :
  prior_count a = Some n →
  count_patch (JObj (project "comment_count" a))
  = {[ "comment_count" := JNum (n + 1) ]}.
Proof.
  unfold prior_count, count_patch. intros Hn.
  cbn [js_get_opt js_get].
  rewrite project_lookup by done.
  assert (js_add (js_or (default JUndefined (a !! "comment_count")) (JNum 0))
            (JNum 1) = JNum (n + 1)) as ->.
  { destruct (a !! "comment_count") as [[| | | k | | | |] |];
      simplify_eq; try done.
    unfold js_or. cbn.
    destruct (Z.eqb_spec n 0) as [-> | _]; done. }
  rewrite sent_cons_defined, sent_nil by done. done.
Qed.

Lemma rows_where_with_count (article_id : JsVal) (n : Z) (rows : list Obj) :
  rows_where "id" article_id (with_count article_id n rows)
  = (λ r, <["comment_count" := JNum n]> r) <$> rows_where "id" article_id rows.
Proof.
  unfold rows_where, with_count, matches_all.
  induction rows as [| r rows IH]; [done |].
  rewrite fmap_cons, !filter_cons, IH. cbn [forallb matches].
  destruct (pg_eq (r !! "id") article_id) eqn:Hr.
  - rewrite lookup_insert_ne by done. rewrite Hr. cbn [andb].
    rewrite !decide_True by done. done.
  - rewrite Hr. cbn [andb]. rewrite !decide_False by done. done.
Qed.

(** C1. A [POST /api/comments] with a truthy (so non-empty) [article_id] and
    [text], with no store failure scripted and no other writer, leaves the
    article of that id with a [comment_count] equal to the count it had
    plus 1, a missing or [null] count being read as 0 and the count being a
    safe integer, so that [+ 1] is exact; every other article is left as it
    was. *)
Theorem comment_increments_count
  (w : World) (req : Request) (article_id text : JsVal) (a : Obj) (n : Z) :
  req_body req !! "article_id" = Some article_id →
  truthy article_id = true →
  req_body req !! "text" = Some text →
  truthy text = true →
  healthy w →
  rows_where "id" article_id (table w "articles") = [a] →
  prior_count a = Some n →
  safe_integer n →
  let w' := (run pg (post_api_comments req) w).2 in
  rows_where "id" article_id (table w' "articles")
  = [<["comment_count" := JNum (n + 1)]> a]
  ∧ table w' "articles" = with_count article_id (n + 1) (table w "articles").
Proof.
  intros Hid Hidt Htext Htextt Hw Ha Hn _ w'.
  apply field_lookup in Hid, Htext.
  destruct (post_comment_healthy w req) as (resp & w1 & Hrun & _ & _ & _ & Harts);
    [by rewrite Hid | by rewrite Htext | done |].
  subst w'. rewrite Hrun. cbn [snd].
  assert (table w1 "articles"
          = with_count article_id (n + 1) (table w "articles")) as ->.
  { rewrite Harts, Hid. unfold single_row. rewrite Ha.
    cbn [fmap list_fmap data ok]. rewrite (count_patch_prior _ _ Hn).
    unfold with_count. apply list_fmap_ext. intros _ r _.
    apply patch_row_singleton. }
  split; [| done].
  by rewrite rows_where_with_count, Ha.
Qed.

Lemma comment_increments_count_witness :
  let req := request [] [("article_id", JStr (utf16 "a1"));
                         ("text", JStr (utf16 "hi"))] in
  let a := obj [("id", JStr (utf16 "a1")); ("category", JStr (utf16 "anime"));
                ("comment_count", JNum 7);
                ("published_at", JStr (utf16 "2024-01-01T00:00:00.000Z"))] in
  let w' := (run pg (post_api_comments req) demo_world).2 in
  rows_where "id" (JStr (utf16 "a1")) (table demo_world "articles") = [a]
  ∧ prior_count a = Some 7
  ∧ safe_integer 7
  ∧ rows_where "id" (JStr (utf16 "a1")) (table w' "articles")
    = [<["comment_count" := JNum (7 + 1)]> a]
  ∧ table w' "articles"
    = with_count (JStr (utf16 "a1")) (7 + 1) (table demo_world "articles").
Proof.
  intros req a w'.
  assert (rows_where "id" (JStr (utf16 "a1")) (table demo_world "articles")
          = [a]) as Ha by (vm_compute; reflexivity).
  assert (prior_count a = Some 7) as Hn by (vm_compute; reflexivity).
  assert (safe_integer 7) as Hsafe by (unfold safe_integer; lia).
  split; [exact Ha |]. split; [exact Hn |]. split; [exact Hsafe |].
  refine (comment_increments_count demo_world req (JStr (utf16 "a1"))
            (JStr (utf16 "hi")) a 7 _ _ _ _ _ Ha Hn Hsafe);
    vm_compute; reflexivity.
Defined.

(** What the handler does when one of its three store calls fails. Only
    the insert is checked for an error: a failed insert is answered with
    500 before anything is counted; a failed read of the count makes the
    handler store 1; a failed update leaves the count as it was. Both of the
    latter are answered with 200. *)
Example failed_insert_answers_500 :
  let req := request [] [("article_id", JStr (utf16 "a1"));
                         ("text", JStr (utf16 "hi"))] in
  let out := run pg (post_api_comments req)
               (demo_faulty [Some timeout_error]) in
  reply_status out.1 = Some 500
  ∧ table out.2 "comments" = []
  ∧ comment_counts out.2 = [Some (JNum 7); Some JNull; Some (JNum 0)].
Proof. vm_compute. done. Qed.

Example failed_read_stores_one :
  let req := request [] [("article_id", JStr (utf16 "a1"));
                         ("text", JStr (utf16 "hi"))] in
  let out := run pg (post_api_comments req)
               (demo_faulty [None; Some timeout_error]) in
  reply_status out.1 = Some 200
  ∧ comment_counts out.2 = [Some (JNum 1); Some JNull; Some (JNum 0)].
Proof. vm_compute. done. Qed.

Example failed_update_keeps_count :
  let req := request [] [("article_id", JStr (utf16 "a1"));
                         ("text", JStr (utf16 "hi"))] in
  let out := run pg (post_api_comments req)
               (demo_faulty [None; None; Some timeout_error]) in
  reply_status out.1 = Some 200
  ∧ comment_counts out.2 = [Some (JNum 7); Some JNull; Some (JNum 0)].
Proof. vm_compute. done. Qed.

Lemma comment_row_anonymous (body : Obj) (article_id text : JsVal) :
  body !! "article_id" = Some article_id →
  truthy article_id = true →
  body !! "text" = Some text →
  truthy text = true →
  body !! "user_name" = None →
  body !! "user_avatar" = None →
  comment_row body = anonymous_comment article_id text.
Proof.
  intros Hid Hidt Htext Htextt Hname Havatar. unfold comment_row.
  rewrite (field_lookup _ _ _ Hid), (field_lookup _ _ _ Htext),
    (field_missing _ _ Hname), (field_missing _ _ Havatar), !js_or_undefined.
  rewrite !sent_cons_defined, sent_nil by auto using truthy_defined.
  done.
Qed.

(** C8. A [POST /api/comments] that supplies [article_id] and [text] and
    has no [user_name] and no [user_avatar] stores, when no store failure is
    scripted, exactly one new comment row, whose [user_name] is "匿名" and
    whose [user_avatar] is "😊". *)
Theorem anonymous_comment_defaults
  (w : World) (req : Request) (article_id text : JsVal) :
  req_body req !! "article_id" = Some article_id →
  truthy article_id = true →
  req_body req !! "text" = Some text →
  truthy text = true →
  req_body req !! "user_name" = None →
  req_body req !! "user_avatar" = None →
  healthy w →
  let w' := (run pg (post_api_comments req) w).2 in
  ∃ c, table w' "comments" = table w "comments" ++ [c]
       ∧ c !! "user_name" = Some (JStr (utf16 "匿名"))
       ∧ c !! "user_avatar" = Some (JStr (utf16 "😊"))
       ∧ c !! "article_id" = Some article_id
       ∧ c !! "text" = Some text.
Proof.
  intros Hid Hidt Htext Htextt Hname Havatar Hw w'.
  destruct (post_comment_healthy w req) as (resp & w1 & Hrun & _ & _ & Hc & _);
    [by rewrite (field_lookup _ _ _ Hid)
    | by rewrite (field_lookup _ _ _ Htext) | done |].
  subst w'. rewrite Hrun. cbn [snd].
  exists (anonymous_comment article_id text).
  rewrite Hc, (comment_row_anonymous _ article_id text) by done.
  unfold anonymous_comment, obj. cbn [list_to_map foldr uncurry fst snd].
  by simplify_map_eq.
Qed.

Lemma anonymous_comment_defaults_witness :
  let req := request [] [("article_id", JStr (utf16 "a1"));
                         ("text", JStr (utf16 "hi"))] in
  let w' := (run pg (post_api_comments req) demo_world).2 in
  req_body req !! "user_name" = None
  ∧ req_body req !! "user_avatar" = None
  ∧ ∃ c, table w' "comments" = table demo_world "comments" ++ [c]
         ∧ c !! "user_name" = Some (JStr (utf16 "匿名"))
         ∧ c !! "user_avatar" = Some (JStr (utf16 "😊"))
         ∧ c !! "article_id" = Some (JStr (utf16 "a1"))
         ∧ c !! "text" = Some (JStr (utf16 "hi")).
Proof.
  intros req w'.
  assert (req_body req !! "user_name" = None) as H1
    by (vm_compute; reflexivity).
  assert (req_body req !! "user_avatar" = None) as H2
    by (vm_compute; reflexivity).
  split; [exact H1 |]. split; [exact H2 |].
  refine (anonymous_comment_defaults demo_world req (JStr (utf16 "a1"))
            (JStr (utf16 "hi")) _ _ _ _ H1 H2 _);
    vm_compute; reflexivity.
Defined.

(* ===================================================================== *)
(** ** POST /api/user-preferences on the reference store *)
(* ===================================================================== *)

Lemma healthy_tick (w : World) : healthy w → healthy (tick w).
Proof. done. Qed.

Lemma table_tick (w : World) (name : string) : table (tick w) name = table w name.
Proof. done. Qed.

Lemma sent_lookup (o : Obj) (key : string) :
  sent o !! key
  = match o !! key with
    | Some v => if is_undefined v then None else Some v
    | None => None
    end.
Proof.
  unfold sent. rewrite map_lookup_filter.
  destruct (o !! key) as [v |]; [| done]. simpl.
  destruct (is_undefined v) eqn:Hv.
  - by rewrite option_guard_False by (simpl; congruence).
  - by rewrite option_guard_True.
Qed.

Lemma pg_eq_refl (v : JsVal) : truthy v = true → pg_eq (Some v) v = true.
Proof.
  unfold pg_eq, jsstring_eqb.
  destruct v; try done; intros _; by apply bool_decide_eq_true.
Qed.

(** First-time creation: no row for the user, so one row is appended. *)
Lemma upsert_creates (w : World) (req : Request) :
  truthy (field (req_body req) "user_id") = true →
  healthy w →
  prefs_of (field (req_body req) "user_id") w = [] →
  ∃ resp w',
    run pg (post_api_user_preferences req) w = (Normal resp, w')
    ∧ status resp = 200
    ∧ healthy w'
    ∧ clock w' = clock w
    ∧ table w' "user_preferences"
      = table w "user_preferences" ++ [pref_row (req_body req)].
Proof.
  intros Hid Hw Hnone. unfold post_api_user_preferences.
  rewrite Hid. cbn [negb].
  rewrite run_try_catch, run_bind, run_await. cbn [pg].
  rewrite (pg_await_healthy _ _ Hw), exec_select_single.
  simpl (q_table _). unfold prefs_of in Hnone. rewrite Hnone. tidy.
  cbn [fmap list_fmap data failed truthy].
  set (w1 := after_read w).
  assert (healthy w1) as Hw1 by by apply healthy_after_read.
  rewrite run_bind, run_bind, run_await. cbn [pg].
  rewrite (pg_await_healthy _ _ Hw1), exec_insert_returning. tidy.
  cbn [error ok truthy].
  rewrite run_lift. cbn [data ok js_first fmap list_fmap head default]. tidy.
  rewrite run_ret.
  eexists _, _. split; [reflexivity |]. split; [done |].
  split; [by apply healthy_after_write |]. split; [done |].
  by rewrite table_after_write.
Qed.

(** Update: the one row of the user is patched, at the time the clock
    shows. *)
Lemma upsert_updates (w : World) (req : Request) (existing : Obj) :
  truthy (field (req_body req) "user_id") = true →
  healthy w →
  prefs_of (field (req_body req) "user_id") w = [existing] →
  ∃ resp w',
    run pg (post_api_user_preferences req) w = (Normal resp, w')
    ∧ status resp = 200
    ∧ healthy w'
    ∧ clock w' = tail (clock w)
    ∧ table w' "user_preferences"
      = patch_row [FEq "user_id" (field (req_body req) "user_id")]
          (pref_patch (req_body req) existing (now w))
          <$> table w "user_preferences".
Proof.
  intros Hid Hw Hone. unfold post_api_user_preferences.
  rewrite Hid. cbn [negb].
  rewrite run_try_catch, run_bind, run_await. cbn [pg].
  rewrite (pg_await_healthy _ _ Hw), exec_select_single.
  simpl (q_table _). unfold prefs_of in Hone. rewrite Hone, project_all. tidy.
  cbn [fmap list_fmap data ok truthy].
  set (w1 := after_read w).
  assert (healthy w1) as Hw1 by by apply healthy_after_read.
  rewrite run_bind, run_bind, run_lift. cbn [js_get]. tidy.
  rewrite run_bind, run_lift. tidy.
  rewrite run_bind, run_perform. cbn [pg]. tidy.
  rewrite run_bind, run_await. cbn [pg].
  rewrite (pg_await_healthy _ _ (healthy_tick _ Hw1)), exec_update_returning.
  tidy. cbn [error ok truthy].
  rewrite run_lift. simpl (q_table _). rewrite !table_tick. subst w1.
  rewrite !table_after_read, Hone.
  cbn [data ok js_first fmap list_fmap head default]. tidy.
  rewrite run_ret.
  eexists _, _. split; [reflexivity |]. split; [done |].
  split; [by apply healthy_after_write |]. split; [done |].
  by rewrite table_after_write.
Qed.

Lemma rows_where_app (key : string) (v : JsVal) (l1 l2 : list Obj) :
  rows_where key v (l1 ++ l2) = rows_where key v l1 ++ rows_where key v l2.
Proof. apply filter_app. Qed.

Lemma rows_where_one (key : string) (v : JsVal) (r : Obj) :
  pg_eq (r !! key) v = true → rows_where key v [r] = [r].
Proof.
  intros Hr. unfold rows_where, matches_all.
  rewrite filter_cons, decide_True; [done |].
  simpl. by rewrite Hr.
Qed.

Lemma rows_where_patched (key : string) (v : JsVal) (patch : Obj)
  (rows : list Obj) :
  patch !! key = None →
  rows_where key v (patch_row [FEq key v] patch <$> rows)
  = (λ r, patch ∪ r) <$> rows_where key v rows.
Proof.
  intros Hkey. unfold rows_where, patch_row, matches_all.
  induction rows as [| r rows IH]; [done |].
  rewrite fmap_cons, !filter_cons, IH. cbn [forallb matches].
  destruct (pg_eq (r !! key) v) eqn:Hr; cbn [andb].
  - rewrite lookup_union_r by done. rewrite Hr. cbn [andb].
    rewrite !decide_True by done. done.
  - rewrite Hr. cbn [andb]. rewrite !decide_False by done. done.
Qed.

Lemma pref_row_user_id (body : Obj) :
  truthy (field body "user_id") = true →
  pref_row body !! "user_id" = Some (field body "user_id").
Proof.
  intros Hid. unfold pref_row. rewrite sent_lookup.
  unfold obj. cbn [list_to_map foldr uncurry fst snd].
  rewrite lookup_insert_eq. by rewrite truthy_defined.
Qed.

Lemma pref_row_last_visit (body : Obj) : pref_row body !! "last_visit" = None.
Proof.
  unfold pref_row. rewrite sent_lookup.
  unfold obj. cbn [list_to_map foldr uncurry fst snd].
  by simplify_map_eq.
Qed.

Lemma pref_patch_user_id (body existing : Obj) (t : jsstring) :
  pref_patch body existing t !! "user_id" = None.
Proof.
  unfold pref_patch. rewrite sent_lookup.
  unfold obj. cbn [list_to_map foldr uncurry fst snd].
  by simplify_map_eq.
Qed.

Lemma pref_patch_last_visit (body existing : Obj) (t : jsstring) :
  pref_patch body existing t !! "last_visit" = Some (JStr t).
Proof.
  unfold pref_patch. rewrite sent_lookup.
  unfold obj. cbn [list_to_map foldr uncurry fst snd].
  by simplify_map_eq.
Qed.

(** A field the body omits keeps the value the row had. *)
Lemma pref_patch_omitted (body existing : Obj) (t : jsstring) (key : string) :
  key ∈ ["favorite_categories"; "viewed_articles"] →
  body !! key = None →
  (pref_patch body existing t ∪ existing) !! key = existing !! key.
Proof.
  intros Hkey Hnone. unfold pref_patch. rewrite lookup_union, sent_lookup.
  unfold obj. cbn [list_to_map foldr uncurry fst snd].
  apply elem_of_cons in Hkey as [-> | Hkey];
    [| apply list_elem_of_singleton in Hkey as ->];
    simplify_map_eq; rewrite (field_missing _ _ Hnone), js_or_undefined;
    unfold field; destruct (existing !! _) as [v |] eqn:Hv; simpl;
    try done; by destruct v.
Qed.

(** C4. Two [POST /api/user-preferences] for the same truthy [user_id], with
    no store failure scripted, starting from a store with at most one record
    for that user: after each call there is exactly one record for the user;
    after the second call its [last_visit] is the time the clock showed at
    that call; and a field among [favorite_categories] and
    [viewed_articles] that the second body omits has the value it had after
    the first call. *)
Theorem upsert_twice_one_record
  (w : World) (req1 req2 : Request) (user_id : JsVal) :
  req_body req1 !! "user_id" = Some user_id →
  req_body req2 !! "user_id" = Some user_id →
  truthy user_id = true →
  healthy w →
  (length (prefs_of user_id w) ≤ 1)%nat →
  let w1 := (run pg (post_api_user_preferences req1) w).2 in
  let w2 := (run pg (post_api_user_preferences req2) w1).2 in
  ∃ r1 r2,
    prefs_of user_id w1 = [r1]
    ∧ prefs_of user_id w2 = [r2]
    ∧ r2 !! "last_visit" = Some (JStr (now w1))
    ∧ ∀ key, key ∈ ["favorite_categories"; "viewed_articles"] →
             req_body req2 !! key = None → r2 !! key = r1 !! key.
Proof.
  intros Hid1 Hid2 Htruthy Hw Hmost w1 w2.
  apply field_lookup in Hid1, Hid2.
  assert (∃ r1, healthy w1 ∧ prefs_of user_id w1 = [r1]) as (r1 & Hw1 & Hr1).
  { subst w1 w2. destruct (prefs_of user_id w) as [| r0 [| r0' rest]] eqn:Hprefs;
      [| | simpl in Hmost; lia].
    - destruct (upsert_creates w req1) as (resp & w' & -> & _ & Hw' & _ & Ht);
        [by rewrite Hid1 | done | by rewrite Hid1 |].
      cbn [snd]. eexists. split; [done |].
      unfold prefs_of in *. rewrite Ht, rows_where_app, Hprefs.
      rewrite rows_where_one; [done |].
      rewrite pref_row_user_id, Hid1 by by rewrite Hid1.
      by apply pg_eq_refl.
    - destruct (upsert_updates w req1 r0) as (resp & w' & -> & _ & Hw' & _ & Ht);
        [by rewrite Hid1 | done | by rewrite Hid1 |].
      cbn [snd]. eexists. split; [done |].
      unfold prefs_of in *. rewrite Ht, Hid1.
      rewrite rows_where_patched by apply pref_patch_user_id.
      by rewrite Hprefs. }
  exists r1. subst w2.
  destruct (upsert_updates w1 req2 r1) as (resp & w' & -> & _ & _ & _ & Ht);
    [by rewrite Hid2 | done | by rewrite Hid2 |].
  cbn [snd]. eexists. split; [done |]. split.
  { unfold prefs_of in *. rewrite Ht, Hid2.
    rewrite rows_where_patched by apply pref_patch_user_id.
    by rewrite Hr1. }
  split.
  - rewrite lookup_union_l'; [apply pref_patch_last_visit |].
    rewrite pref_patch_last_visit. done.
  - intros key Hkey Hnone. by apply pref_patch_omitted.
Qed.

Lemma upsert_twice_one_record_witness :
  let req1 := request [] [("user_id", JStr (utf16 "u3"));
                          ("favorite_categories", JArr [JStr (utf16 "game")])] in
  let req2 := request [] [("user_id", JStr (utf16 "u3"));
                          ("viewed_articles", JArr [JStr (utf16 "a2")])] in
  let w1 := (run pg (post_api_user_preferences req1) demo_prefs_world).2 in
  let w2 := (run pg (post_api_user_preferences req2) w1).2 in
  healthy demo_prefs_world
  ∧ (length (prefs_of (JStr (utf16 "u3")) demo_prefs_world) ≤ 1)%nat
  ∧ ∃ r1 r2,
      prefs_of (JStr (utf16 "u3")) w1 = [r1]
      ∧ prefs_of (JStr (utf16 "u3")) w2 = [r2]
      ∧ r2 !! "last_visit" = Some (JStr (now w1))
      ∧ ∀ key, key ∈ ["favorite_categories"; "viewed_articles"] →
               req_body req2 !! key = None → r2 !! key = r1 !! key.
Proof.
  intros req1 req2 w1 w2.
  assert (healthy demo_prefs_world) as Hw by reflexivity.
  assert (length (prefs_of (JStr (utf16 "u3")) demo_prefs_world) ≤ 1)%nat
    as Hmost by (vm_compute; lia).
  split; [exact Hw |]. split; [exact Hmost |].
  refine (upsert_twice_one_record demo_prefs_world req1 req2
            (JStr (utf16 "u3")) _ _ _ Hw Hmost);
    vm_compute; reflexivity.
Defined.

(** C10. A [POST /api/user-preferences] for a truthy [user_id] that has no
    record, with no store failure scripted, appends exactly one record: it
    carries the [user_id] and has no [last_visit] field. *)
Theorem first_upsert_without_last_visit
  (w : World) (req : Request) (user_id : JsVal) :
  req_body req !! "user_id" = Some user_id →
  truthy user_id = true →
  healthy w →
  prefs_of user_id w = [] →
  let w' := (run pg (post_api_user_preferences req) w).2 in
  ∃ r, table w' "user_preferences" = table w "user_preferences" ++ [r]
       ∧ r !! "user_id" = Some user_id
       ∧ r !! "last_visit" = None.
Proof.
  intros Hid Htruthy Hw Hnone w'. apply field_lookup in Hid.
  destruct (upsert_creates w req) as (resp & w1 & Hrun & _ & _ & _ & Ht);
    [by rewrite Hid | done | by rewrite Hid |].
  subst w'. rewrite Hrun. cbn [snd].
  exists (pref_row (req_body req)). split; [done |]. split.
  - rewrite pref_row_user_id, Hid by by rewrite Hid. done.
  - apply pref_row_last_visit.
Qed.

Lemma first_upsert_without_last_visit_witness :
  let req := request [] [("user_id", JStr (utf16 "u3"))] in
  let w' := (run pg (post_api_user_preferences req) demo_prefs_world).2 in
  prefs_of (JStr (utf16 "u3")) demo_prefs_world = []
  ∧ ∃ r, table w' "user_preferences"
         = table demo_prefs_world "user_preferences" ++ [r]
         ∧ r !! "user_id" = Some (JStr (utf16 "u3"))
         ∧ r !! "last_visit" = None.
Proof.
  intros req w'.
  assert (prefs_of (JStr (utf16 "u3")) demo_prefs_world = []) as Hnone
    by (vm_compute; reflexivity).
  split; [exact Hnone |].
  refine (first_upsert_without_last_visit demo_prefs_world req
            (JStr (utf16 "u3")) _ _ _ Hnone);
    vm_compute; reflexivity.
Defined.

(* ===================================================================== *)
(** ** The video platform client *)
(* ===================================================================== *)

Lemma js_get_truthy (v : JsVal) (key : string) :
  truthy v = true → ∃ x, js_get v key = Normal x.
Proof. destruct v; try done; intros _; simpl; eauto. Qed.

(** Where the conversion to a text succeeds, the text is [to_string]. *)
Lemma to_text_to_string (v : JsVal) (s : jsstring) :
  to_text v = Normal s → s = to_string v.
Proof.
  revert v s. fix IH 1. intros v s. destruct v as [| | b | n | | t | l | o].
  1-6: by intros [= <-].
  - cbn [to_text to_string].
    match goal with
    | |- ?J l = Normal s → s = ?K l => set (join := J); set (joined := K)
    end.
    assert (∀ x l, join (x :: l)
                   = match (match x with
                            | JUndefined | JNull => Normal []
                            | _ => to_text x
                            end) with
                     | Throw e => Throw e
                     | Normal sx =>
                         match l with
                         | [] => Normal sx
                         | _ :: _ =>
                             match join l with
                             | Throw e => Throw e
                             | Normal st => Normal (sx ++ utf16 "," ++ st)
                             end
                         end
                     end) as Hjoin by done.
    assert (∀ x l, joined (x :: l)
                   = match l with
                     | [] => match x with
                             | JUndefined | JNull => []
                             | _ => to_string x
                             end
                     | _ :: _ => match x with
                                 | JUndefined | JNull => []
                                 | _ => to_string x
                                 end ++ utf16 "," ++ joined l
                     end) as Hjoined by done.
    assert (join [] = Normal []) as Hnil by done.
    assert (joined [] = []) as Hnone by done.
    clearbody join joined.
    revert l s. fix IHl 1. intros l s.
    destruct l as [| x l]; [rewrite Hnil, Hnone; by intros [= <-] |].
    rewrite Hjoin, Hjoined.
    assert (∀ sx, match x with
                  | JUndefined | JNull => Normal []
                  | _ => to_text x
                  end = Normal sx →
                  sx = match x with
                       | JUndefined | JNull => []
                       | _ => to_string x
                       end) as Hx.
    { intros sx. pose proof (IH x sx) as Hsx.
      destruct x; try (by intros [= <-]); exact Hsx. }
    destruct (match x with
              | JUndefined | JNull => Normal []
              | _ => to_text x
              end) as [sx |] eqn:Hsx; [| done].
    rewrite <- (Hx sx eq_refl). clear Hx.
    pose proof (IHl l) as Htail.
    destruct l as [| y l]; [by intros [= <-] |].
    destruct (join (y :: l)) as [st |] eqn:Hst; [| done].
    intros [= <-]. by rewrite <- (Htail st eq_refl).
  - cbn [to_text to_string]. by destruct (bool_decide _); intros [= <-].
Qed.

Lemma request_of_search (keyword maxResults : JsVal) (r : YtRequest) :
  request_of (SearchCall keyword maxResults) = Normal r →
  ∃ q n, encodeURIComponent keyword = Normal q
         ∧ to_text (or_default maxResults (JNum 5)) = Normal n
         ∧ r = YtSearch q (or_default maxResults (JNum 5)).
Proof.
  cbn [request_of].
  destruct (encodeURIComponent keyword) as [q |]; [| done].
  destruct (to_text (or_default maxResults (JNum 5))) as [n |]; [| done].
  intros [= <-]. eauto.
Qed.

Lemma request_of_comments (videoId maxResults : JsVal) (r : YtRequest) :
  request_of (CommentsCall videoId maxResults) = Normal r →
  ∃ id n, to_text videoId = Normal id
          ∧ to_text (or_default maxResults (JNum 20)) = Normal n
          ∧ r = YtCommentThreads videoId (or_default maxResults (JNum 20)).
Proof.
  cbn [request_of].
  destruct (to_text videoId) as [id |]; [| done].
  destruct (to_text (or_default maxResults (JNum 20))) as [n |]; [| done].
  intros [= <-]. eauto.
Qed.

(** C7. When the call to the video platform fails (the transport fails, the
    body is not JSON, or the body reports an error), [searchTrendingVideos]
    and [getVideoComments] return the empty array and do nothing but print
    one console line; the error does not reach the caller. The request is
    the one the function sends once its URL is built. *)
Theorem video_client_fails_soft (w : World) (c : ClientCall) (r : YtRequest) :
  request_of c = Normal r →
  call_failed (youtube w r) →
  ∃ line, run pg (client c) w = (Normal (JArr []), print line w).
Proof.
  intros Hreq Hfail. destruct c as [keyword maxResults | videoId maxResults];
    cbn [client].
  - apply request_of_search in Hreq as (q & n & Hq & Hn & ->).
    unfold searchTrendingVideos, fetch. cbv zeta.
    rewrite run_bind, run_lift, Hq. tidy.
    rewrite run_bind, run_lift, Hn. tidy.
    rewrite run_try_catch, !run_bind, run_perform. cbn [pg]. tidy.
    rewrite run_lift.
    destruct Hfail as [e | e | body err Herr Htruthy]; tidy.
    + walk. eauto.
    + walk. eauto.
    + rewrite run_bind, run_lift. cbn [json]. tidy.
      rewrite run_bind, run_lift, Herr. tidy. rewrite Htruthy.
      destruct (js_get_truthy err "message" Htruthy) as [message Hmessage].
      rewrite run_bind, run_lift, Hmessage. tidy.
      rewrite run_bind, run_lift.
      destruct (to_text message); walk; eauto.
  - apply request_of_comments in Hreq as (id & n & Hid & Hn & ->).
    unfold getVideoComments, fetch. cbv zeta.
    rewrite run_bind, run_lift, Hid. tidy.
    rewrite run_bind, run_lift, Hn. tidy.
    rewrite run_try_catch, !run_bind, run_perform. cbn [pg]. tidy.
    rewrite run_lift.
    destruct Hfail as [e | e | body err Herr Htruthy]; tidy.
    + walk. eauto.
    + walk. eauto.
    + rewrite run_bind, run_lift. cbn [json]. tidy.
      rewrite run_bind, run_lift, Herr. tidy. rewrite Htruthy.
      destruct (js_get_truthy err "message" Htruthy) as [message Hmessage].
      rewrite run_bind, run_lift, Hmessage. tidy.
      rewrite run_bind, run_lift.
      destruct (to_text message); walk; eauto.
Qed.

Lemma video_client_fails_soft_witness :
  let c := CommentsCall (JStr (utf16 "v1")) JUndefined in
  let r := YtCommentThreads (JStr (utf16 "v1")) (JNum 20) in
  request_of c = Normal r
  ∧ call_failed (youtube demo_world r)
  ∧ ∃ line, run pg (client c) demo_world
            = (Normal (JArr []), print line demo_world).
Proof.
  intros c r.
  assert (request_of c = Normal r) as Hreq by reflexivity.
  assert (call_failed (youtube demo_world r)) as Hfail
    by apply transport_error.
  split; [exact Hreq |]. split; [exact Hfail |].
  exact (video_client_fails_soft demo_world c r Hreq Hfail).
Defined.

(** Once the URL is built, neither function throws, whatever the platform
    answers. *)
Lemma client_returns_once_url_built (w : World) (c : ClientCall)
  (r : YtRequest) :
  request_of c = Normal r →
  ∃ items w', run pg (client c) w = (Normal items, w').
Proof.
  intros Hreq. destruct c as [keyword maxResults | videoId maxResults];
    cbn [client].
  - apply request_of_search in Hreq as (q & n & Hq & Hn & ->).
    unfold searchTrendingVideos. cbv zeta.
    rewrite run_bind, run_lift, Hq. tidy.
    rewrite run_bind, run_lift, Hn. tidy. rewrite run_try_catch.
    match goal with
    | |- context [run pg ?body w] =>
        destruct (run pg body w) as [[items | e] w']
    end; tidy; [eauto |]. walk. eauto.
  - apply request_of_comments in Hreq as (id & n & Hid & Hn & ->).
    unfold getVideoComments. cbv zeta.
    rewrite run_bind, run_lift, Hid. tidy.
    rewrite run_bind, run_lift, Hn. tidy. rewrite run_try_catch.
    match goal with
    | |- context [run pg ?body w] =>
        destruct (run pg body w) as [[items | e] w']
    end; tidy; [eauto |]. walk. eauto.
Qed.

(** What building the URL throws, the function throws, before any effect. *)
Lemma client_throws_building_url (w : World) (c : ClientCall) (e : JsVal) :
  request_of c = Throw e → run pg (client c) w = (Throw e, w).
Proof.
  destruct c as [keyword maxResults | videoId maxResults];
    cbn [request_of client].
  - unfold searchTrendingVideos. cbv zeta. rewrite run_bind, run_lift.
    destruct (encodeURIComponent keyword) as [q |]; tidy;
      [| by intros [= ->]].
    rewrite run_bind, run_lift.
    destruct (to_text (or_default maxResults (JNum 5))) as [n |]; tidy;
      [done | by intros [= ->]].
  - unfold getVideoComments. cbv zeta. rewrite run_bind, run_lift.
    destruct (to_text videoId) as [id |]; tidy; [| by intros [= ->]].
    rewrite run_bind, run_lift.
    destruct (to_text (or_default maxResults (JNum 20))) as [n |]; tidy;
      [done | by intros [= ->]].
Qed.

(** The two functions of the client throw only while they build their URL,
    which both do outside their [try] block: a call throws exactly what the
    template literal of its URL throws, before any effect, and returns
    normally whenever the URL is built, whatever the platform answers. *)
Theorem video_client_throws_only_building_url (w : World) (c : ClientCall) :
  match request_of c with
  | Normal _ => ∃ items w', run pg (client c) w = (Normal items, w')
  | Throw e => run pg (client c) w = (Throw e, w)
  end.
Proof.
  destruct (request_of c) as [r | e] eqn:Hreq.
  - by eapply client_returns_once_url_built.
  - by apply client_throws_building_url.
Qed.

(** The three keywords the job searches for are well formed, so the URL of
    each of its searches is built. *)
Lemma job_keywords_encodable :
  Forall (λ kc, encodeURIComponent (JStr kc.1) = Normal kc.1) keywords.
Proof. repeat constructor. Qed.

Example search_throws_on_lone_surrogate :
  (run pg (searchTrendingVideos (JStr [55296%N]) (JNum 3)) demo_world).1
  = Throw (JObj (obj [("name", JStr (utf16 "URIError"));
                      ("message", JStr (utf16 "URI malformed"))])).
Proof. vm_compute. reflexivity. Qed.

(** C7, for every keyword and every video id: neither function is free of
    throwing. On a platform whose every call fails at the transport, the
    search for a keyword that is a lone surrogate throws a [URIError], and
    the comments of a video id that is an object with a [toString] of its
    own throw a [TypeError]: the URL is built before the [try] block is
    entered, so neither call logs anything or returns the empty array. *)
Lemma video_client_can_throw :
  unreachable demo_world
  ∧ run pg (searchTrendingVideos (JStr [55296%N]) (JNum 3)) demo_world
    = (Throw (JObj (obj [("name", JStr (utf16 "URIError"));
                         ("message", JStr (utf16 "URI malformed"))])),
       demo_world)
  ∧ run pg (getVideoComments (js_obj [("toString", JNull)]) (JNum 20))
      demo_world
    = (Throw (type_error "Cannot convert object to primitive value"),
       demo_world).
Proof.
  split; [intros r; apply transport_error |].
  split; vm_compute; reflexivity.
Qed.

(* ===================================================================== *)
(** ** Invariants of the ingestion script *)
(* ===================================================================== *)

Section Keeps.
Context (I : World → Prop).

Lemma keeps_ret {A} (a : A) (Q : A → Prop) : Q a → keeps I (ret a) Q.
Proof. intros Hq w Hw. rewrite run_ret. split; [done |]. by intros ? [= <-]. Qed.

Lemma keeps_throw {A} (e : JsVal) (Q : A → Prop) : keeps I (throw e) Q.
Proof. intros w Hw. rewrite run_throw. split; done. Qed.

Lemma keeps_lift {A} (c : Completion A) : keeps I (lift c) (λ a, c = Normal a).
Proof. intros w Hw. rewrite run_lift. split; done. Qed.

Lemma keeps_bind {A B} (m : M A) (f : A → M B) (Q : A → Prop) (R : B → Prop) :
  keeps I m Q → (∀ a, Q a → keeps I (f a) R) → keeps I (m ≫= f) R.
Proof.
  intros Hm Hf w Hw. rewrite run_bind.
  destruct (Hm w Hw) as [Hi Hq].
  destruct (run pg m w) as [[a | e] w1]; cbn [fst snd] in *; [| done].
  by apply Hf; [apply Hq |].
Qed.

Lemma keeps_try_catch {A} (body : M A) (handler : JsVal → M A)
  (Q : A → Prop) :
  keeps I body Q → (∀ e, keeps I (handler e) Q) →
  keeps I (try_catch body handler) Q.
Proof.
  intros Hbody Hhandler w Hw. rewrite run_try_catch.
  destruct (Hbody w Hw) as [Hi Hq].
  destruct (run pg body w) as [[a | e] w1]; cbn [fst snd] in *; [done |].
  by apply Hhandler.
Qed.

Lemma keeps_weaken {A} (m : M A) (Q R : A → Prop) :
  keeps I m Q → (∀ a, Q a → R a) → keeps I m R.
Proof. intros Hm Hqr w Hw. destruct (Hm w Hw). split; auto. Qed.

Lemma keeps_for_of {A S} (xs : list A) (body : A → S → M S) (s : S) :
  (∀ x s', keeps I (body x s') (λ _, True)) →
  keeps I (for_of xs body s) (λ _, True).
Proof.
  intros Hbody. revert s. induction xs as [| x rest IH]; intros s; simpl.
  - by apply keeps_ret.
  - eapply keeps_bind; [apply Hbody |]. intros s' _. apply IH.
Qed.
End Keeps.

Section Grown.
Context (w0 : World) (fire : bool).

Lemma grown_start : grown w0 fire w0.
Proof.
  split; [done |]. exists []. split; [by rewrite app_nil_r |].
  by intros r ?%elem_of_nil.
Qed.

Lemma keeps_quiet {X} (e : Eff X) :
  quiet e = true → keeps (grown w0 fire) (perform e) (λ _, True).
Proof.
  intros Hq w Hw. rewrite run_perform.
  destruct e; try done; cbn [pg]; tidy; done.
Qed.

Lemma keeps_fetch (r : YtRequest) :
  keeps (grown w0 fire) (perform (Fetch r)) (λ c, c = youtube w0 r).
Proof.
  intros w Hw. rewrite run_perform. cbn [pg]. tidy.
  split; [done |]. intros c [= <-]. by destruct Hw as [-> _].
Qed.

Lemma keeps_insert_articles (new : list Obj) :
  (∀ r, r ∈ new → r !! "is_fire" = Some (JBool fire)) →
  keeps (grown w0 fire)
    (await (supabase.from "articles" ▸ supabase.insert new
              ▸ supabase.select "*"))
    (λ _, True).
Proof.
  intros Hnew w [Hy (added & Ht & Hadded)].
  rewrite run_await. cbn [pg]. rewrite pg_await_unfold.
  assert (grown w0 fire (after_read w)) as Hread.
  { split; [done |]. exists added. by rewrite table_after_read. }
  assert (grown w0 fire
            (after_write "articles" (table w "articles" ++ new) w)) as Hwrite.
  { split; [done |]. exists (added ++ new). rewrite table_after_write.
    split; [by rewrite Ht, app_assoc |].
    intros r [Hr | Hr]%elem_of_app; auto. }
  destruct (faults w) as [| [e |] rest]; rewrite ?exec_insert_returning;
    tidy; done.
Qed.
End Grown.

Lemma search_keeps (w0 : World) (fire : bool) (keyword maxResults : JsVal) :
  keeps (grown w0 fire) (searchTrendingVideos keyword maxResults) (λ _, True).
Proof.
  unfold searchTrendingVideos, fetch.
  eapply keeps_bind; [apply keeps_lift |]. intros q _.
  eapply keeps_bind; [apply keeps_lift |]. intros n _.
  apply keeps_try_catch.
  - eapply keeps_bind.
    { eapply keeps_bind; [apply keeps_fetch |]. intros c ->. apply keeps_lift. }
    intros response _.
    eapply keeps_bind; [apply keeps_lift |]. intros body _.
    eapply keeps_bind; [apply keeps_lift |]. intros err _.
    destruct (truthy err).
    + eapply keeps_bind; [apply keeps_lift |]. intros message _.
      eapply keeps_bind; [apply keeps_lift |]. intros reason _.
      apply keeps_throw.
    + eapply keeps_bind; [apply keeps_lift |]. intros items _.
      by apply keeps_ret.
  - intros e. eapply keeps_bind; [by apply keeps_quiet |]. intros _ _.
    by apply keeps_ret.
Qed.

Lemma at_most_nil (n : nat) : at_most n (JArr []).
Proof. intros l [= <-]. simpl. lia. Qed.

Lemma comments_keeps (w0 : World) (fire : bool) (videoId : JsVal) (n : Z) :
  honours_max_results w0 →
  keeps (grown w0 fire) (getVideoComments videoId (JNum n))
    (at_most (Z.to_nat n)).
Proof.
  intros Hmax. unfold getVideoComments, fetch. cbn [or_default].
  eapply keeps_bind; [apply keeps_lift |]. intros id _.
  eapply keeps_bind; [apply keeps_lift |]. intros shown _.
  apply keeps_try_catch.
  - eapply keeps_bind.
    { eapply keeps_bind; [apply keeps_fetch |]. intros c ->. apply keeps_lift. }
    intros response Hresponse.
    eapply keeps_bind; [apply keeps_lift |]. intros body Hbody.
    eapply keeps_bind; [apply keeps_lift |]. intros err _.
    destruct (truthy err).
    + eapply keeps_bind; [apply keeps_lift |]. intros message _.
      eapply keeps_bind; [apply keeps_lift |]. intros reason _.
      eapply keeps_bind; [by apply keeps_quiet |]. intros _ _.
      apply keeps_ret, at_most_nil.
    + eapply keeps_bind; [apply keeps_lift |]. intros items Hitems.
      apply keeps_ret. unfold js_or.
      destruct (truthy items); [| apply at_most_nil].
      intros l ->. exact (Hmax _ _ _ _ _ Hresponse Hbody Hitems).
  - intros e. eapply keeps_bind; [by apply keeps_quiet |]. intros _ _.
    apply keeps_ret, at_most_nil.
Qed.

Lemma js_gt_num_above (v : JsVal) (a b : Z) :
  a ≤ b → js_gt_num v a = false → js_gt_num v b = false.
Proof.
  unfold js_gt_num. destruct (to_number v) as [x |]; [| done].
  rewrite !Z.ltb_ge. lia.
Qed.

Lemma slice_for_each_array (comments : JsVal) (acc text : jsstring) :
  slice_for_each comments acc = Normal text → ∃ l, comments = JArr l.
Proof. destruct comments; try done. eauto. Qed.

Lemma article_is_fire (b : bool)
  (title content excerpt category source image count published
     reactions views : JsVal) :
  sent (obj [("title", title); ("content", content); ("excerpt", excerpt);
             ("category", category); ("source_url", source);
             ("image_url", image); ("is_trending", JBool true);
             ("is_fire", JBool b); ("reaction_count", reactions);
             ("comment_count", count); ("view_count", views);
             ("published_at", published)]) !! "is_fire"
  = Some (JBool b).
Proof.
  rewrite sent_lookup. unfold obj. cbn [list_to_map foldr uncurry fst snd].
  by simplify_map_eq.
Qed.

(** The article synthesizer appends at most rows whose [is_fire] is the
    outcome of [comments.length > 50]. *)
Lemma create_keeps (w0 : World) (fire : bool)
  (video comments category : JsVal) :
  (∀ len, js_get comments "length" = Normal len →
          (js_gt_num len 0 = true → ∃ l, comments = JArr l) →
          js_gt_num len 50 = fire) →
  keeps (grown w0 fire) (createArticleFromVideo video comments category)
    (λ _, True).
Proof.
  intros Hfire. unfold createArticleFromVideo.
  eapply keeps_bind; [apply keeps_lift |]. intros snippet _.
  eapply keeps_bind; [apply keeps_lift |]. intros video_id _.
  eapply keeps_bind; [apply keeps_lift |]. intros videoId _.
  eapply keeps_bind; [apply keeps_lift |]. intros snippet_title _.
  eapply keeps_bind; [apply keeps_lift |]. intros shown_title _.
  eapply keeps_bind; [apply keeps_lift |]. intros len Hlen.
  eapply (keeps_bind _ _ _ (λ _, js_gt_num len 0 = true → ∃ l, comments = JArr l)).
  { destruct (js_gt_num len 0).
    - eapply keeps_weaken; [apply keeps_lift |].
      intros text Htext _. by apply slice_for_each_array in Htext.
    - by apply keeps_ret. }
  intros commentText Harray.
  eapply keeps_bind; [apply keeps_lift |]. intros description _.
  eapply keeps_bind; [apply keeps_lift |]. intros lead _.
  eapply keeps_bind; [apply keeps_lift |]. intros link _.
  eapply keeps_bind; [apply keeps_lift |]. intros excerpt _.
  eapply keeps_bind; [apply keeps_lift |]. intros thumbnails _.
  eapply keeps_bind; [apply keeps_lift |]. intros high _.
  eapply keeps_bind; [apply keeps_lift |]. intros dflt _.
  eapply keeps_bind; [apply keeps_lift |]. intros fire_len Hfire_len.
  eapply keeps_bind; [by apply keeps_quiet |]. intros reactions _.
  eapply keeps_bind; [apply keeps_lift |]. intros count_len _.
  eapply keeps_bind; [by apply keeps_quiet |]. intros views _.
  eapply keeps_bind; [by apply keeps_quiet |]. intros published_at _.
  eapply keeps_bind.
  { apply keeps_insert_articles. intros r ->%list_elem_of_singleton.
    rewrite article_is_fire.
    assert (fire_len = len) as -> by congruence.
    by rewrite (Hfire len Hlen Harray). }
  intros r _. destruct (truthy (error r)).
  - eapply keeps_bind; [by apply keeps_quiet |]. intros _ _.
    by apply keeps_ret.
  - eapply keeps_bind; [by apply keeps_quiet |]. intros _ _.
    eapply keeps_weaken; [apply keeps_lift | done].
Qed.

Lemma js_get_field (o : Obj) (key : string) (v : JsVal) :
  o !! key = Some v → js_get (JObj o) key = Normal v.
Proof. unfold js_get. by intros ->. Qed.

(** The comments of usable threads can be written into the article. *)
Lemma render_usable (l : list JsVal) (acc : jsstring) :
  Forall usable_thread l → ∃ s, render_comments acc l = Normal s.
Proof.
  intros Hl. revert acc.
  induction Hl as [| comment l Hc _ IH]; intros acc; [by exists acc |].
  destruct Hc as (c & outer & top & inner & -> & Houter & Htop & Hinner
                  & [author Hauthor] & [text Htext]).
  cbn [render_comments].
  rewrite (js_get_field _ _ _ Houter). cbn [mbind Completion_bind].
  rewrite (js_get_field _ _ _ Htop). cbn [mbind Completion_bind].
  rewrite (js_get_field _ _ _ Hinner). cbn [mbind Completion_bind].
  change (js_get (JObj inner) "textDisplay")
    with (Normal (field inner "textDisplay")).
  change (js_get (JObj inner) "authorDisplayName")
    with (Normal (field inner "authorDisplayName")).
  cbn [mbind Completion_bind]. rewrite Hauthor, Htext.
  cbn [mbind Completion_bind]. apply IH.
Qed.

(** On a store that answers, the synthesizer given a usable video item and
    usable threads writes one record and returns it. *)
Lemma create_writes_one (w : World) (video category : JsVal)
  (l : list JsVal) :
  healthy w → usable_video video → Forall usable_thread (take 10 l) →
  ∃ r w',
    run pg (createArticleFromVideo video (JArr l) category) w
    = (Normal (JObj r), w')
    ∧ table w' "articles" = table w "articles" ++ [r].
Proof.
  intros Hw (v & id & snippet & thumbnails & description & -> & Hid
             & Hsnippet & [link Hlink] & [title Htitle] & Hdescription
             & Hthumbnails) Hthreads.
  unfold createArticleFromVideo.
  rewrite run_bind, run_lift, (js_get_field _ _ _ Hsnippet). tidy.
  rewrite run_bind, run_lift, (js_get_field _ _ _ Hid). tidy.
  rewrite run_bind, run_lift.
  change (js_get (JObj id) "videoId") with (Normal (field id "videoId")). tidy.
  rewrite run_bind, run_lift.
  change (js_get (JObj snippet) "title")
    with (Normal (field snippet "title")). tidy.
  rewrite run_bind, run_lift, Htitle. tidy.
  rewrite run_bind, run_lift. cbn [js_get]. tidy.
  rewrite bool_decide_eq_true_2 by done.
  rewrite run_bind.
  match goal with
  | |- context [run pg ?m w] =>
      assert (∃ commentText, run pg m w = (Normal commentText, w))
        as [commentText ->]
  end.
  { destruct (js_gt_num _ 0).
    - destruct (render_usable (take 10 l)
                  (nl ++ nl ++ utf16 "## 視聴者の反応" ++ nl ++ nl) Hthreads)
        as [text Htext].
      exists text. rewrite run_lift. cbn [slice_for_each]. by rewrite Htext.
    - eexists. by rewrite run_ret. }
  tidy. rewrite Hdescription, Hthumbnails. cbn [default].
  unfold Datatypes.id.
  rewrite run_bind, run_lift. tidy.
  rewrite run_bind, run_lift. cbn [js_substring0]. tidy.
  rewrite run_bind, run_lift, Hlink. tidy.
  rewrite run_bind, run_lift. tidy.
  rewrite run_bind, run_lift. tidy.
  rewrite run_bind, run_lift. cbn [js_get]. tidy.
  rewrite run_bind, run_lift. tidy.
  rewrite run_bind, run_lift. tidy.
  rewrite run_bind, run_perform. cbn [pg]. tidy.
  rewrite run_bind, run_lift. tidy.
  rewrite run_bind, run_perform. cbn [pg]. tidy.
  rewrite run_bind, run_perform. cbn [pg]. tidy.
  rewrite run_bind, run_await. cbn [pg].
  rewrite pg_await_healthy by done. rewrite exec_insert_returning. tidy.
  cbn [error ok truthy data].
  rewrite run_bind, run_perform. cbn [pg]. tidy.
  rewrite run_lift. cbn [js_first fmap list_fmap head default].
  unfold Datatypes.id. eexists _, _. split; [reflexivity |].
  exact (table_after_write "articles" _ _).
Qed.

Lemma demo_video_usable : usable_video demo_video.
Proof.
  exists (obj [("id", js_obj [("videoId", JStr (utf16 "v1"))]);
               ("snippet",
                 js_obj [("title", JStr (utf16 "Opening"));
                         ("description", JStr (utf16 "The new opening."));
                         ("thumbnails",
                           js_obj [("default",
                                     js_obj [("url",
                                               JStr (utf16 "http://i/1"))])])])]),
    (obj [("videoId", JStr (utf16 "v1"))]),
    (obj [("title", JStr (utf16 "Opening"));
          ("description", JStr (utf16 "The new opening."));
          ("thumbnails",
            js_obj [("default", js_obj [("url", JStr (utf16 "http://i/1"))])])]),
    (obj [("default", js_obj [("url", JStr (utf16 "http://i/1"))])]),
    (utf16 "The new opening.").
  split; [done |]. split; [by vm_compute |]. split; [by vm_compute |].
  split; [by exists (utf16 "v1") |]. split; [by exists (utf16 "Opening") |].
  split; by vm_compute.
Qed.

Lemma demo_thread_usable (author text : string) :
  usable_thread (demo_thread author text).
Proof.
  exists (obj [("snippet",
                 js_obj [("topLevelComment",
                           js_obj [("snippet",
                                     js_obj [("textDisplay",
                                               JStr (utf16 text));
                                             ("authorDisplayName",
                                               JStr (utf16 author))])])])]),
    (obj [("topLevelComment",
            js_obj [("snippet",
                      js_obj [("textDisplay", JStr (utf16 text));
                              ("authorDisplayName", JStr (utf16 author))])])]),
    (obj [("snippet",
            js_obj [("textDisplay", JStr (utf16 text));
                    ("authorDisplayName", JStr (utf16 author))])]),
    (obj [("textDisplay", JStr (utf16 text));
          ("authorDisplayName", JStr (utf16 author))]).
  split; [done |]. split; [done |]. split; [done |]. split; [done |].
  split; [by exists (utf16 author) | by exists (utf16 text)].
Qed.

(** C6. The article record that [createArticleFromVideo] produces for a
    comment list [l] has [is_fire] true if and only if [l] has more than 50
    comments. Whatever the video item, the category and the store, the
    articles table after the call is the table before it followed by the
    rows written, and each of them has that [is_fire]. A record is
    produced, written as one row and returned, whenever the store answers
    and the video item and the first ten threads of [l] are the objects the
    platform lists; no row is written when the call throws on a malformed
    item or the store refuses the insert. *)
Theorem is_fire_iff_more_than_50
  (w : World) (video category : JsVal) (l : list JsVal) :
  let out := run pg (createArticleFromVideo video (JArr l) category) w in
  ∃ added,
    table out.2 "articles" = table w "articles" ++ added
    ∧ (∀ r, r ∈ added →
            ∃ b, r !! "is_fire" = Some (JBool b)
                 ∧ (b = true ↔ (50 < length l)%nat))
    ∧ (healthy w → usable_video video → Forall usable_thread (take 10 l) →
       ∃ r, added = [r] ∧ out.1 = Normal (JObj r)).
Proof.
  intros out.
  destruct (create_keeps w (50 <? Z.of_nat (length l)) video (JArr l) category)
    with (w := w) as [[_ (added & Ht & Hadded)] _].
  { by intros len [= <-] _. }
  { apply grown_start. }
  exists added. split; [done |]. split.
  - intros r Hr. eexists. split; [by apply Hadded |].
    rewrite Z.ltb_lt. lia.
  - intros Hw Hvideo Hthreads.
    destruct (create_writes_one w video category l Hw Hvideo Hthreads)
      as (r & w' & Hrun & Htable).
    exists r. unfold out in *. rewrite Hrun in *. cbn [fst snd] in *.
    split; [| done].
    rewrite Htable in Ht. by apply app_inv_head in Ht.
Qed.

Lemma is_fire_iff_more_than_50_witness :
  let l := replicate 51 (demo_thread "aki" "nice") in
  let out := run pg (createArticleFromVideo demo_video (JArr l)
                       (JStr (utf16 "anime"))) demo_script_world in
  healthy demo_script_world
  ∧ usable_video demo_video
  ∧ Forall usable_thread (take 10 l)
  ∧ ∃ r, table out.2 "articles" = [r]
         ∧ r !! "is_fire" = Some (JBool true)
         ∧ out.1 = Normal (JObj r).
Proof.
  intros l out.
  assert (healthy demo_script_world) as Hw by done.
  assert (Forall usable_thread (take 10 l)) as Hthreads.
  { apply Forall_take, Forall_replicate, demo_thread_usable. }
  split; [exact Hw |]. split; [exact demo_video_usable |].
  split; [exact Hthreads |].
  destruct (is_fire_iff_more_than_50 demo_script_world demo_video
              (JStr (utf16 "anime")) l) as (added & Ht & Hfire & Hone).
  destruct (Hone Hw demo_video_usable Hthreads) as (r & -> & Hout).
  exists r. split; [exact Ht |]. split; [| exact Hout].
  destruct (Hfire r) as (b & Hb & Hiff); [apply list_elem_of_here |].
  rewrite Hb. do 2 f_equal. apply Hiff. unfold l.
  rewrite length_replicate. lia.
Defined.

Example fifty_one_comments_fire :
  fire_flags (run pg (createArticleFromVideo demo_video (demo_comments 51)
                        (JStr (utf16 "anime"))) demo_script_world).2
  = [Some (JBool true)].
Proof. vm_compute. reflexivity. Qed.

Example fifty_comments_no_fire :
  fire_flags (run pg (createArticleFromVideo demo_video (demo_comments 50)
                        (JStr (utf16 "anime"))) demo_script_world).2
  = [Some (JBool false)].
Proof. vm_compute. reflexivity. Qed.

Lemma main_keeps (w0 : World) :
  honours_max_results w0 → keeps (grown w0 false) main (λ _, True).
Proof.
  intros Hmax. unfold main.
  eapply keeps_bind; [by apply keeps_quiet |]. intros _ _.
  eapply keeps_bind; [| intros total _].
  - apply keeps_for_of. intros [keyword category] total.
    eapply keeps_bind; [by apply keeps_quiet |]. intros _ _.
    eapply keeps_bind; [apply search_keeps |]. intros videos _.
    eapply keeps_bind; [apply keeps_lift |]. intros found _.
    eapply keeps_bind; [apply keeps_lift |]. intros found_text _.
    eapply keeps_bind; [by apply keeps_quiet |]. intros _ _.
    eapply keeps_bind; [apply keeps_lift |]. intros items _.
    apply keeps_for_of. intros video total'.
    eapply keeps_bind; [apply keeps_lift |]. intros video_id _.
    eapply keeps_bind; [apply keeps_lift |]. intros videoId _.
    eapply keeps_bind; [apply keeps_lift |]. intros snippet _.
    eapply keeps_bind; [apply keeps_lift |]. intros title _.
    eapply keeps_bind; [apply keeps_lift |]. intros title_text _.
    eapply keeps_bind; [by apply keeps_quiet |]. intros _ _.
    eapply keeps_bind; [by apply comments_keeps |]. intros comments Hcomments.
    eapply keeps_bind; [apply keeps_lift |]. intros shown _.
    eapply keeps_bind; [apply keeps_lift |]. intros shown_text _.
    eapply keeps_bind; [by apply keeps_quiet |]. intros _ _.
    eapply keeps_bind.
    { apply create_keeps. intros len Hlen Harray.
      destruct (js_gt_num len 0) eqn:Hpositive;
        [| by apply (js_gt_num_above len 0 50)].
      destruct (Harray eq_refl) as [l ->]. injection Hlen as <-.
      specialize (Hcomments l eq_refl). simpl in Hcomments.
      unfold js_gt_num. cbn [to_number]. apply Z.ltb_ge. lia. }
    intros article _.
    eapply keeps_bind; [by apply keeps_quiet |]. intros _ _.
    by apply keeps_ret.
  - eapply keeps_bind; [by apply keeps_quiet |]. intros _ _.
    by apply keeps_ret.
Qed.

(** C9. When the video platform returns at most [maxResults] comment
    threads, every article a run of the ingestion job creates has [is_fire]
    false: the articles table after the run is the table before it followed
    by rows whose [is_fire] is [false]. *)
Theorem ingested_articles_never_fire (w : World) :
  honours_max_results w →
  let w' := (run pg main w).2 in
  ∃ added,
    table w' "articles" = table w "articles" ++ added
    ∧ ∀ r, r ∈ added → r !! "is_fire" = Some (JBool false).
Proof.
  intros Hmax w'.
  destruct (main_keeps w Hmax w (grown_start w false)) as [[_ Hgrown] _].
  exact Hgrown.
Qed.

Lemma demo_youtube_honours : honours_max_results demo_script_world.
Proof.
  intros videoId n resp body l Hresp Hbody Hitems.
  cbn in Hresp. injection Hresp as <-. cbn in Hbody. injection Hbody as <-.
  unfold js_obj, js_get, obj in Hitems.
  cbn [list_to_map foldr uncurry fst snd] in Hitems.
  rewrite lookup_insert_eq in Hitems. injection Hitems as <-.
  rewrite length_take. lia.
Qed.

Lemma ingested_articles_never_fire_witness :
  let w' := (run pg main demo_script_world).2 in
  honours_max_results demo_script_world
  ∧ fire_flags w' = [Some (JBool false); Some (JBool false); Some (JBool false)]
  ∧ ∃ added,
      table w' "articles" = table demo_script_world "articles" ++ added
      ∧ ∀ r, r ∈ added → r !! "is_fire" = Some (JBool false).
Proof.
  intros w'. split; [exact demo_youtube_honours |].
  split; [vm_compute; reflexivity |].
  exact (ingested_articles_never_fire demo_script_world demo_youtube_honours).
Defined.

(* ===================================================================== *)
(** ** Every request is answered *)
(* ===================================================================== *)

Lemma safe_ret {A} (Q : A → Prop) (a : A) : Q a → safe Q (ret a).
Proof. intros Hq W h w. by rewrite run_ret. Qed.

Lemma safe_throw {A} (Q : A → Prop) (e : JsVal) :
  nullish e = false → safe Q (throw e).
Proof. intros He W h w. by rewrite run_throw. Qed.

Lemma safe_lift {A} (Q : A → Prop) (c : Completion A) :
  throws_defined Q c → safe Q (lift c).
Proof. intros Hc W h w. by rewrite run_lift. Qed.

Lemma safe_perform {X} (e : Eff X) : safe (λ _, True) (perform e).
Proof. intros W h w. rewrite run_perform. by destruct (h X e w). Qed.

Lemma safe_bind {A B} (P : A → Prop) (Q : B → Prop) (m : M A) (f : A → M B) :
  safe P m → (∀ a, P a → safe Q (f a)) → safe Q (m ≫= f).
Proof.
  intros Hm Hf W h w. rewrite run_bind. specialize (Hm W h w).
  destruct (run h m w) as [[a | e] w1]; cbn [fst throws_defined] in *;
    [| done].
  by apply Hf.
Qed.

Lemma safe_weaken {A} (P Q : A → Prop) (m : M A) :
  safe P m → (∀ a, P a → Q a) → safe Q m.
Proof.
  intros Hm Hpq W h w. specialize (Hm W h w).
  destruct (run h m w).1; cbn in *; auto.
Qed.

Lemma truthy_not_nullish (v : JsVal) : truthy v = true → nullish v = false.
Proof. by destruct v. Qed.

Lemma js_get_defined (v : JsVal) (key : string) :
  throws_defined (λ _, True) (js_get v key).
Proof. by destruct v. Qed.

Lemma js_first_defined (v : JsVal) : throws_defined (λ _, True) (js_first v).
Proof. by destruct v. Qed.

Lemma js_iterate_defined (v : JsVal) :
  throws_defined (λ _, True) (js_iterate v).
Proof. by destruct v. Qed.

Lemma in_defined (column : string) (values : JsVal) (q : Query) :
  throws_defined (λ _, True) (supabase.in_ column values q).
Proof. unfold supabase.in_. by destruct values. Qed.

Lemma filter_with_defined (cb : JsVal → Completion bool) (l : list JsVal) :
  (∀ x, throws_defined (λ _, True) (cb x)) →
  throws_defined (λ _, True) (filter_with cb l).
Proof.
  intros Hcb. induction l as [| x rest IH]; [done |]. simpl.
  specialize (Hcb x). destruct (cb x); [| done]. simpl.
  by destruct (filter_with cb rest).
Qed.

Lemma js_filter_defined (arr : JsVal) (cb : JsVal → Completion bool) :
  (∀ x, throws_defined (λ _, True) (cb x)) →
  throws_defined (λ _, True) (js_filter arr cb).
Proof.
  intros Hcb. destruct arr; try done. simpl.
  pose proof (filter_with_defined cb l Hcb) as Hl.
  by destruct (filter_with cb l).
Qed.

Lemma tally_step_defined (acc : Obj) (row : JsVal) :
  throws_defined (λ _, True) (tally_step acc row).
Proof. by destruct row. Qed.

Lemma reduce_with_defined {A} (step : A → JsVal → Completion A) (acc : A)
  (l : list JsVal) :
  (∀ a x, throws_defined (λ _, True) (step a x)) →
  throws_defined (λ _, True) (reduce_with step acc l).
Proof.
  intros Hstep. revert acc. induction l as [| x rest IH]; intros acc; [done |].
  simpl. specialize (Hstep acc x). destruct (step acc x); [| done]. apply IH.
Qed.

Lemma js_reduce_defined {A} (arr : JsVal) (step : A → JsVal → Completion A)
  (init : A) :
  (∀ a x, throws_defined (λ _, True) (step a x)) →
  throws_defined (λ _, True) (js_reduce arr step init).
Proof. intros Hstep. destruct arr; try done. by apply reduce_with_defined. Qed.

(** The [catch] block answers 500 for every thrown value that is not
    nullish. *)
Lemma respond_500_answers {W} (h : ∀ X, Eff X → W → X * W)
  (label : string) (e : JsVal) (w : W) :
  nullish e = false →
  ∃ resp, (run h (respond_500 label e) w).1 = Normal resp ∧ status resp = 500.
Proof.
  intros He. unfold respond_500. rewrite run_bind, run_perform.
  destruct (h _ _ w) as [[] w1]. tidy.
  rewrite run_bind, run_lift.
  destruct (js_get e "message") as [message | e'] eqn:Hget;
    [| by destruct e]. tidy. rewrite run_ret. eauto.
Qed.

Lemma guarded_answers {W} (h : ∀ X, Eff X → W → X * W)
  (body : M Response) (label : string) (w : W) :
  safe (λ resp, status resp = 200 ∨ status resp = 400) body →
  ∃ resp, (run h (try_catch body (respond_500 label)) w).1 = Normal resp
          ∧ status resp ∈ [200; 400; 500].
Proof.
  intros Hbody. rewrite run_try_catch. specialize (Hbody W h w).
  destruct (run h body w) as [[resp | e] w1]; cbn in Hbody; tidy.
  - exists resp. split; [done |]. destruct Hbody as [-> | ->]; set_solver.
  - destruct (respond_500_answers h label e w1 Hbody) as (resp & Hrun & Hs).
    exists resp. split; [done |]. rewrite Hs. set_solver.
Qed.

(** Tactics for [safe]: one statement at a time. *)
Ltac safe_lift_with lemma :=
  eapply safe_bind;
  [ apply safe_lift; apply lemma | intros ? _ ].
Ltac safe_await :=
  eapply safe_bind; [ apply safe_perform | intros ? _ ].
Ltac safe_throw_error :=
  apply safe_throw; apply truthy_not_nullish; assumption.

Lemma reply_checked_safe {A} (r : Reply) (Q : A → Prop) (m : M A) :
  safe Q m → safe Q (if truthy (error r) then throw (error r) else m).
Proof.
  intros Hm. destruct (truthy (error r)) eqn:Herr; [| done].
  by apply safe_throw, truthy_not_nullish.
Qed.

Lemma builder_safe (categories : JsVal) (query : Query) :
  safe (λ _, True)
    (if truthy categories then
       len ← lift (js_get categories "length");
       if js_gt_num len 0
       then lift (query ▸ supabase.in_ "category" categories)
       else ret query
     else ret query).
Proof.
  destruct (truthy categories); [| by apply safe_ret].
  safe_lift_with js_get_defined.
  destruct (js_gt_num _ 0); [| by apply safe_ret].
  apply safe_lift, in_defined.
Qed.

(** Every request is answered: whatever the store and the other effects
    do, each handler returns a response, with status 200, 400 or 500; no
    handler lets an exception escape. *)
Theorem every_request_is_answered
  (W : Type) (h : ∀ X, Eff X → W → X * W) (w : W)
  (route : Route) (req : Request) :
  ∃ resp, (run h (handler route req) w).1 = Normal resp
          ∧ status resp ∈ [200; 400; 500].
Proof.
  destruct route; cbn [handler];
    unfold get_api_articles, get_api_articles_trending, get_api_articles_id,
      post_api_comments, get_api_tags_trending,
      post_api_recommendations_articles, post_api_recommendations_products,
      get_api_user_preferences, post_api_user_preferences,
      get_api_stats_categories.
  - apply guarded_answers. safe_await.
    apply reply_checked_safe, safe_ret. by left.
  - apply guarded_answers. safe_await.
    apply reply_checked_safe, safe_ret. by left.
  - apply guarded_answers. safe_await. apply reply_checked_safe.
    safe_await. apply reply_checked_safe.
    safe_await. apply reply_checked_safe.
    safe_lift_with js_get_defined. safe_await. apply safe_ret. by left.
  - apply guarded_answers.
    destruct (negb _ || negb _); [apply safe_ret; by right |].
    safe_await. apply reply_checked_safe.
    safe_await. safe_await. safe_lift_with js_first_defined.
    apply safe_ret. by left.
  - apply guarded_answers. safe_await.
    apply reply_checked_safe, safe_ret. by left.
  - apply guarded_answers.
    eapply safe_bind; [apply builder_safe | intros ? _].
    safe_await. apply reply_checked_safe.
    eapply safe_bind; [| intros ? _; apply safe_ret; by left].
    apply safe_lift, js_filter_defined. intros x.
    generalize (or_default (field (req_body req) "viewed_articles") (JArr [])).
    intros viewed. destruct viewed, x; cbn; done.
  - apply guarded_answers.
    eapply safe_bind; [apply builder_safe | intros ? _].
    safe_await. apply reply_checked_safe, safe_ret. by left.
  - apply guarded_answers. safe_await.
    destruct (truthy (error a)) eqn:Herr; [| apply safe_ret; by left].
    safe_lift_with js_get_defined.
    destruct (negb _); [| apply safe_ret; by left].
    by apply safe_throw, truthy_not_nullish.
  - apply guarded_answers.
    destruct (negb _); [apply safe_ret; by right |].
    safe_await. eapply safe_bind; [| intros ? _; apply safe_ret; by left].
    destruct (truthy (data a)).
    + safe_lift_with js_get_defined. safe_lift_with js_get_defined.
      safe_await. safe_await. apply reply_checked_safe.
      apply safe_lift, js_first_defined.
    + safe_await. apply reply_checked_safe.
      apply safe_lift, js_first_defined.
  - apply guarded_answers. safe_await. apply reply_checked_safe.
    eapply safe_bind; [| intros ? _; apply safe_ret; by left].
    apply safe_lift, js_reduce_defined, tally_step_defined.
  - unfold get_health. rewrite run_bind, run_perform.
    destruct (h _ NowISO w) as [t w1]. tidy. rewrite run_ret.
    eexists. split; [done |]. set_solver.
Qed.

(* ===================================================================== *)
(** ** Validation *)
(* ===================================================================== *)

(** A [POST /api/comments] whose [article_id] or [text] is missing or
    falsy (empty string, [null], 0, [false]) is answered with 400 before
    any effect: nothing is written, read or printed. *)
Theorem comment_needs_article_and_text
  (W : Type) (h : ∀ X, Eff X → W → X * W) (w : W) (req : Request) :
  truthy (field (req_body req) "article_id") = false
  ∨ truthy (field (req_body req) "text") = false →
  run h (post_api_comments req) w = (Normal comment_rejected, w).
Proof.
  intros Hfalsy. unfold post_api_comments. rewrite run_try_catch.
  assert (negb (truthy (field (req_body req) "article_id"))
          || negb (truthy (field (req_body req) "text")) = true) as ->.
  { destruct Hfalsy as [-> | ->]; [done | by rewrite orb_true_r]. }
  done.
Qed.

Lemma comment_needs_article_and_text_witness :
  let req := request [] [("article_id", JStr (utf16 "a1"));
                         ("text", JStr [])] in
  (truthy (field (req_body req) "article_id") = false
   ∨ truthy (field (req_body req) "text") = false)
  ∧ run pg (post_api_comments req) demo_world
    = (Normal comment_rejected, demo_world).
Proof.
  intros req.
  assert (truthy (field (req_body req) "article_id") = false
          ∨ truthy (field (req_body req) "text") = false) as H
    by (right; vm_compute; reflexivity).
  split; [exact H |].
  exact (comment_needs_article_and_text World pg demo_world req H).
Defined.

(** A [POST /api/user-preferences] whose [user_id] is missing or falsy is
    answered with 400 before any effect. *)
Theorem preferences_need_user_id
  (W : Type) (h : ∀ X, Eff X → W → X * W) (w : W) (req : Request) :
  truthy (field (req_body req) "user_id") = false →
  run h (post_api_user_preferences req) w = (Normal preferences_rejected, w).
Proof.
  intros Hfalsy. unfold post_api_user_preferences.
  rewrite run_try_catch, Hfalsy. done.
Qed.

Lemma preferences_need_user_id_witness :
  let req := request [] [("favorite_categories", JArr [])] in
  truthy (field (req_body req) "user_id") = false
  ∧ run pg (post_api_user_preferences req) demo_world
    = (Normal preferences_rejected, demo_world).
Proof.
  intros req.
  assert (truthy (field (req_body req) "user_id") = false) as H
    by (vm_compute; reflexivity).
  split; [exact H |].
  exact (preferences_need_user_id World pg demo_world req H).
Defined.

(* ===================================================================== *)
(** ** Handlers that only read; store failures *)
(* ===================================================================== *)

Lemma exec_select_writes_nothing (q : Query) (columns : string)
  (rows : list Obj) :
  q_verb q = Some (Select columns) → (exec q rows).2 = None.
Proof.
  intros Hverb. unfold exec. rewrite Hverb.
  by destruct (window _ _ _).
Qed.

Lemma pg_await_select (q : Query) (columns : string) (w : World) :
  q_verb q = Some (Select columns) → (pg_await q w).2 = after_read w.
Proof.
  intros Hverb. rewrite pg_await_unfold.
  pose proof (exec_select_writes_nothing q columns (table w (q_table q)) Hverb)
    as Hnone.
  destruct (exec q (table w (q_table q))) as [reply [rows |]];
    cbn in Hnone; [done |].
  by destruct (faults w) as [| [e |] rest].
Qed.

Section Untouched.
Context (T : gmap string (list Obj)).

Lemma untouched_quiet {X} (e : Eff X) :
  quiet e = true → keeps (λ w, tables w = T) (perform e) (λ _, True).
Proof.
  intros Hq w Hw. rewrite run_perform.
  destruct e; try done; cbn [pg]; tidy; done.
Qed.

Lemma untouched_select (q : Query) (columns : string) :
  q_verb q = Some (Select columns) →
  keeps (λ w, tables w = T) (await q) (λ _, True).
Proof.
  intros Hverb w Hw. rewrite run_await. cbn [pg].
  pose proof (pg_await_select q columns w Hverb) as Hafter.
  destruct (pg_await q w) as [reply w1]. cbn in *. by subst w1.
Qed.

Lemma untouched_respond_500 (label : string) (e : JsVal) :
  keeps (λ w, tables w = T) (respond_500 label e) (λ _, True).
Proof.
  unfold respond_500.
  eapply keeps_bind; [by apply untouched_quiet |]. intros _ _.
  eapply keeps_bind; [apply keeps_lift |]. intros message _.
  by apply keeps_ret.
Qed.

Lemma untouched_checked (r : Reply) (m : M Response) :
  keeps (λ w, tables w = T) m (λ _, True) →
  keeps (λ w, tables w = T)
    (if truthy (error r) then throw (error r) else m) (λ _, True).
Proof. intros Hm. destruct (truthy (error r)); [apply keeps_throw | done]. Qed.

Lemma untouched_builder (categories : JsVal) (query : Query) (columns : string) :
  q_verb query = Some (Select columns) →
  keeps (λ w, tables w = T)
    (if truthy categories then
       len ← lift (js_get categories "length");
       if js_gt_num len 0
       then lift (query ▸ supabase.in_ "category" categories)
       else ret query
     else ret query)
    (λ q, q_verb q = Some (Select columns)).
Proof.
  intros Hverb. destruct (truthy categories); [| by apply keeps_ret].
  eapply keeps_bind; [apply keeps_lift |]. intros len _.
  destruct (js_gt_num len 0); [| by apply keeps_ret].
  eapply keeps_weaken; [apply keeps_lift |].
  intros q Hq. unfold supabase.in_ in Hq.
  destruct (js_iterate categories); simplify_eq/=. done.
Qed.
End Untouched.

(** The handlers that only read leave every table as it was, whatever the
    request and whatever the store answers or fails to answer. *)
Theorem read_only_routes_write_nothing
  (w : World) (route : Route) (req : Request) :
  read_only route = true →
  tables (run pg (handler route req) w).2 = tables w.
Proof.
  intros Hro.
  cut (keeps (λ w', tables w' = tables w) (handler route req) (λ _, True)).
  { intros Hkeeps. by destruct (Hkeeps w eq_refl). }
  destruct route; try done; cbn [handler];
    unfold get_api_articles, get_api_articles_trending,
      get_api_tags_trending, post_api_recommendations_articles,
      post_api_recommendations_products, get_api_user_preferences,
      get_api_stats_categories, get_health.
  - apply keeps_try_catch; [| apply untouched_respond_500].
    eapply keeps_bind; [| intros r _; apply untouched_checked; by apply keeps_ret].
    destruct (truthy _ && negb _); by eapply untouched_select.
  - apply keeps_try_catch; [| apply untouched_respond_500].
    eapply keeps_bind; [by eapply untouched_select |]. intros r _.
    apply untouched_checked. by apply keeps_ret.
  - apply keeps_try_catch; [| apply untouched_respond_500].
    eapply keeps_bind; [by eapply untouched_select |]. intros r _.
    apply untouched_checked. by apply keeps_ret.
  - apply keeps_try_catch; [| apply untouched_respond_500].
    eapply keeps_bind; [eapply untouched_builder; reflexivity |].
    intros q Hq.
    eapply keeps_bind; [eapply untouched_select; exact Hq |]. intros r _.
    apply untouched_checked.
    eapply keeps_bind; [apply keeps_lift |]. intros filtered _.
    by apply keeps_ret.
  - apply keeps_try_catch; [| apply untouched_respond_500].
    eapply keeps_bind; [eapply untouched_builder; reflexivity |].
    intros q Hq.
    eapply keeps_bind; [eapply untouched_select; exact Hq |]. intros r _.
    apply untouched_checked. by apply keeps_ret.
  - apply keeps_try_catch; [| apply untouched_respond_500].
    eapply keeps_bind; [by eapply untouched_select |]. intros r _.
    destruct (truthy (error r)); [| by apply keeps_ret].
    eapply keeps_bind; [apply keeps_lift |]. intros code _.
    destruct (negb _); [apply keeps_throw | by apply keeps_ret].
  - apply keeps_try_catch; [| apply untouched_respond_500].
    eapply keeps_bind; [by eapply untouched_select |]. intros r _.
    apply untouched_checked.
    eapply keeps_bind; [apply keeps_lift |]. intros stats _.
    by apply keeps_ret.
Qed.

Lemma read_only_routes_write_nothing_witness :
  let req := request [("category", JStr (utf16 "anime"))] [] in
  read_only ListArticles = true
  ∧ tables (run pg (handler ListArticles req) demo_world).2
    = tables demo_world.
Proof.
  intros req. split; [reflexivity |].
  exact (read_only_routes_write_nothing demo_world ListArticles req eq_refl).
Defined.

Lemma truthy_pg_error_val (e : PgError) : truthy (pg_error_val e) = true.
Proof. done. Qed.

Lemma pg_error_message (e : PgError) :
  js_get (pg_error_val e) "message" = Normal (JStr (pe_message e)).
Proof.
  unfold pg_error_val, js_get, obj. cbn [list_to_map foldr uncurry fst snd].
  by simplify_map_eq.
Qed.

Lemma pg_error_code (e : PgError) :
  js_get (pg_error_val e) "code" = Normal (JStr (pe_code e)).
Proof.
  unfold pg_error_val, js_get, obj. cbn [list_to_map foldr uncurry fst snd].
  by simplify_map_eq.
Qed.

Lemma respond_500_store_failure (label : string) (e : PgError) (w : World) :
  run pg (respond_500 label (pg_error_val e)) w
  = (Normal (store_failure e),
     print (ErrorLine (utf16 label) (pg_error_val e)) w).
Proof.
  unfold respond_500. rewrite run_bind, run_perform. cbn [pg]. tidy.
  by rewrite run_bind, run_lift, pg_error_message.
Qed.

Lemma pg_await_fault (q : Query) (w : World) (e : PgError)
  (rest : list (option PgError)) :
  faults w = Some e :: rest → pg_await q w = (failed e, after_read w).
Proof. intros Hf. by rewrite pg_await_unfold, Hf. Qed.

(** When the store fails on the first query of one of these handlers, the
    handler answers 500 with the store's message, prints the error once,
    and makes no further query: the tables are as they were. *)
Theorem store_failure_answers_500
  (w : World) (route : Route) (req : Request) (label : string)
  (e : PgError) (rest : list (option PgError)) :
  first_query_label route = Some label →
  faults w = Some e :: rest →
  run pg (handler route req) w
  = (Normal (store_failure e),
     print (ErrorLine (utf16 label) (pg_error_val e)) (after_read w)).
Proof.
  intros Hlabel Hfaults.
  destruct route; cbn [first_query_label handler] in *; simplify_eq;
    unfold get_api_articles, get_api_articles_trending, get_api_articles_id,
      get_api_tags_trending, get_api_stats_categories;
    rewrite run_try_catch, run_bind, run_await; cbn [pg];
    rewrite (pg_await_fault _ _ _ _ Hfaults); tidy;
    cbn [error failed]; rewrite truthy_pg_error_val, run_throw; tidy;
    apply respond_500_store_failure.
Qed.

Lemma store_failure_answers_500_witness :
  let w := demo_faulty [Some timeout_error] in
  let req := request [] [] in
  first_query_label TrendingArticles = Some "Error fetching trending articles:"
  ∧ faults w = [Some timeout_error]
  ∧ run pg (handler TrendingArticles req) w
    = (Normal (store_failure timeout_error),
       print (ErrorLine (utf16 "Error fetching trending articles:")
                (pg_error_val timeout_error)) (after_read w)).
Proof.
  intros w req. split; [reflexivity |]. split; [reflexivity |].
  exact (store_failure_answers_500 w TrendingArticles req _ timeout_error []
           eq_refl eq_refl).
Defined.

(* ===================================================================== *)
(** ** The reference store: ordering *)
(* ===================================================================== *)

Lemma jsstring_compare_antisym (a b : jsstring) :
  jsstring_compare b a = CompOpp (jsstring_compare a b).
Proof.
  revert b. induction a as [| x a IH]; intros [| y b]; simpl; try done.
  rewrite (N.compare_antisym x y). destruct (x ?= y)%N; simpl; auto.
Qed.

Lemma pg_compare_antisym (a b : option JsVal) :
  pg_compare b a = CompOpp (pg_compare a b).
Proof.
  assert ((sort_class b ?= sort_class a)
          = CompOpp (sort_class a ?= sort_class b)) as Hclass
    by apply Z.compare_antisym.
  destruct a as [[] |], b as [[] |]; try exact Hclass; simpl.
  - apply Z.compare_antisym.
  - apply Z.compare_antisym.
  - apply jsstring_compare_antisym.
Qed.

Lemma jsstring_compare_trans (a b c : jsstring) :
  jsstring_compare a b ≠ Lt → jsstring_compare b c ≠ Lt →
  jsstring_compare a c ≠ Lt.
Proof.
  revert b c. induction a as [| x a IH]; intros [| y b] [| z c]; simpl;
    try done.
  destruct (N.compare_spec x y), (N.compare_spec y z), (N.compare_spec x z);
    subst; try done; try lia. apply IH.
Qed.

Lemma pg_compare_trans (a b c : option JsVal) :
  pg_compare a b ≠ Lt → pg_compare b c ≠ Lt → pg_compare a c ≠ Lt.
Proof.
  destruct a as [[| | x | x | | x | |] |], b as [[| | y | y | | y | |] |],
    c as [[| | z | z | | z | |] |];
    try (by cbv); try (intros _ H; by cbv in H); try (intros H; by cbv in H).
  - destruct x, y, z; by cbv.
  - unfold pg_compare.
    destruct (Z.compare_spec x y), (Z.compare_spec y z), (Z.compare_spec x z);
      subst; try done; lia.
  - apply jsstring_compare_trans.
Qed.

Lemma comes_before_total (column : string) (ascending : bool) (r s : Obj) :
  comes_before column ascending r s = false →
  comes_before column ascending s r = true.
Proof.
  unfold comes_before. rewrite (pg_compare_antisym (r !! column)).
  destruct (pg_compare (r !! column) (s !! column)), ascending; done.
Qed.

Lemma comes_before_descending (column : string) (r s : Obj) :
  comes_before column false r s = true
  ↔ pg_compare (r !! column) (s !! column) ≠ Lt.
Proof.
  unfold comes_before.
  by destruct (pg_compare (r !! column) (s !! column)).
Qed.

Lemma comes_before_ascending (column : string) (r s : Obj) :
  comes_before column true r s = true
  ↔ pg_compare (s !! column) (r !! column) ≠ Lt.
Proof.
  unfold comes_before. rewrite (pg_compare_antisym (r !! column)).
  by destruct (pg_compare (r !! column) (s !! column)).
Qed.

Lemma comes_before_trans (column : string) (ascending : bool) (r s t : Obj) :
  comes_before column ascending r s = true →
  comes_before column ascending s t = true →
  comes_before column ascending r t = true.
Proof.
  destruct ascending.
  - rewrite !comes_before_ascending. eauto using pg_compare_trans.
  - rewrite !comes_before_descending. eauto using pg_compare_trans.
Qed.

Lemma insert_sorted_sorted (before : Obj → Obj → bool) (r : Obj)
  (sorted : list Obj) :
  (∀ x y, before x y = false → before y x = true) →
  (∀ x y z, before x y = true → before y z = true → before x z = true) →
  StronglySorted (λ x y, before x y = true) sorted →
  StronglySorted (λ x y, before x y = true) (insert_sorted before r sorted).
Proof.
  intros Htotal Htrans. induction sorted as [| s rest IH]; simpl.
  - intros _. by repeat constructor.
  - intros [Hs Hrest]%StronglySorted_cons.
    destruct (before r s) eqn:Hrs; apply StronglySorted_cons.
    + split; [| by apply StronglySorted_cons].
      constructor; [done |].
      eapply Forall_impl; [exact Hs |]. intros x Hx. by eapply Htrans.
    + split; [| by apply IH].
      apply Forall_forall. intros x [-> | Hx]%insert_sorted_elem.
      * by apply Htotal.
      * by eapply Forall_forall in Hs.
Qed.

Lemma sort_rows_sorted (column : string) (ascending : bool)
  (rows : list Obj) :
  StronglySorted (λ r s, comes_before column ascending r s = true)
    (sort_rows (comes_before column ascending) rows).
Proof.
  unfold sort_rows. induction rows as [| r rows IH]; simpl; [constructor |].
  apply insert_sorted_sorted;
    eauto using comes_before_total, comes_before_trans.
Qed.

Lemma sorted_take {A} (R : A → A → Prop) (n : nat) (l : list A) :
  StronglySorted R l → StronglySorted R (take n l).
Proof.
  rewrite <- (take_drop n l) at 1. apply StronglySorted_app_1_l.
Qed.

Lemma sorted_drop {A} (R : A → A → Prop) (n : nat) (l : list A) :
  StronglySorted R l → StronglySorted R (drop n l).
Proof.
  rewrite <- (take_drop n l) at 1. apply StronglySorted_app_1_r.
Qed.

Lemma window_sorted (R : Obj → Obj → Prop)
  (offset limit : option JsVal) (rows page : list Obj) :
  window offset limit rows = Some page →
  StronglySorted R rows → StronglySorted R page.
Proof.
  unfold window. intros Hw Hrows.
  destruct offset as [o |]; simpl in Hw.
  - destruct (as_count o) as [n |]; simpl in Hw; [| done].
    destruct limit as [l |]; simpl in Hw.
    + destruct (as_count l) as [m |]; simpl in Hw; [| done].
      injection Hw as <-. by apply sorted_take, sorted_drop.
    + injection Hw as <-. by apply sorted_drop.
  - destruct limit as [l |]; simpl in Hw.
    + destruct (as_count l) as [m |]; simpl in Hw; [| done].
      injection Hw as <-. by apply sorted_take.
    + by injection Hw as <-.
Qed.

Lemma window_length (offset : option JsVal) (limit : JsVal) (n : nat)
  (rows page : list Obj) :
  window offset (Some limit) rows = Some page →
  as_count limit = Some n → (length page ≤ n)%nat.
Proof.
  unfold window. intros Hw Hn.
  destruct (match offset with
            | None => Some rows
            | Some o => (λ n, drop n rows) <$> as_count o
            end) as [rows' |]; simpl in Hw; [| done].
  rewrite Hn in Hw. simpl in Hw. injection Hw as <-.
  rewrite length_take. lia.
Qed.

(** What [selected] selects: rows of the table that pass the filters, in
    the order asked for, no more than the limit. *)
Lemma selected_rows (q : Query) (rows page : list Obj) :
  selected q rows = Some page →
  ∀ r, r ∈ page → r ∈ rows ∧ matches_all (q_filters q) r = true.
Proof.
  unfold selected. intros Hwin r Hr.
  apply (window_subset _ _ _ _ Hwin) in Hr.
  destruct (q_order q) as [[c asc] |].
  - apply sort_rows_elem, list_elem_of_filter in Hr. tauto.
  - apply list_elem_of_filter in Hr. tauto.
Qed.

Lemma selected_sorted (q : Query) (column : string) (ascending : bool)
  (rows page : list Obj) :
  selected q rows = Some page →
  q_order q = Some (column, ascending) →
  StronglySorted (λ r s, comes_before column ascending r s = true) page.
Proof.
  unfold selected. intros Hwin Horder. rewrite Horder in Hwin.
  eapply window_sorted; [done |]. apply sort_rows_sorted.
Qed.

Lemma selected_length (q : Query) (limit : JsVal) (n : nat)
  (rows page : list Obj) :
  selected q rows = Some page →
  q_limit q = Some limit → as_count limit = Some n →
  (length page ≤ n)%nat.
Proof.
  unfold selected. intros Hwin Hlimit Hn. rewrite Hlimit in Hwin.
  by eapply window_length.
Qed.

(** A read of whole rows: either the store reports an error and there is
    no [data], or [data] is made of the selected rows. *)
Lemma pg_await_selected (q : Query) (w : World) :
  q_verb q = Some (Select "*") → q_single q = false →
  ∃ reply, pg_await q w = (reply, after_read w)
    ∧ ((truthy (error reply) = true ∧ data reply = JNull)
       ∨ (error reply = JNull
          ∧ ∃ page, data reply = JArr (JObj <$> page)
                    ∧ selected q (table w (q_table q)) = Some page)).
Proof.
  intros Hverb Hsingle. rewrite pg_await_unfold.
  unfold exec, selected. rewrite Hverb.
  destruct (faults w) as [| [e |] rest];
    [| eexists; split; [done |]; by left |];
    (destruct (window _ _ _) as [page |] eqn:Hwin;
     [| eexists; split; [done |]; by left];
     eexists; split; [done |]; right; split;
     [by unfold shape; rewrite Hsingle |];
     exists page; split; [| done];
     unfold shape; rewrite Hsingle; cbn [data ok]; by rewrite project_all).
Qed.

Lemma ranked_by_page (column : string) (page : list Obj) :
  StronglySorted (λ r s, comes_before column false r s = true) page →
  ranked_by column (JObj <$> page).
Proof.
  apply StronglySorted_fmap. intros r s Hrs ? ? [= <-] [= <-].
  by apply comes_before_descending.
Qed.

Lemma filter_with_sorted (R : JsVal → JsVal → Prop)
  (cb : JsVal → Completion bool) (l kept : list JsVal) :
  filter_with cb l = Normal kept →
  StronglySorted R l → StronglySorted R kept.
Proof.
  revert kept. induction l as [| x l IH]; intros kept; simpl.
  - by intros [= <-].
  - destruct (cb x) as [keep |]; [| done]. simpl.
    destruct (filter_with cb l) as [kept' |] eqn:Hrest; [| done]. simpl.
    intros [= <-] [Hx Hl]%StronglySorted_cons.
    specialize (IH kept' eq_refl Hl).
    destruct keep; [| done].
    apply StronglySorted_cons. split; [| done].
    apply Forall_forall. intros y Hy.
    destruct (filter_with_kept cb l kept' Hrest y Hy) as [Hin _].
    by eapply Forall_forall in Hx.
Qed.

Lemma filter_with_length (cb : JsVal → Completion bool)
  (l kept : list JsVal) :
  filter_with cb l = Normal kept → (length kept ≤ length l)%nat.
Proof.
  revert kept. induction l as [| x l IH]; intros kept; simpl.
  - by intros [= <-].
  - destruct (cb x) as [keep |]; [| done]. simpl.
    destruct (filter_with cb l) as [kept' |] eqn:Hrest; [| done]. simpl.
    intros [= <-]. specialize (IH kept' eq_refl).
    destruct keep; simpl; lia.
Qed.

(* ===================================================================== *)
(** ** The listing routes *)
(* ===================================================================== *)

Lemma run_try_catch_bind {W A B} (h : ∀ X, Eff X → W → X * W)
  (m : M A) (f : A → M B) (k : JsVal → M B) (w : W) :
  run h (try_catch (m ≫= f) k) w
  = match run h m w with
    | (Normal a, w') => run h (try_catch (f a) k) w'
    | (Throw e, w') => run h (k e) w'
    end.
Proof.
  rewrite run_try_catch, run_bind.
  destruct (run h m w) as [[a | e] w']; [by rewrite run_try_catch | done].
Qed.

Lemma filter_with_all (l : list JsVal) :
  filter_with (λ _, Normal true) l = Normal l.
Proof. induction l as [| x l IH]; simpl; [done |]. by rewrite IH. Qed.

(** The category filter of the two recommendation routes: building it
    reaches no effect, and the query it gives is the one it was given,
    possibly with one more filter. *)
Lemma category_filter_run {W} (h : ∀ X, Eff X → W → X * W)
  (categories : JsVal) (query : Query) (w : W) :
  ∃ c,
    run h (if truthy categories then
             len ← lift (js_get categories "length");
             if js_gt_num len 0
             then lift (query ▸ supabase.in_ "category" categories)
             else ret query
           else ret query) w = (c, w)
    ∧ (∀ q, c = Normal q →
            q = query ∨ ∃ l, q = supabase.with_filter (FIn "category" l) query)
    ∧ (∀ l, categories = JArr l → l ≠ [] →
            c = Normal (supabase.with_filter (FIn "category" l) query)).
Proof.
  destruct (truthy categories) eqn:Htruthy.
  - destruct (js_get_truthy categories "length" Htruthy) as [len Hlen].
    rewrite run_bind, run_lift, Hlen. tidy.
    destruct (js_gt_num len 0) eqn:Hgt.
    + rewrite run_lift. eexists. split; [done |]. split.
      * unfold supabase.in_. intros q Hq.
        destruct (js_iterate categories) as [l |]; [| done].
        injection Hq as <-. right. by exists l.
      * by intros l -> _.
    + rewrite run_ret. eexists. split; [done |]. split.
      * intros q [= <-]. by left.
      * intros l -> Hl. simpl in Hlen. injection Hlen as <-.
        destruct l; [done |]. unfold js_gt_num in Hgt.
        cbn [to_number] in Hgt. apply Z.ltb_ge in Hgt.
        cbn [length] in Hgt. lia.
  - rewrite run_ret. eexists. split; [done |]. split.
    + intros q [= <-]. by left.
    + by intros l ->.
Qed.

(** Awaiting a read of whole rows and checking its [error], as the listing
    handlers do before they answer. *)
Lemma checked_read (q : Query) (w : World) (rest : Reply → M Response)
  (label : string) :
  q_verb q = Some (Select "*") → q_single q = false →
  reply_data
    (run pg (try_catch
               (r ← await q;
                if truthy (error r) then throw (error r) else rest r)
               (respond_500 label)) w).1 = []
  ∨ ∃ reply page,
      data reply = JArr (JObj <$> page)
      ∧ selected q (table w (q_table q)) = Some page
      ∧ run pg (try_catch
                  (r ← await q;
                   if truthy (error r) then throw (error r) else rest r)
                  (respond_500 label)) w
        = run pg (try_catch (rest reply) (respond_500 label)) (after_read w).
Proof.
  intros Hverb Hsingle.
  rewrite run_try_catch, run_bind, run_await. cbn [pg].
  destruct (pg_await_selected q w Hverb Hsingle)
    as (reply & -> & [[Herr _] | (Herr & page & Hdata & Hpage)]); tidy.
  - left. rewrite Herr, run_throw. tidy. apply respond_500_no_data.
  - right. exists reply, page. split; [done |]. split; [done |].
    rewrite Herr. cbn [truthy]. by rewrite run_try_catch.
Qed.

Lemma reply_data_json {W} (h : ∀ X, Eff X → W → X * W) (v : JsVal)
  (label : string) (w : W) :
  reply_data
    (run h (try_catch
              (ret (res_json (obj [("success", JBool true); ("data", v)])))
              (respond_500 label)) w).1
  = match v with JArr l => l | _ => [] end.
Proof.
  rewrite run_try_catch, run_ret. tidy.
  unfold reply_data, res_json, payload.
  replace (obj [("success", JBool true); ("data", v)] !! "data")
    with (Some v) by (symmetry; by vm_compute).
  done.
Qed.

(** Run the category filter: the goal goes on with the query [q] it gives,
    a throw being answered by the [catch] block with no [data]. *)
Ltac run_category_filter w q Hshape Harr :=
  let c := fresh "c" in
  let Hc := fresh "Hc" in
  match goal with
  | |- context [run pg ?m w] =>
      match m with
      | (if truthy ?cs then _ else ret ?q0) =>
          destruct (category_filter_run pg cs q0 w)
            as (c & Hc & Hshape & Harr);
          match type of Hc with
          | ?lhs = _ => change (run pg m w) with lhs
          end;
          rewrite Hc; destruct c as [q | ?];
          [| left; apply respond_500_no_data]
      end
  end.

Ltac listing_query_solve :=
  repeat split; intros; simplify_eq/=; try done;
  repeat split; try done; set_solver.

(** What a listing route answers with: nothing, or what the callback of a
    [filter] keeps of the rows its query selects. *)
Lemma listing_page (w : World) (route : Route) (req : Request) :
  is_listing route = true →
  reply_data (run pg (handler route req) w).1 = []
  ∨ ∃ q page cb,
      listing_query route req q
      ∧ selected q (table w (q_table q)) = Some page
      ∧ filter_with cb (JObj <$> page)
        = Normal (reply_data (run pg (handler route req) w).1).
Proof.
  destruct route; try done; intros _; cbn [handler].
  - (* GET /api/articles *)
    unfold get_api_articles.
    match goal with
    | |- context [await ?q] =>
        destruct (checked_read q w
                    (λ r, ret (res_json (obj [("success", JBool true);
                                              ("data", data r)])))
                    "Error fetching articles:")
          as [Hnone | (reply & page & Hdata & Hpage & Hrun)];
        [by destruct (truthy _ && _) | by destruct (truthy _ && _)
        | by left |]
    end.
    right. eexists _, page, (λ _, Normal true).
    split; [| split; [exact Hpage |]].
    + destruct (truthy _ && _); listing_query_solve.
    + rewrite Hrun, reply_data_json, Hdata. apply filter_with_all.
  - (* GET /api/articles/trending *)
    unfold get_api_articles_trending.
    match goal with
    | |- context [await ?q] =>
        destruct (checked_read q w
                    (λ r, ret (res_json (obj [("success", JBool true);
                                              ("data", data r)])))
                    "Error fetching trending articles:" eq_refl eq_refl)
          as [Hnone | (reply & page & Hdata & Hpage & Hrun)];
        [by left |]
    end.
    right. eexists _, page, (λ _, Normal true).
    split; [| split; [exact Hpage |]].
    + listing_query_solve.
    + rewrite Hrun, reply_data_json, Hdata. apply filter_with_all.
  - (* GET /api/tags/trending *)
    unfold get_api_tags_trending.
    match goal with
    | |- context [await ?q] =>
        destruct (checked_read q w
                    (λ r, ret (res_json (obj [("success", JBool true);
                                              ("data", data r)])))
                    "Error fetching trending tags:" eq_refl eq_refl)
          as [Hnone | (reply & page & Hdata & Hpage & Hrun)];
        [by left |]
    end.
    right. eexists _, page, (λ _, Normal true).
    split; [| split; [exact Hpage |]].
    + listing_query_solve.
    + rewrite Hrun, reply_data_json, Hdata. apply filter_with_all.
  - (* POST /api/recommendations/articles *)
    unfold post_api_recommendations_articles. cbv zeta.
    rewrite run_try_catch_bind.
    run_category_filter w q Hshape Harr.
    match goal with
    | |- context [js_filter _ ?f] => set (cb := f)
    end.
    destruct (checked_read q w
                (λ r, filteredData ← lift (js_filter (data r) cb);
                      ret (res_json (obj [("success", JBool true);
                                          ("data", filteredData)])))
                "Error getting recommendations:")
      as [Hnone | (reply & page & Hdata & Hpage & Hrun)];
      [by destruct (Hshape q eq_refl) as [-> | [l ->]]
      | by destruct (Hshape q eq_refl) as [-> | [l ->]]
      | by left |].
    rewrite Hrun, Hdata, run_try_catch_bind, run_lift. unfold js_filter.
    destruct (filter_with cb (JObj <$> page)) as [kept | e] eqn:Hkept;
      [| left; apply respond_500_no_data].
    right. exists q, page, cb. split; [| split; [exact Hpage |]].
    + assert (q_verb q = Some (Select "*") ∧ q_single q = false
              ∧ q_table q = "articles"
              ∧ q_order q = Some ("published_at", false)
              ∧ q_limit q = Some (JNum 10)) as (? & ? & ? & ? & ?)
        by (by destruct (Hshape q eq_refl) as [-> | [l ->]]).
      split_and!; try done; try (by intros name column [= <- <-]);
        try (by intros limit [= <-]); [].
      intros name l [= <-] Hbody Hl.
      specialize (Harr l (field_lookup _ _ _ Hbody) Hl) as [= ->].
      split; [done | set_solver].
    + rewrite Hkept. by f_equal.
  - (* POST /api/recommendations/products *)
    unfold post_api_recommendations_products. cbv zeta.
    rewrite run_try_catch_bind.
    run_category_filter w q Hshape Harr.
    destruct (checked_read q w
                (λ r, ret (res_json (obj [("success", JBool true);
                                          ("data", data r)])))
                "Error getting product recommendations:")
      as [Hnone | (reply & page & Hdata & Hpage & Hrun)];
      [by destruct (Hshape q eq_refl) as [-> | [l ->]]
      | by destruct (Hshape q eq_refl) as [-> | [l ->]]
      | by left |].
    right. exists q, page, (λ _, Normal true).
    split; [| split; [exact Hpage |]].
    + assert (q_verb q = Some (Select "*") ∧ q_single q = false
              ∧ q_table q = "products"
              ∧ q_limit q = Some (JNum 5)) as (? & ? & ? & ?)
        by (by destruct (Hshape q eq_refl) as [-> | [l ->]]).
      split_and!; try done; try (by intros limit [= <-]); [].
      intros name l [= <-] Hbody Hl.
      specialize (Harr l (field_lookup _ _ _ Hbody) Hl) as [= ->].
      split; [done | set_solver].
    + rewrite Hrun, reply_data_json, Hdata. apply filter_with_all.
Qed.

Lemma ranking_is_listing (route : Route) (name column : string) :
  ranking route = Some (name, column) → is_listing route = true.
Proof. by destruct route. Qed.

Lemma listed_rows (w : World) (q : Query) (page : list Obj)
  (cb : JsVal → Completion bool) (kept : list JsVal) (a : JsVal) :
  selected q (table w (q_table q)) = Some page →
  filter_with cb (JObj <$> page) = Normal kept →
  a ∈ kept →
  ∃ r, a = JObj r ∧ r ∈ table w (q_table q)
       ∧ matches_all (q_filters q) r = true.
Proof.
  intros Hpage Hkept Ha.
  destruct (filter_with_kept _ _ _ Hkept a Ha) as [Hin _].
  apply list_elem_of_fmap in Hin as (r & -> & Hr).
  destruct (selected_rows _ _ _ Hpage r Hr). eauto.
Qed.

Lemma matches_all_elem (fs : list Filter) (f : Filter) (r : Obj) :
  matches_all fs r = true → f ∈ fs → matches r f = true.
Proof.
  unfold matches_all. rewrite forallb_forall.
  intros Hall Hf. apply Hall. by apply list_elem_of_In.
Qed.

(** The rows of [GET /api/articles], [GET /api/articles/trending],
    [GET /api/tags/trending] and [POST /api/recommendations/articles] are
    rows of the table, greatest value of the ranking column first:
    [published_at] for the two article lists, [reaction_count] for the
    trending articles, [count] for the trending tags. *)
Theorem listings_are_ranked
  (w : World) (route : Route) (req : Request) (name column : string) :
  ranking route = Some (name, column) →
  ranked_by column (reply_data (run pg (handler route req) w).1)
  ∧ ∀ a, a ∈ reply_data (run pg (handler route req) w).1 →
         ∃ r, a = JObj r ∧ r ∈ table w name.
Proof.
  intros Hranking.
  destruct (listing_page w route req
              (ranking_is_listing _ _ _ Hranking))
    as [-> | (q & page & cb & Hq & Hpage & Hkept)].
  - split; [constructor | by intros a ?%elem_of_nil].
  - destruct Hq as (_ & _ & Hrank & _).
    destruct (Hrank _ _ Hranking) as [Htable Horder]. split.
    + eapply filter_with_sorted; [exact Hkept |].
      apply ranked_by_page. by eapply selected_sorted.
    + intros a Ha.
      destruct (listed_rows _ _ _ _ _ _ Hpage Hkept Ha) as (r & -> & Hr & _).
      exists r. by rewrite <- Htable.
Qed.

Lemma listings_are_ranked_witness :
  let l := reply_data
             (run pg (handler ListArticles (request [] [])) demo_world).1 in
  length l = 3%nat
  ∧ ranked_by "published_at" l
  ∧ ∀ a, a ∈ l → ∃ r, a = JObj r ∧ r ∈ table demo_world "articles".
Proof.
  intros l. split; [by vm_compute |].
  exact (listings_are_ranked demo_world ListArticles (request [] [])
           "articles" "published_at" eq_refl).
Defined.

(** Every row of [GET /api/articles/trending] and of
    [GET /api/tags/trending] is a row of the table whose [is_trending] is
    true. *)
Theorem trending_rows_are_flagged
  (w : World) (route : Route) (req : Request) (name : string) (a : JsVal) :
  trending_table route = Some name →
  a ∈ reply_data (run pg (handler route req) w).1 →
  ∃ r, a = JObj r ∧ r ∈ table w name ∧ flagged_trending r.
Proof.
  intros Htrending.
  destruct (listing_page w route req)
    as [-> | (q & page & cb & Hq & Hpage & Hkept)];
    [by destruct route | by intros ?%elem_of_nil |].
  intros Ha.
  destruct Hq as (_ & _ & _ & Hflag & _).
  destruct (Hflag _ Htrending) as [Htable Hfilter].
  destruct (listed_rows _ _ _ _ _ _ Hpage Hkept Ha) as (r & -> & Hr & Hall).
  exists r. split; [done |]. split; [by rewrite <- Htable |].
  apply (matches_all_elem _ _ _ Hall), pg_eq_text in Hfilter
    as (v & Hv & Htext).
  by exists v.
Qed.

(** Every reply of a route that passes a row limit to the store has at most
    that many rows: [limit] (10 when the request has none) for the trending
    articles and tags, 10 for the recommended articles, 5 for the
    recommended products. *)
Theorem replies_respect_row_limit
  (w : World) (route : Route) (req : Request) (limit : JsVal) (n : nat) :
  row_limit route req = Some limit →
  as_count limit = Some n →
  (length (reply_data (run pg (handler route req) w).1) ≤ n)%nat.
Proof.
  intros Hlimit Hn.
  destruct (listing_page w route req)
    as [-> | (q & page & cb & Hq & Hpage & Hkept)];
    [by destruct route | simpl; lia |].
  destruct Hq as (_ & _ & _ & _ & Hlim & _).
  apply filter_with_length in Hkept. rewrite length_fmap in Hkept.
  pose proof (selected_length _ _ _ _ _ Hpage (Hlim _ Hlimit) Hn). lia.
Qed.

(** When [categories] is a non-empty array, every row the two
    recommendation routes answer with is a row of the table whose category
    is, as text, one of [categories]. *)
Theorem recommended_rows_match_categories
  (w : World) (route : Route) (req : Request) (name : string)
  (l : list JsVal) (a : JsVal) :
  recommended_table route = Some name →
  req_body req !! "categories" = Some (JArr l) →
  l ≠ [] →
  a ∈ reply_data (run pg (handler route req) w).1 →
  category_among l a ∧ ∃ r, a = JObj r ∧ r ∈ table w name.
Proof.
  intros Hroute Hbody Hl.
  destruct (listing_page w route req)
    as [-> | (q & page & cb & Hq & Hpage & Hkept)];
    [by destruct route | by intros ?%elem_of_nil |].
  intros Ha.
  destruct Hq as (_ & _ & _ & _ & _ & Hcat).
  destruct (Hcat _ _ Hroute Hbody Hl) as [Htable Hfilter].
  destruct (listed_rows _ _ _ _ _ _ Hpage Hkept Ha) as (r & -> & Hr & Hall).
  split; [| exists r; by rewrite <- Htable].
  apply (matches_all_elem _ _ _ Hall) in Hfilter. simpl in Hfilter.
  apply existsb_exists in Hfilter as (c & Hc%list_elem_of_In & Heq).
  apply pg_eq_text in Heq as (v & Hv & Htext).
  exists c. split; [done |]. by exists r, v.
Qed.

Lemma trending_rows_are_flagged_witness :
  ∃ a, a ∈ reply_data
             (run pg (handler TrendingArticles (request [] []))
                demo_ingested).1
       ∧ ∃ r, a = JObj r ∧ r ∈ table demo_ingested "articles"
              ∧ flagged_trending r.
Proof.
  assert (∃ a, a ∈ reply_data
                     (run pg (handler TrendingArticles (request [] []))
                        demo_ingested).1) as [a Ha]
    by (vm_compute; eexists; apply list_elem_of_here).
  exists a. split; [exact Ha |].
  exact (trending_rows_are_flagged demo_ingested TrendingArticles
           (request [] []) "articles" a eq_refl Ha).
Defined.

Lemma replies_respect_row_limit_witness :
  let req := request [("limit", JStr (utf16 "2"))] [] in
  length (table demo_ingested "articles") = 3%nat
  ∧ (length (reply_data
               (run pg (handler TrendingArticles req) demo_ingested).1)
     ≤ 2)%nat.
Proof.
  intros req. split; [by vm_compute |].
  apply (replies_respect_row_limit demo_ingested TrendingArticles req
           (JStr (utf16 "2")) 2); by vm_compute.
Defined.

Lemma recommended_rows_match_categories_witness :
  let req := request [] [("categories", JArr [JStr (utf16 "anime")])] in
  demo_article_a3
    ∈ reply_data (run pg (handler RecommendArticles req) demo_world).1
  ∧ category_among [JStr (utf16 "anime")] demo_article_a3.
Proof.
  intros req.
  assert (demo_article_a3
            ∈ reply_data (run pg (handler RecommendArticles req) demo_world).1)
    as Ha by (vm_compute; apply list_elem_of_here).
  split; [exact Ha |].
  refine (proj1 (recommended_rows_match_categories demo_world
                   RecommendArticles req "articles"
                   [JStr (utf16 "anime")] demo_article_a3 eq_refl _ _ Ha));
    [by vm_compute | done].
Defined.

(* ===================================================================== *)
(** ** Numbers as text *)
(* ===================================================================== *)

Lemma utf16_digit (d : N) (s : string) :
  (d < 10)%N →
  utf16 (String (pretty_N_char d) s) = (48 + d)%N :: utf16 s.
Proof.
  intros Hd.
  assert (d = 0 ∨ d = 1 ∨ d = 2 ∨ d = 3 ∨ d = 4 ∨ d = 5 ∨ d = 6 ∨ d = 7
          ∨ d = 8 ∨ d = 9)%N as Hcases by lia.
  destruct_or! Hcases; subst d; reflexivity.
Qed.

Lemma digits_value_app (acc : Z) (ds rest : jsstring) :
  Forall (λ c, 48 ≤ c ≤ 57)%N ds →
  digits_value acc (ds ++ rest)
  = digits_value (fold_left (λ a c, 10 * a + Z.of_N (c - 48)) ds acc) rest.
Proof.
  intros Hds. revert acc.
  induction Hds as [| c ds [Hlo Hhi] _ IH]; intros acc; simpl; [done |].
  apply N.leb_le in Hlo, Hhi. rewrite Hlo, Hhi. simpl. apply IH.
Qed.

Lemma digits_value_all (acc : Z) (ds : jsstring) :
  Forall (λ c, 48 ≤ c ≤ 57)%N ds →
  digits_value acc ds
  = Some (fold_left (λ a c, 10 * a + Z.of_N (c - 48)) ds acc).
Proof.
  intros Hds. rewrite <- (app_nil_r ds) at 1. by rewrite digits_value_app.
Qed.

(** The digits [pretty] writes for [x], most significant first. *)
Lemma pretty_N_go_digits (x : N) (s : string) :
  ∃ ds, utf16 (pretty_N_go x s) = ds ++ utf16 s
        ∧ Forall (λ c, 48 ≤ c ≤ 57)%N ds
        ∧ fold_left (λ a c, 10 * a + Z.of_N (c - 48)) ds 0 = Z.of_N x
        ∧ ((0 < x)%N → ds ≠ []).
Proof.
  revert s. induction (N.lt_wf_0 x) as [x _ IH]; intros s.
  assert (x = 0 ∨ 0 < x)%N as [-> | Hpos] by lia.
  - exists []. rewrite pretty_N_go_0. repeat split; [constructor | lia].
  - rewrite pretty_N_go_step by done.
    destruct (IH (x `div` 10)%N (N.div_lt x 10 Hpos eq_refl)
                (String (pretty_N_char (x `mod` 10)) s))
      as (ds & Heq & Hds & Hval & _).
    assert (x `mod` 10 < 10)%N as Hmod by (by apply N.mod_lt).
    pose proof (N.div_mod x 10 ltac:(done)) as Hdiv.
    rewrite Heq, utf16_digit by done.
    exists (ds ++ [(48 + x `mod` 10)%N]).
    split; [by rewrite <- app_assoc |].
    revert Hval Hmod Hdiv.
    generalize (x `mod` 10)%N (x `div` 10)%N. intros d q Hval Hmod Hdiv.
    split; [| split].
    + apply Forall_app. split; [done |]. apply Forall_singleton.
      cbv beta. lia.
    + rewrite fold_left_app, Hval. simpl. lia.
    + intros _. by destruct ds.
Qed.

Lemma digit_not_blank (c : N) : (48 ≤ c ≤ 57)%N → is_blank c = false.
Proof.
  intros Hc. unfold is_blank.
  destruct (N.eqb_spec c 32); [lia |]. destruct (N.eqb_spec c 9); [lia |].
  destruct (N.eqb_spec c 10); [lia |]. by destruct (N.eqb_spec c 13); [lia |].
Qed.

Lemma trim_solid (s : jsstring) :
  (∀ c, head s = Some c → is_blank c = false) →
  (∀ c, last s = Some c → is_blank c = false) →
  trim s = s.
Proof.
  intros Hhead Hlast. unfold trim.
  assert (∀ l, (∀ c, head l = Some c → is_blank c = false) →
               trim_left l = l) as Hleft.
  { intros [| c l] Hl; [done |]. simpl. by rewrite (Hl c eq_refl). }
  rewrite (Hleft s Hhead), Hleft, reverse_involutive; [done |].
  intros c. rewrite head_reverse. apply Hlast.
Qed.

Lemma digits_solid (ds : jsstring) :
  Forall (λ c, 48 ≤ c ≤ 57)%N ds →
  (∀ c, head ds = Some c → is_blank c = false)
  ∧ (∀ c, last ds = Some c → is_blank c = false).
Proof.
  intros Hds. rewrite Forall_forall in Hds.
  split; intros c Hc; apply digit_not_blank, Hds.
  - by apply head_Some_elem_of.
  - by apply last_Some_elem_of.
Qed.

Lemma digits_to_number (ds : jsstring) :
  Forall (λ c, 48 ≤ c ≤ 57)%N ds → ds ≠ [] →
  string_to_number ds
  = Some (fold_left (λ a c, 10 * a + Z.of_N (c - 48)) ds 0).
Proof.
  intros Hds Hne. unfold string_to_number.
  destruct (digits_solid ds Hds) as [Hhead Hlast].
  rewrite trim_solid by done.
  destruct ds as [| c t] eqn:Heq; [done |]. rewrite <- Heq.
  assert (48 ≤ c ≤ 57)%N as Hc by (by inversion Hds).
  destruct (N.eqb_spec c 45); [lia |].
  destruct (N.eqb_spec c 43); [lia |].
  apply digits_value_all. by subst.
Qed.

Lemma positive_round_trip (p : positive) :
  ∃ ds, utf16 (pretty (N.pos p)) = ds
        ∧ Forall (λ c, 48 ≤ c ≤ 57)%N ds ∧ ds ≠ []
        ∧ string_to_number ds = Some (Z.pos p).
Proof.
  destruct (pretty_N_go_digits (N.pos p) "")
    as (ds & Heq & Hds & Hval & Hne).
  exists ds. unfold pretty, pretty_N. rewrite decide_False by done.
  rewrite Heq, app_nil_r. split; [done |]. split; [done |].
  split; [by apply Hne |].
  rewrite digits_to_number by (by try apply Hne). by rewrite Hval.
Qed.

(** A number written as text reads back as itself. *)
Lemma number_round_trip (n : Z) :
  string_to_number (to_string (JNum n)) = Some n.
Proof.
  destruct n as [| p | p]; cbn [to_string].
  - done.
  - destruct (positive_round_trip p) as (ds & <- & _ & _ & Hval). done.
  - destruct (positive_round_trip p) as (ds & Heq & Hds & Hne & Hval).
    change (pretty (Z.neg p)) with ("-" +:+ pretty (N.pos p)).
    change (utf16 ("-" +:+ pretty (N.pos p)))
      with (45%N :: utf16 (pretty (N.pos p))).
    rewrite Heq. unfold string_to_number.
    destruct (digits_solid ds Hds) as [Hhead Hlast].
    rewrite trim_solid.
    + change (45 =? 45)%N with true. cbv iota.
      rewrite digits_value_all by done.
      rewrite digits_to_number in Hval by done. injection Hval as ->.
      by destruct ds.
    + by intros c [= <-].
    + intros c Hc. apply Hlast. by destruct ds.
Qed.

Lemma as_count_number (n : Z) :
  as_count (JNum n) = if 0 <=? n then Some (Z.to_nat n) else None.
Proof. unfold as_count. by rewrite number_round_trip. Qed.

(** A value that reads as a count is the same number in arithmetic. *)
Lemma as_count_to_number (v : JsVal) (o : nat) :
  as_count v = Some o → to_number v = Some (Z.of_nat o).
Proof.
  unfold as_count.
  destruct (string_to_number (to_string v)) as [n |] eqn:Hn; [| done].
  simpl. destruct (Z.leb_spec 0 n); [| done]. intros [= <-].
  rewrite Z2Nat.id by done.
  destruct v as [| | [] | m | | | |]; try done.
  by rewrite number_round_trip in Hn.
Qed.

(* ===================================================================== *)
(** ** GET /api/articles: the page *)
(* ===================================================================== *)

Lemma pg_await_selected_healthy (q : Query) (w : World) :
  healthy w → q_verb q = Some (Select "*") → q_single q = false →
  pg_await q w
  = (match selected q (table w (q_table q)) with
     | Some page => ok (JArr (JObj <$> page))
     | None => failed PGRST103
     end, after_read w).
Proof.
  intros Hw Hverb Hsingle. rewrite pg_await_healthy by done.
  unfold exec, selected. rewrite Hverb.
  destruct (window _ _ _) as [page |]; [| done].
  unfold shape. by rewrite Hsingle, project_all.
Qed.

(** The limit [.range(offset, offset + limit - 1)] sends to the store. *)
Lemma range_limit (offset limit : JsVal) (o : nat) (t : Z) :
  as_count offset = Some o →
  to_number (js_add offset limit) = Some t →
  js_add (js_sub (js_sub (js_add offset limit) (JNum 1)) offset) (JNum 1)
  = JNum (t - Z.of_nat o).
Proof.
  intros Ho%as_count_to_number Ht.
  unfold js_sub. rewrite Ht. cbn [mbind option_bind to_number of_number].
  rewrite Ho. cbn [mbind option_bind to_number of_number].
  unfold js_add. cbn. f_equal. lia.
Qed.

Lemma window_range (offset : JsVal) (o : nat) (k : Z) (rows : list Obj) :
  as_count offset = Some o →
  window (Some offset) (Some (JNum k)) rows
  = if 0 <=? k then Some (take (Z.to_nat k) (drop o rows)) else None.
Proof.
  intros Ho. unfold window. rewrite Ho, as_count_number. cbn.
  by destruct (0 <=? k).
Qed.

(** The page in terms of what the store reads in [offset] and what
    [offset + limit] evaluates to. *)
Lemma page_of_counts
  (w : World) (req : Request) (o : nat) (t : Z) :
  let offset := or_default (field (req_query req) "offset") (JNum 0) in
  let limit := or_default (field (req_query req) "limit") (JNum 20) in
  healthy w →
  as_count offset = Some o →
  to_number (js_add offset limit) = Some t →
  reply_data (run pg (get_api_articles req) w).1
  = JObj <$> take (Z.to_nat (t - Z.of_nat o)) (drop o (listed_articles req w)).
Proof.
  intros offset limit Hw Ho Ht.
  unfold get_api_articles. cbv zeta. fold offset limit.
  rewrite run_try_catch_bind, run_await. cbn [pg].
  rewrite pg_await_selected_healthy;
    [| done | by destruct (truthy _ && _) | by destruct (truthy _ && _)].
  tidy.
  match goal with
  | |- context [selected ?q ?rows] =>
      assert (selected q rows
              = if 0 <=? t - Z.of_nat o
                then Some (take (Z.to_nat (t - Z.of_nat o))
                             (drop o (listed_articles req w)))
                else None) as ->
  end.
  { unfold listed_articles, category_filters, selected.
    destruct (truthy _ && _); cbn [q_filters q_order q_offset q_limit q_table
      supabase.eq supabase.with_filter supabase.range supabase.order
      supabase.select supabase.with_verb supabase.from q_verb app];
      by rewrite (range_limit _ _ _ _ Ho Ht), (window_range _ _ _ _ Ho). }
  destruct (Z.leb_spec 0 (t - Z.of_nat o)) as [Hk | Hk].
  - cbn [error ok truthy data]. apply reply_data_json.
  - cbn [error failed]. rewrite truthy_pg_error_val.
    rewrite run_try_catch, run_throw. tidy.
    rewrite respond_500_no_data.
    replace (Z.to_nat (t - Z.of_nat o)) with 0%nat by lia. done.
Qed.

Lemma decimal_value_from (s : jsstring) (acc : Z) :
  0 ≤ acc → 0 ≤ fold_left (λ a c, 10 * a + Z.of_N (c - 48)) s acc.
Proof.
  revert acc. induction s as [| c s IH]; intros acc Hacc; simpl; [done |].
  apply IH. lia.
Qed.

Lemma decimal_value_nonneg (s : jsstring) : 0 ≤ decimal_value s.
Proof. by apply decimal_value_from. Qed.

Lemma decimal_to_number (s : jsstring) :
  decimal s → string_to_number s = Some (decimal_value s).
Proof. intros [Hne Hs]. by apply digits_to_number. Qed.

Lemma decimal_app (s t : jsstring) : decimal s → decimal t → decimal (s ++ t).
Proof.
  intros [Hs Hds] [_ Hdt]. split; [by destruct s | by apply Forall_app].
Qed.

(** What the handler holds in [offset] or [limit] for a parameter whose
    text is [s]: the text itself, or the numeric default. *)
Lemma query_text_value (req : Request) (name : string) (dflt : Z)
  (s : jsstring) :
  query_text req name dflt s →
  or_default (field (req_query req) name) (JNum dflt) = JStr s
  ∨ (or_default (field (req_query req) name) (JNum dflt) = JNum dflt
     ∧ s = to_string (JNum dflt)).
Proof.
  unfold query_text, field.
  destruct (req_query req !! name) as [[] |]; try done.
  - intros ->. by left.
  - intros ->. by right.
Qed.

(** [GET /api/articles] on a store that answers, for an [offset] and a
    [limit] that are each left out or given in decimal digits. The handler
    asks for the rows from [offset] to [offset + limit - 1], and [+] joins
    two texts: with [o] the number [offset] writes, 0 when it is left out,
    and [t] the number written by the digits of [offset] followed by those
    of [limit], 0 and 20 standing in for the one left out, the reply holds
    the [t - o] articles from position [o] of the listing. [t] is below
    2^53, so that the arithmetic on it is exact. *)
Theorem listed_page_is_a_window
  (w : World) (req : Request) (offset limit : jsstring) :
  let o := decimal_value offset in
  let t := decimal_value (offset ++ limit) in
  healthy w →
  query_text req "offset" 0 offset →
  query_text req "limit" 20 limit →
  decimal offset →
  decimal limit →
  t < 2 ^ 53 →
  reply_data (run pg (get_api_articles req) w).1
  = JObj <$> take (Z.to_nat (t - o))
               (drop (Z.to_nat o) (listed_articles req w)).
Proof.
  intros o t Hw Hoffset Hlimit Hdo Hdl _.
  pose proof (decimal_value_nonneg offset) as Hpos. fold o in Hpos.
  rewrite <- (Z2Nat.id o) at 1 by done.
  apply page_of_counts; [done | |].
  - destruct (query_text_value _ _ _ _ Hoffset) as [-> | [-> Htext]].
    + unfold as_count. cbn [to_string]. rewrite decimal_to_number by done.
      simpl. fold o. by destruct (Z.leb_spec 0 o); [| lia].
    + rewrite as_count_number. simpl. f_equal. unfold o. by rewrite Htext.
  - assert (to_number (JStr (offset ++ limit)) = Some t) as Hjoined.
    { cbn [to_number]. by apply decimal_to_number, decimal_app. }
    destruct (query_text_value _ _ _ _ Hoffset) as [-> | [-> Ho]];
      destruct (query_text_value _ _ _ _ Hlimit) as [-> | [-> Hl]].
    + exact Hjoined.
    + unfold js_add. cbn [to_primitive is_string orb]. by rewrite <- Hl.
    + unfold js_add. cbn [to_primitive is_string orb].
      rewrite <- Ho. exact Hjoined.
    + unfold t. by rewrite Ho, Hl.
Qed.

Lemma listed_page_is_a_window_witness :
  let req := request [("offset", JStr (utf16 "1"));
                      ("limit", JStr (utf16 "1"))] [] in
  length (listed_articles req demo_world) = 3%nat
  ∧ decimal_value (utf16 "1") = 1
  ∧ decimal_value (utf16 "1" ++ utf16 "1") = 11
  ∧ reply_data (run pg (get_api_articles req) demo_world).1
    = JObj <$> take (Z.to_nat (11 - 1))
                 (drop (Z.to_nat 1) (listed_articles req demo_world))
  ∧ length (reply_data (run pg (get_api_articles req) demo_world).1) = 2%nat.
Proof.
  intros req. split; [by vm_compute |]. split; [done |]. split; [done |].
  split; [| by vm_compute].
  assert (decimal (utf16 "1")) as Hone.
  { change (utf16 "1") with [49%N]. split; [done |].
    apply Forall_singleton. cbv beta. lia. }
  apply (listed_page_is_a_window demo_world req (utf16 "1") (utf16 "1"));
    [done | done | done | exact Hone | exact Hone | by vm_compute].
Defined.

(* ===================================================================== *)
(** ** GET /api/articles/:id *)
(* ===================================================================== *)

Lemma pg_await_related (name : string) (id : JsVal) (w : World) :
  healthy w →
  pg_await (supabase.from name ▸ supabase.select "*"
              ▸ supabase.eq "article_id" id
              ▸ supabase.order "created_at" false) w
  = (ok (JArr (related name id w)), after_read w).
Proof. intros Hw. by rewrite pg_await_selected_healthy. Qed.

Lemma sent_singleton (key : string) (v : JsVal) :
  is_undefined v = false → sent (obj [(key, v)]) = {[ key := v ]}.
Proof. intros Hv. by rewrite sent_cons_defined, sent_nil. Qed.

Lemma rows_where_with_views (id : JsVal) (n : Z) (rows : list Obj) :
  rows_where "id" id (with_views id n rows)
  = (λ r, <["view_count" := JNum n]> r) <$> rows_where "id" id rows.
Proof.
  unfold rows_where, with_views, matches_all.
  induction rows as [| r rows IH]; [done |].
  rewrite fmap_cons, !filter_cons, IH. cbn [forallb matches].
  destruct (pg_eq (r !! "id") id) eqn:Hr.
  - rewrite lookup_insert_ne by done. rewrite Hr. cbn [andb].
    rewrite !decide_True by done. done.
  - rewrite Hr. cbn [andb]. rewrite !decide_False by done. done.
Qed.

(** [GET /api/articles/:id] on a store that answers, for an id that one
    article has, with a [view_count] n that is a safe integer: the reply is
    that article as it was read, count n, with its reactions and its
    comments, newest first; afterwards the article's count is n + 1, and
    nothing else in the store has changed. *)
Theorem article_view_is_counted
  (w : World) (req : Request) (article : Obj) (n : Z) :
  let id := field (req_params req) "id" in
  healthy w →
  rows_where "id" id (table w "articles") = [article] →
  article !! "view_count" = Some (JNum n) →
  safe_integer n →
  ∃ w',
    run pg (get_api_articles_id req) w
    = (Normal (article_detail article id w), w')
    ∧ tables w'
      = <["articles" := with_views id (n + 1) (table w "articles")]> (tables w)
    ∧ rows_where "id" id (table w' "articles")
      = [<["view_count" := JNum (n + 1)]> article].
Proof.
  intros id Hw Hone Hcount _. unfold get_api_articles_id. cbv zeta. fold id.
  rewrite run_try_catch, run_bind, run_await. cbn [pg].
  rewrite (pg_await_healthy _ _ Hw), exec_select_single. tidy.
  simpl (q_table _). rewrite project_all, Hone. cbn [error ok truthy data].
  set (w1 := after_read w).
  assert (healthy w1) as Hw1 by by apply healthy_after_read.
  rewrite run_bind, run_await. cbn [pg].
  rewrite (pg_await_related _ _ _ Hw1). tidy. cbn [error ok truthy data].
  set (w2 := after_read w1).
  assert (healthy w2) as Hw2 by by apply healthy_after_read.
  rewrite run_bind, run_await. cbn [pg].
  rewrite (pg_await_related _ _ _ Hw2). tidy. cbn [error ok truthy data].
  set (w3 := after_read w2).
  assert (healthy w3) as Hw3 by by apply healthy_after_read.
  rewrite run_bind, run_lift. cbn [js_get]. rewrite Hcount.
  change (default JUndefined (Some (JNum n))) with (JNum n). tidy.
  change (js_add (JNum n) (JNum 1)) with (JNum (n + 1)).
  rewrite sent_singleton by done.
  rewrite run_bind, run_await. cbn [pg].
  rewrite (pg_await_healthy _ _ Hw3), exec_update. tidy.
  rewrite run_ret. tidy. cbn [js_spread]. simpl (q_table _).
  eexists. split; [reflexivity |].
  assert (patch_row [FEq "id" id] {["view_count" := JNum (n + 1)]}
            <$> table w3 "articles"
          = with_views id (n + 1) (table w "articles")) as Hrows.
  { unfold with_views. apply list_fmap_ext. intros _ r _.
    apply patch_row_singleton. }
  split.
  - unfold after_write. cbn [tables set_store]. by rewrite Hrows.
  - rewrite table_after_write, Hrows, rows_where_with_views, Hone. done.
Qed.

Lemma article_view_is_counted_witness :
  let req := {| req_query := ∅;
                req_params := obj [("id", JStr (utf16 "a1"))];
                req_body := ∅ |} in
  let w' := (run pg (get_api_articles_id req) demo_viewed_world).2 in
  healthy demo_viewed_world
  ∧ safe_integer 41
  ∧ reply_status (run pg (get_api_articles_id req) demo_viewed_world).1
    = Some 200
  ∧ rows_where "id" (JStr (utf16 "a1")) (table w' "articles")
    = [obj [("id", JStr (utf16 "a1")); ("view_count", JNum 42)]].
Proof.
  intros req w'. split; [done |].
  assert (safe_integer 41) as Hsafe by (unfold safe_integer; lia).
  split; [exact Hsafe |].
  destruct (article_view_is_counted demo_viewed_world req
              (obj [("id", JStr (utf16 "a1")); ("view_count", JNum 41)]) 41)
    as (w1 & Hrun & _ & Hrows);
    [done | by vm_compute | by vm_compute | exact Hsafe |].
  unfold w'. rewrite Hrun. split; [done |].
  etrans; [exact Hrows |]. by vm_compute.
Defined.

(** [GET /api/articles/:id] for an id that no article has, or that several
    have: the store's complaint about [.single()] is answered as a failure
    of the server, status 500, and nothing is counted. *)
Theorem unknown_article_answers_500 (w : World) (req : Request) :
  let id := field (req_params req) "id" in
  healthy w →
  length (rows_where "id" id (table w "articles")) ≠ 1%nat →
  run pg (get_api_articles_id req) w
  = (Normal (store_failure PGRST116),
     print (ErrorLine (utf16 "Error fetching article:")
              (pg_error_val PGRST116)) (after_read w)).
Proof.
  intros id Hw Hnone. unfold get_api_articles_id. cbv zeta. fold id.
  rewrite run_try_catch, run_bind, run_await. cbn [pg].
  rewrite (pg_await_healthy _ _ Hw), exec_select_single. tidy.
  simpl (q_table _). rewrite project_all.
  assert (match rows_where "id" id (table w "articles") with
          | [r] => ok (JObj r)
          | _ => failed PGRST116
          end = failed PGRST116) as ->.
  { by destruct (rows_where "id" id (table w "articles")) as [| r [| s l]]. }
  cbn [error failed]. rewrite truthy_pg_error_val, run_throw. tidy.
  apply respond_500_store_failure.
Qed.

Lemma unknown_article_answers_500_witness :
  let req := {| req_query := ∅;
                req_params := obj [("id", JStr (utf16 "a9"))];
                req_body := ∅ |} in
  reply_status (run pg (get_api_articles_id req) demo_viewed_world).1
  = Some 500
  ∧ tables (run pg (get_api_articles_id req) demo_viewed_world).2
    = tables demo_viewed_world.
Proof.
  intros req.
  rewrite (unknown_article_answers_500 demo_viewed_world req);
    [done | done | by vm_compute].
Defined.

(* ===================================================================== *)
(** ** GET /api/user-preferences/:user_id *)
(* ===================================================================== *)

(** [GET /api/user-preferences/:user_id] on a store that answers: status
    200 in every case, with the user's record when there is exactly one, and
    with [null] when there is none, or more than one. *)
Theorem preferences_lookup (w : World) (req : Request) :
  healthy w →
  run pg (get_api_user_preferences req) w
  = (Normal (preferences_reply
               (only_record (prefs_of (field (req_params req) "user_id") w))),
     after_read w).
Proof.
  intros Hw. unfold get_api_user_preferences. cbv zeta.
  rewrite run_try_catch, run_bind, run_await. cbn [pg].
  rewrite (pg_await_healthy _ _ Hw), exec_select_single. tidy.
  simpl (q_table _). rewrite project_all. unfold prefs_of.
  destruct (rows_where _ _ _) as [| r [| s l]]; cbn [error ok failed data].
  - rewrite truthy_pg_error_val, run_bind, run_lift, pg_error_code. tidy.
    change (strict_eq_str _ _) with true. cbn [negb]. by rewrite run_ret.
  - cbn [truthy]. by rewrite run_ret.
  - rewrite truthy_pg_error_val, run_bind, run_lift, pg_error_code. tidy.
    change (strict_eq_str _ _) with true. cbn [negb]. by rewrite run_ret.
Qed.

Lemma preferences_lookup_witness :
  let req := {| req_query := ∅;
                req_params := obj [("user_id", JStr (utf16 "u1"))];
                req_body := ∅ |} in
  healthy demo_prefs_world
  ∧ (run pg (get_api_user_preferences req) demo_prefs_world).1
    = Normal (preferences_reply
                (JObj (obj [("user_id", JStr (utf16 "u1"));
                            ("favorite_categories", JArr [JStr (utf16 "anime")]);
                            ("viewed_articles", JArr [JStr (utf16 "a1")])]))).
Proof.
  intros req. split; [done |].
  rewrite (preferences_lookup demo_prefs_world req); [| done].
  by vm_compute.
Defined.

(** A store failure during [GET /api/user-preferences/:user_id] is
    answered with status 500 and the store's message, unless its code is
    [PGRST116]: that failure is answered as "no preferences", status 200
    with [null]. Nothing is written either way. *)
Theorem preferences_failure_answers
  (w : World) (req : Request) (e : PgError) (rest : list (option PgError)) :
  faults w = Some e :: rest →
  run pg (get_api_user_preferences req) w
  = if bool_decide (pe_code e = utf16 "PGRST116")
    then (Normal (preferences_reply JNull), after_read w)
    else (Normal (store_failure e),
          print (ErrorLine (utf16 "Error fetching user preferences:")
                   (pg_error_val e)) (after_read w)).
Proof.
  intros Hfaults. unfold get_api_user_preferences. cbv zeta.
  rewrite run_try_catch, run_bind, run_await. cbn [pg].
  rewrite (pg_await_fault _ _ _ _ Hfaults). tidy. cbn [error failed data].
  rewrite truthy_pg_error_val, run_bind, run_lift, pg_error_code. tidy.
  unfold strict_eq_str, jsstring_eqb.
  destruct (bool_decide (pe_code e = utf16 "PGRST116")); cbn [negb].
  - by rewrite run_ret.
  - rewrite run_throw. tidy. apply respond_500_store_failure.
Qed.

Lemma preferences_failure_answers_witness :
  let req := {| req_query := ∅;
                req_params := obj [("user_id", JStr (utf16 "u1"))];
                req_body := ∅ |} in
  let w := set_store (tables demo_prefs_world) [Some timeout_error]
             demo_prefs_world in
  reply_status (run pg (get_api_user_preferences req) w).1 = Some 500
  ∧ tables (run pg (get_api_user_preferences req) w).2 = tables w.
Proof.
  intros req w.
  rewrite (preferences_failure_answers w req timeout_error []); done.
Defined.

(* ===================================================================== *)
(** ** POST /api/user-preferences: the reply, and the lookup that misses *)
(* ===================================================================== *)

Lemma upsert_after_miss (w : World) (req : Request) (reply : Reply) :
  truthy (field (req_body req) "user_id") = true →
  pg_await (supabase.from "user_preferences" ▸ supabase.select "*"
              ▸ supabase.eq "user_id" (field (req_body req) "user_id")
              ▸ supabase.single) w
  = (reply, after_read w) →
  data reply = JNull →
  healthy (after_read w) →
  run pg (post_api_user_preferences req) w
  = (Normal (preferences_reply (JObj (pref_row (req_body req)))),
     after_write "user_preferences"
       (table w "user_preferences" ++ [pref_row (req_body req)])
       (after_read w)).
Proof.
  intros Hid Hlookup Hdata Hw1. unfold post_api_user_preferences.
  rewrite Hid. cbn [negb].
  rewrite run_try_catch, run_bind, run_await. cbn [pg].
  rewrite Hlookup. tidy. rewrite Hdata. cbn [truthy].
  rewrite run_bind, run_bind, run_await. cbn [pg].
  rewrite (pg_await_healthy _ _ Hw1), exec_insert_returning. tidy.
  cbn [error ok truthy].
  rewrite run_lift. cbn [data ok js_first fmap list_fmap head default]. tidy.
  by rewrite run_ret.
Qed.

Lemma lookup_misses_reply (w : World) (user_id : JsVal) :
  lookup_misses user_id w →
  ∃ reply,
    pg_await (supabase.from "user_preferences" ▸ supabase.select "*"
                ▸ supabase.eq "user_id" user_id ▸ supabase.single) w
    = (reply, after_read w)
    ∧ data reply = JNull ∧ healthy (after_read w).
Proof.
  intros [[Hw Hmany] | [e He]].
  - rewrite (pg_await_healthy _ _ Hw), exec_select_single, project_all.
    simpl (q_table _). fold (prefs_of user_id w).
    eexists. split; [reflexivity |].
    split; [| by apply healthy_after_read].
    by destruct (prefs_of user_id w) as [| r [| s l]].
  - rewrite (pg_await_fault _ _ _ _ He).
    eexists. split; [reflexivity |]. split; [done |].
    unfold healthy. simpl. by rewrite He.
Qed.

Lemma prefs_after_insert (w : World) (body : Obj) :
  truthy (field body "user_id") = true →
  prefs_of (field body "user_id")
    (after_write "user_preferences"
       (table w "user_preferences" ++ [pref_row body]) (after_read w))
  = prefs_of (field body "user_id") w ++ [pref_row body].
Proof.
  intros Hid. unfold prefs_of.
  rewrite table_after_write, rows_where_app, rows_where_one; [done |].
  rewrite pref_row_user_id by done. by apply pg_eq_refl.
Qed.

(** When the lookup of [POST /api/user-preferences] comes back without a
    record, the handler creates one, whatever the store holds: a user who
    has several records gets one more, and a user whose lookup failed gets a
    second record beside the stored one. *)
Theorem upsert_inserts_when_lookup_misses (w : World) (req : Request) :
  let user_id := field (req_body req) "user_id" in
  truthy user_id = true →
  lookup_misses user_id w →
  ∃ w',
    run pg (post_api_user_preferences req) w
    = (Normal (preferences_reply (JObj (pref_row (req_body req)))), w')
    ∧ prefs_of user_id w' = prefs_of user_id w ++ [pref_row (req_body req)].
Proof.
  intros user_id Hid Hmiss.
  destruct (lookup_misses_reply w user_id Hmiss)
    as (reply & Hlookup & Hdata & Hw1).
  eexists. split; [by eapply upsert_after_miss |].
  by apply prefs_after_insert.
Qed.

Lemma upsert_inserts_when_lookup_misses_witness :
  let req := request [] [("user_id", JStr (utf16 "u1"))] in
  let w := set_store (tables demo_prefs_world) [Some timeout_error]
             demo_prefs_world in
  let w' := (run pg (post_api_user_preferences req) w).2 in
  length (prefs_of (JStr (utf16 "u1")) w) = 1%nat
  ∧ reply_status (run pg (post_api_user_preferences req) w).1 = Some 200
  ∧ length (prefs_of (JStr (utf16 "u1")) w') = 2%nat.
Proof.
  intros req w w'. split; [by vm_compute |].
  destruct (upsert_inserts_when_lookup_misses w req)
    as (w1 & Hrun & Hprefs); [done | right; by exists timeout_error |].
  unfold w'. rewrite Hrun. split; [done |].
  cbn [snd]. etrans; [exact (f_equal length Hprefs) |]. by vm_compute.
Defined.

Lemma upsert_after_hit (w : World) (req : Request) (existing : Obj) :
  let user_id := field (req_body req) "user_id" in
  let patch := pref_patch (req_body req) existing (now w) in
  truthy user_id = true →
  healthy w →
  prefs_of user_id w = [existing] →
  run pg (post_api_user_preferences req) w
  = (Normal (preferences_reply (JObj (patch ∪ existing))),
     after_write "user_preferences"
       (patch_row [FEq "user_id" user_id] patch <$> table w "user_preferences")
       (tick (after_read w))).
Proof.
  intros user_id patch Hid Hw Hone. unfold post_api_user_preferences.
  fold user_id. rewrite Hid. cbn [negb].
  rewrite run_try_catch, run_bind, run_await. cbn [pg].
  rewrite (pg_await_healthy _ _ Hw), exec_select_single.
  simpl (q_table _). unfold prefs_of in Hone. rewrite Hone, project_all. tidy.
  cbn [fmap list_fmap data ok truthy].
  set (w1 := after_read w).
  assert (healthy w1) as Hw1 by by apply healthy_after_read.
  rewrite run_bind, run_bind, run_lift. cbn [js_get]. tidy.
  rewrite run_bind, run_lift. tidy.
  rewrite run_bind, run_perform. cbn [pg]. tidy.
  rewrite run_bind, run_await. cbn [pg].
  rewrite (pg_await_healthy _ _ (healthy_tick _ Hw1)), exec_update_returning.
  tidy. cbn [error ok truthy].
  rewrite run_lift. simpl (q_table _). rewrite !table_tick. subst w1.
  rewrite !table_after_read, Hone.
  cbn [data ok js_first fmap list_fmap head default]. tidy.
  rewrite run_ret. tidy.
  assert (matches_all [FEq "user_id" user_id] existing = true) as Hmatch.
  { assert (existing ∈ rows_where "user_id" user_id
                         (table w "user_preferences")) as Hin
      by (rewrite Hone; apply list_elem_of_here).
    by apply list_elem_of_filter in Hin as [? _]. }
  unfold patch_row at 1. rewrite Hmatch. done.
Qed.

Lemma pref_row_supplied (body : Obj) (key : string) (v : JsVal) :
  key ∈ ["favorite_categories"; "viewed_articles"] →
  body !! key = Some v → truthy v = true →
  pref_row body !! key = Some v.
Proof.
  intros Hkey Hv Htruthy. unfold pref_row. rewrite sent_lookup.
  unfold obj. cbn [list_to_map foldr uncurry fst snd].
  apply elem_of_cons in Hkey as [-> | Hkey];
    [| apply list_elem_of_singleton in Hkey as ->];
    simplify_map_eq; rewrite (field_lookup _ _ _ Hv);
    unfold js_or; rewrite Htruthy; by rewrite truthy_defined.
Qed.

Lemma pref_patch_supplied (body existing : Obj) (t : jsstring)
  (key : string) (v : JsVal) :
  key ∈ ["favorite_categories"; "viewed_articles"] →
  body !! key = Some v → truthy v = true →
  (pref_patch body existing t ∪ existing) !! key = Some v.
Proof.
  intros Hkey Hv Htruthy. apply lookup_union_Some_l.
  unfold pref_patch. rewrite sent_lookup.
  unfold obj. cbn [list_to_map foldr uncurry fst snd].
  apply elem_of_cons in Hkey as [-> | Hkey];
    [| apply list_elem_of_singleton in Hkey as ->];
    simplify_map_eq; rewrite (field_lookup _ _ _ Hv);
    unfold js_or; rewrite Htruthy; by rewrite truthy_defined.
Qed.

(** [POST /api/user-preferences] on a store that answers, for a user with
    at most one record: the reply carries the user's record exactly as it
    is stored afterwards, and a [favorite_categories] or [viewed_articles]
    the request supplies with a truthy value (an empty array is one) is the
    value stored. *)
Theorem upsert_reply_is_stored_record (w : World) (req : Request) :
  let user_id := field (req_body req) "user_id" in
  truthy user_id = true →
  healthy w →
  (length (prefs_of user_id w) ≤ 1)%nat →
  ∃ r w',
    run pg (post_api_user_preferences req) w
    = (Normal (preferences_reply (JObj r)), w')
    ∧ prefs_of user_id w' = [r]
    ∧ ∀ key v, key ∈ ["favorite_categories"; "viewed_articles"] →
               req_body req !! key = Some v → truthy v = true →
               r !! key = Some v.
Proof.
  intros user_id Hid Hw Hmost. subst user_id.
  destruct (prefs_of _ w) as [| existing [| s l]] eqn:Hprefs;
    [| | simpl in Hmost; lia].
  - destruct (lookup_misses_reply w (field (req_body req) "user_id"))
      as (reply & Hlookup & Hdata & Hw1).
    { left. split; [done |]. by rewrite Hprefs. }
    eexists _, _. split; [by eapply upsert_after_miss |]. split.
    + rewrite prefs_after_insert by done. by rewrite Hprefs.
    + apply pref_row_supplied.
  - eexists _, _. split; [by eapply upsert_after_hit |]. split.
    + unfold prefs_of. rewrite table_after_write, rows_where_patched
        by apply pref_patch_user_id.
      unfold prefs_of in Hprefs. by rewrite Hprefs.
    + apply pref_patch_supplied.
Qed.

Lemma upsert_reply_is_stored_record_witness :
  let req := request [] [("user_id", JStr (utf16 "u1"));
                          ("favorite_categories", JArr [])] in
  let w' := (run pg (post_api_user_preferences req) demo_prefs_world).2 in
  healthy demo_prefs_world
  ∧ ∃ r, (run pg (post_api_user_preferences req) demo_prefs_world).1
         = Normal (preferences_reply (JObj r))
         ∧ prefs_of (JStr (utf16 "u1")) w' = [r]
         ∧ r !! "favorite_categories" = Some (JArr []).
Proof.
  intros req w'. split; [done |].
  destruct (upsert_reply_is_stored_record demo_prefs_world req)
    as (r & w1 & Hrun & Hprefs & Hsupplied);
    [done | done | by vm_compute |].
  exists r. unfold w'. rewrite Hrun. split; [done |]. split; [exact Hprefs |].
  apply Hsupplied; [apply list_elem_of_here | by vm_compute | done].
Defined.

(* ===================================================================== *)
(** ** GET /api/stats/categories *)
(* ===================================================================== *)

Lemma insert_sorted_perm (before : Obj → Obj → bool) (r : Obj)
  (sorted : list Obj) :
  insert_sorted before r sorted ≡ₚ r :: sorted.
Proof.
  induction sorted as [| s rest IH]; simpl; [done |].
  destruct (before r s); [done |]. rewrite IH. apply Permutation_swap.
Qed.

Lemma sort_rows_perm (before : Obj → Obj → bool) (rows : list Obj) :
  sort_rows before rows ≡ₚ rows.
Proof.
  unfold sort_rows. induction rows as [| r rows IH]; simpl; [done |].
  by rewrite insert_sorted_perm, IH.
Qed.

Lemma filter_no_filters (rows : list Obj) :
  filter (λ r, matches_all [] r = true) rows = rows.
Proof.
  induction rows as [| r rows IH]; [done |].
  rewrite filter_cons, decide_True by done. by rewrite IH.
Qed.

Lemma category_key_project (r : Obj) :
  category_key (project "category" r) = category_key r.
Proof.
  unfold category_key, field, project. rewrite bool_decide_eq_false_2 by done.
  rewrite map_lookup_filter. by destruct (r !! "category") as [v |].
Qed.

Lemma tally_cons (r : Obj) (rows : list Obj) (k : string) :
  tally (r :: rows) k
  = ((if decide (category_key r = k) then 1 else 0) + tally rows k)%nat.
Proof.
  unfold tally. rewrite filter_cons. by destruct (decide (category_key r = k)).
Qed.

Lemma tally_project (rows : list Obj) (k : string) :
  tally (project "category" <$> rows) k = tally rows k.
Proof.
  induction rows as [| r rows IH]; [done |].
  by rewrite fmap_cons, !tally_cons, category_key_project, IH.
Qed.

Lemma tally_sorted (before : Obj → Obj → bool) (rows : list Obj)
  (k : string) :
  tally (sort_rows before rows) k = tally rows k.
Proof. unfold tally. by rewrite sort_rows_perm. Qed.

Lemma inherited_nothing (key : string) :
  key ∉ inherited_names → js_index ∅ key = JUndefined.
Proof.
  intros Hkey. unfold js_index. rewrite lookup_empty.
  rewrite bool_decide_eq_false_2 by set_solver.
  rewrite (not_elem_of_list_to_map_1 (M := gmap string)); [done |].
  intros Hin. apply Hkey. by right.
Qed.

(** One step of the [reduce]: the count under the row's key goes up by
    one. *)
Lemma tally_step_counts (acc : Obj) (r : Obj) :
  is_tally acc → category_key r ∉ inherited_names →
  ∃ acc', tally_step acc (JObj r) = Normal acc'
          ∧ is_tally acc'
          ∧ ∀ k, count_at acc' k
                 = count_at acc k
                   + (if decide (category_key r = k) then 1 else 0).
Proof.
  intros Hacc Hkey. unfold tally_step. cbn [js_get mbind Completion_bind].
  fold (field r "category"). fold (category_key r).
  set (key := category_key r) in *.
  assert (key ≠ "__proto__") as Hproto by set_solver.
  assert (∃ n, 0 ≤ n ∧ count_at acc key = n
               ∧ js_add (js_or (js_index acc key) (JNum 0)) (JNum 1)
                 = JNum (n + 1)) as (n & Hn & Hcount & ->).
  { unfold js_index, count_at.
    destruct (acc !! key) as [v |] eqn:Hv.
    - destruct (Hacc _ _ Hv) as (n & -> & Hpos). exists n.
      split; [lia |]. split; [done |]. unfold js_or.
      cbn [truthy]. by destruct (Z.eqb_spec n 0); [lia |].
    - exists 0. split; [done |]. split; [done |].
      pose proof (inherited_nothing key Hkey) as Hnone.
      unfold js_index in Hnone. rewrite lookup_empty in Hnone.
      by rewrite Hnone. }
  unfold js_assign. rewrite bool_decide_eq_false_2 by done.
  eexists. split; [reflexivity |]. split.
  - intros k v. destruct (decide (key = k)) as [<- | Hne].
    + rewrite lookup_insert_eq. intros [= <-]. exists (n + 1).
      split; [done | lia].
    + rewrite lookup_insert_ne by done. apply Hacc.
  - intros k. unfold count_at at 1.
    destruct (decide (key = k)) as [<- | Hne].
    + rewrite lookup_insert_eq. lia.
    + rewrite lookup_insert_ne by done. unfold count_at. lia.
Qed.

Lemma reduce_tally_counts (rows : list Obj) (acc : Obj) :
  is_tally acc →
  (∀ r, r ∈ rows → category_key r ∉ inherited_names) →
  ∃ stats, reduce_with tally_step acc (JObj <$> rows) = Normal stats
           ∧ is_tally stats
           ∧ ∀ k, count_at stats k = count_at acc k + Z.of_nat (tally rows k).
Proof.
  revert acc. induction rows as [| r rows IH]; intros acc Hacc Hkeys.
  - exists acc. split; [done |]. split; [done |]. intros k.
    unfold tally. simpl. lia.
  - destruct (tally_step_counts acc r Hacc) as (acc' & Hstep & Hacc' & Hcount).
    { apply Hkeys, list_elem_of_here. }
    destruct (IH acc' Hacc') as (stats & Hred & Hstats & Hcounts).
    { intros s Hs. by apply Hkeys, list_elem_of_further. }
    exists stats. rewrite fmap_cons. cbn [reduce_with].
    rewrite Hstep. cbn [mbind Completion_bind].
    split; [done |]. split; [done |]. intros k.
    rewrite Hcounts, Hcount, tally_cons.
    destruct (decide (category_key r = k)); lia.
Qed.

Lemma tally_lookup (stats : Obj) (k : string) (n : nat) :
  is_tally stats → count_at stats k = Z.of_nat n →
  stats !! k = match n with O => None | S _ => Some (JNum (Z.of_nat n)) end.
Proof.
  intros Hstats. unfold count_at.
  destruct (stats !! k) as [v |] eqn:Hv.
  - destruct (Hstats _ _ Hv) as (m & -> & Hm). intros ->.
    destruct n; [lia | done].
  - intros Hn. destruct n; [done | lia].
Qed.

(** [GET /api/stats/categories] on a store that answers, when no article's
    category is, as text, the name of a member every object inherits
    ([constructor], [toString], [__proto__], ...): the reply has one
    property per category that occurs, and its value is the number of
    articles of that category; articles without a category are counted
    under ["undefined"], those with a [null] one under ["null"]. *)
Theorem category_stats_count_articles (w : World) (req : Request) :
  healthy w →
  (∀ r, r ∈ table w "articles" → category_key r ∉ inherited_names) →
  ∃ stats,
    run pg (get_api_stats_categories req) w
    = (Normal (stats_reply stats), after_read w)
    ∧ ∀ k, stats !! k
           = match tally (table w "articles") k with
             | O => None
             | S _ => Some (JNum (Z.of_nat (tally (table w "articles") k)))
             end.
Proof.
  intros Hw Hkeys. unfold get_api_stats_categories.
  rewrite run_try_catch, run_bind, run_await. cbn [pg].
  rewrite (pg_await_healthy _ _ Hw).
  set (rows := sort_rows (comes_before "category" true) (table w "articles")).
  assert (exec (supabase.from "articles" ▸ supabase.select "category"
                  ▸ supabase.order "category" true)
            (table w (q_table (supabase.from "articles"
                                 ▸ supabase.select "category"
                                 ▸ supabase.order "category" true)))
          = (ok (JArr (JObj <$> (project "category" <$> rows))), None)) as ->.
  { unfold exec, rows. cbn. by rewrite filter_no_filters. }
  tidy. cbn [error ok truthy data].
  destruct (reduce_tally_counts (project "category" <$> rows) ∅)
    as (stats & Hred & Hstats & Hcounts).
  { by intros k v Hkv. }
  { intros r (s & -> & Hs)%list_elem_of_fmap. rewrite category_key_project.
    apply Hkeys. unfold rows in Hs. by apply sort_rows_elem in Hs. }
  rewrite run_bind, run_lift. cbn [js_reduce]. rewrite Hred. tidy.
  rewrite run_ret. exists stats. split; [done |]. intros k.
  apply tally_lookup; [done |].
  rewrite Hcounts, tally_project. unfold rows. rewrite tally_sorted.
  unfold count_at. by rewrite lookup_empty.
Qed.

Lemma category_stats_count_articles_witness :
  healthy demo_world
  ∧ ∃ stats,
      (run pg (get_api_stats_categories (request [] [])) demo_world).1
      = Normal (stats_reply stats)
      ∧ stats !! "anime" = Some (JNum 2)
      ∧ stats !! "game" = Some (JNum 1)
      ∧ stats !! "music" = None.
Proof.
  split; [done |].
  destruct (category_stats_count_articles demo_world (request [] []))
    as (stats & Hrun & Hstats); [done | |].
  { apply Forall_forall. apply (bool_decide_eq_true_1 _). by vm_compute. }
  exists stats. rewrite Hrun. split; [done |].
  split; [| split]; rewrite Hstats; by vm_compute.
Defined.

(* ===================================================================== *)
(** ** The video platform client: the answer that carries items *)
(* ===================================================================== *)

(** When the platform answers a request with a body whose [error] is
    missing or falsy, either function of the client returns the [items] of
    the body, an empty array when there are none, and prints nothing. *)
Theorem client_returns_items
  (w : World) (c : ClientCall) (r : YtRequest) (resp : HttpResponse)
  (body err items : JsVal) :
  request_of c = Normal r →
  youtube w r = Normal resp →
  json resp = Normal body →
  js_get body "error" = Normal err →
  truthy err = false →
  js_get body "items" = Normal items →
  run pg (client c) w = (Normal (js_or items (JArr [])), w).
Proof.
  intros Hreq Hresp Hbody Herr Hfalsy Hitems.
  destruct c as [keyword maxResults | videoId maxResults]; cbn [client].
  - apply request_of_search in Hreq as (q & n & Hq & Hn & ->).
    unfold searchTrendingVideos, fetch. cbv zeta.
    rewrite run_bind, run_lift, Hq. tidy.
    rewrite run_bind, run_lift, Hn. tidy.
    rewrite run_try_catch, !run_bind, run_perform. cbn [pg]. tidy.
    rewrite run_lift, Hresp. tidy.
    rewrite run_bind, run_lift, Hbody. tidy.
    rewrite run_bind, run_lift, Herr. tidy. rewrite Hfalsy.
    rewrite run_bind, run_lift, Hitems. tidy. by rewrite run_ret.
  - apply request_of_comments in Hreq as (id & n & Hid & Hn & ->).
    unfold getVideoComments, fetch. cbv zeta.
    rewrite run_bind, run_lift, Hid. tidy.
    rewrite run_bind, run_lift, Hn. tidy.
    rewrite run_try_catch, !run_bind, run_perform. cbn [pg]. tidy.
    rewrite run_lift, Hresp. tidy.
    rewrite run_bind, run_lift, Hbody. tidy.
    rewrite run_bind, run_lift, Herr. tidy. rewrite Hfalsy.
    rewrite run_bind, run_lift, Hitems. tidy. by rewrite run_ret.
Qed.

Lemma client_returns_items_witness :
  let c := SearchCall (JStr (utf16 "anime")) (JNum 3) in
  run pg (client c) demo_script_world
  = (Normal (JArr [demo_video]), demo_script_world).
Proof.
  intros c.
  exact (client_returns_items demo_script_world c
           (YtSearch (utf16 "anime") (JNum 3))
           {| json := Normal (js_obj [("items", JArr [demo_video])]) |}
           (js_obj [("items", JArr [demo_video])]) JUndefined
           (JArr [demo_video])
           eq_refl eq_refl eq_refl eq_refl eq_refl eq_refl).
Defined.

(* ===================================================================== *)
(** ** The ingestion job: what it writes *)
(* ===================================================================== *)

Section Appended.
Context (w0 : World) (P : Obj → Prop).

Lemma appended_start : appended w0 P w0.
Proof.
  split; [done |]. split; [done |]. exists [].
  split; [by rewrite app_nil_r | by intros r ?%elem_of_nil].
Qed.

Lemma appended_quiet {X} (e : Eff X) :
  quiet e = true → keeps (appended w0 P) (perform e) (λ _, True).
Proof.
  intros Hq w Hw. rewrite run_perform.
  destruct e; try done; cbn [pg]; tidy; done.
Qed.

Lemma appended_random (n : Z) :
  0 < n → keeps (appended w0 P) (perform (RandomBelow n)) (λ x, 0 ≤ x < n).
Proof.
  intros Hn w Hw. rewrite run_perform. cbn [pg]. tidy.
  split; [done |]. intros x [= <-]. by apply Z.mod_pos_bound.
Qed.

Lemma appended_insert (new : list Obj) :
  (∀ r, r ∈ new → P r) →
  keeps (appended w0 P)
    (await (supabase.from "articles" ▸ supabase.insert new
              ▸ supabase.select "*"))
    (λ _, True).
Proof.
  intros Hnew w (Hy & Hother & added & Ht & Hadded).
  rewrite run_await. cbn [pg]. rewrite pg_await_unfold.
  assert (appended w0 P (after_read w)) as Hread.
  { split; [done |]. split; [done |]. exists added.
    by rewrite table_after_read. }
  assert (appended w0 P
            (after_write "articles" (table w "articles" ++ new) w)) as Hwrite.
  { split; [done |]. split.
    - intros name Hname. rewrite table_after_write_other by done.
      by apply Hother.
    - exists (added ++ new). rewrite table_after_write.
      split; [by rewrite Ht, app_assoc |].
      intros r [Hr | Hr]%elem_of_app; auto. }
  destruct (faults w) as [| [e |] rest]; rewrite ?exec_insert_returning;
    tidy; done.
Qed.

Lemma appended_client (c : ClientCall) :
  keeps (appended w0 P) (client c) (λ _, True).
Proof.
  destruct c as [keyword maxResults | videoId maxResults]; cbn [client].
  - unfold searchTrendingVideos, fetch.
    eapply keeps_bind; [apply keeps_lift |]. intros q _.
    eapply keeps_bind; [apply keeps_lift |]. intros n _.
    apply keeps_try_catch.
    + eapply (keeps_bind _ _ _ (λ _, True)).
      { eapply keeps_bind; [by apply appended_quiet |]. intros c _.
        eapply keeps_weaken; [apply keeps_lift | done]. }
      intros response _.
      eapply keeps_bind; [apply keeps_lift |]. intros body _.
      eapply keeps_bind; [apply keeps_lift |]. intros err _.
      destruct (truthy err).
      * eapply keeps_bind; [apply keeps_lift |]. intros message _.
        eapply keeps_bind; [apply keeps_lift |]. intros reason _.
        apply keeps_throw.
      * eapply keeps_bind; [apply keeps_lift |]. intros items _.
        by apply keeps_ret.
    + intros e. eapply keeps_bind; [by apply appended_quiet |]. intros _ _.
      by apply keeps_ret.
  - unfold getVideoComments, fetch.
    eapply keeps_bind; [apply keeps_lift |]. intros id _.
    eapply keeps_bind; [apply keeps_lift |]. intros n _.
    apply keeps_try_catch.
    + eapply (keeps_bind _ _ _ (λ _, True)).
      { eapply keeps_bind; [by apply appended_quiet |]. intros c _.
        eapply keeps_weaken; [apply keeps_lift | done]. }
      intros response _.
      eapply keeps_bind; [apply keeps_lift |]. intros body _.
      eapply keeps_bind; [apply keeps_lift |]. intros err _.
      destruct (truthy err).
      * eapply keeps_bind; [apply keeps_lift |]. intros message _.
        eapply keeps_bind; [apply keeps_lift |]. intros reason _.
        eapply keeps_bind; [by apply appended_quiet |]. intros _ _.
        by apply keeps_ret.
      * eapply keeps_bind; [apply keeps_lift |]. intros items _.
        by apply keeps_ret.
    + intros e. eapply keeps_bind; [by apply appended_quiet |]. intros _ _.
      by apply keeps_ret.
Qed.
End Appended.

Lemma article_synthesized (comments category : JsVal) (x y : Z)
  (title : jsstring) (content excerpt source image count published : JsVal)
  (fire : bool) :
  js_get comments "length" = Normal count →
  0 ≤ x < 1000 → 0 ≤ y < 10000 →
  synthesized comments category
    (sent (obj [("title", JStr (utf16 "【話題】" ++ title));
                ("content", content); ("excerpt", excerpt);
                ("category", category); ("source_url", source);
                ("image_url", image); ("is_trending", JBool true);
                ("is_fire", JBool fire);
                ("reaction_count", JNum (x + 500));
                ("comment_count", count);
                ("view_count", JNum (y + 1000));
                ("published_at", published)])).
Proof.
  intros Hcount Hx Hy. unfold synthesized, field. rewrite !sent_lookup.
  unfold obj. cbn [list_to_map foldr uncurry fst snd]. simplify_map_eq.
  split; [done |]. split; [by destruct category |].
  split; [by destruct count |].
  split; [exists (x + 500); split; [done | lia] |].
  split; [exists (y + 1000); split; [done | lia] |].
  by exists title.
Qed.

(** The article synthesizer appends to [articles] at most rows that are
    [synthesized] from its arguments, and touches no other table. *)
Lemma create_appends (w0 : World) (P : Obj → Prop)
  (video comments category : JsVal) :
  (∀ r, synthesized comments category r → P r) →
  keeps (appended w0 P) (createArticleFromVideo video comments category)
    (λ _, True).
Proof.
  intros HP. unfold createArticleFromVideo.
  eapply keeps_bind; [apply keeps_lift |]. intros snippet _.
  eapply keeps_bind; [apply keeps_lift |]. intros video_id _.
  eapply keeps_bind; [apply keeps_lift |]. intros videoId _.
  eapply keeps_bind; [apply keeps_lift |]. intros snippet_title _.
  eapply keeps_bind; [apply keeps_lift |]. intros shown_title _.
  eapply keeps_bind; [apply keeps_lift |]. intros len _.
  eapply (keeps_bind _ _ _ (λ _, True)).
  { destruct (js_gt_num len 0).
    - eapply keeps_weaken; [apply keeps_lift | done].
    - by apply keeps_ret. }
  intros commentText _.
  eapply keeps_bind; [apply keeps_lift |]. intros description _.
  eapply keeps_bind; [apply keeps_lift |]. intros lead _.
  eapply keeps_bind; [apply keeps_lift |]. intros link _.
  eapply keeps_bind; [apply keeps_lift |]. intros excerpt _.
  eapply keeps_bind; [apply keeps_lift |]. intros thumbnails _.
  eapply keeps_bind; [apply keeps_lift |]. intros high _.
  eapply keeps_bind; [apply keeps_lift |]. intros dflt _.
  eapply keeps_bind; [apply keeps_lift |]. intros fire_len _.
  eapply keeps_bind; [by apply appended_random |]. intros reactions Hx.
  eapply keeps_bind; [apply keeps_lift |]. intros count_len Hcount.
  eapply keeps_bind; [by apply appended_random |]. intros views Hy.
  eapply keeps_bind; [by apply appended_quiet |]. intros published_at _.
  eapply keeps_bind.
  { apply appended_insert. intros r ->%list_elem_of_singleton.
    by apply HP, article_synthesized. }
  intros r _. destruct (truthy (error r)).
  - eapply keeps_bind; [by apply appended_quiet |]. intros _ _.
    by apply keeps_ret.
  - eapply keeps_bind; [by apply appended_quiet |]. intros _ _.
    eapply keeps_weaken; [apply keeps_lift | done].
Qed.

(** Whatever the video item, the comments, the category, the store and the
    platform, [createArticleFromVideo] changes nothing but [articles], to
    which it appends at most rows with the trending flag set, the given
    category, the length of the comment list as comment count, a reaction
    count in 500..1499, a view count in 1000..10999 and a title that starts
    with the marker. *)
Theorem synthesizer_writes_synthesized_rows
  (w : World) (video comments category : JsVal) :
  appended w (synthesized comments category)
    (run pg (createArticleFromVideo video comments category) w).2.
Proof.
  apply (create_appends w (synthesized comments category)); [done |].
  apply appended_start.
Qed.

(** Whatever the store and the platform do, the ingestion job changes
    nothing but [articles], to which it only appends, and every row it
    appends is flagged trending, has one of the three categories of the
    job and placeholder counters in their ranges. *)
Theorem ingestion_appends_trending_articles (w : World) :
  appended w ingested_row (run pg main w).2.
Proof.
  cut (keeps (appended w ingested_row) main (λ _, True)).
  { intros Hmain. apply Hmain, appended_start. }
  unfold main.
  eapply keeps_bind; [by apply appended_quiet |]. intros _ _.
  eapply (keeps_bind _ _ _ (λ _, True)); [| intros total _].
  - match goal with
    | |- keeps _ (for_of keywords ?body 0) _ =>
        cut (∀ l total, (∀ kc, kc ∈ l → kc.2 ∈ keywords.*2) →
                        keeps (appended w ingested_row) (for_of l body total)
                          (λ _, True))
    end.
    { intros Hloop. apply Hloop. intros kc Hkc.
      apply list_elem_of_fmap. by exists kc. }
    induction l as [| [keyword category] l IH]; intros total Hl;
      cbn [for_of].
    { by apply keeps_ret. }
    eapply keeps_bind; [| intros total' _; apply IH;
                          intros kc Hkc; by apply Hl, list_elem_of_further].
    eapply keeps_bind; [by apply appended_quiet |]. intros _ _.
    eapply keeps_bind; [apply (appended_client _ _ (SearchCall _ _)) |].
    intros videos _.
    eapply keeps_bind; [apply keeps_lift |]. intros found _.
    eapply keeps_bind; [apply keeps_lift |]. intros found_text _.
    eapply keeps_bind; [by apply appended_quiet |]. intros _ _.
    eapply keeps_bind; [apply keeps_lift |]. intros items _.
    apply keeps_for_of. intros video total'.
    eapply keeps_bind; [apply keeps_lift |]. intros video_id _.
    eapply keeps_bind; [apply keeps_lift |]. intros videoId _.
    eapply keeps_bind; [apply keeps_lift |]. intros snippet _.
    eapply keeps_bind; [apply keeps_lift |]. intros title _.
    eapply keeps_bind; [apply keeps_lift |]. intros title_text _.
    eapply keeps_bind; [by apply appended_quiet |]. intros _ _.
    eapply keeps_bind; [apply (appended_client _ _ (CommentsCall _ _)) |].
    intros comments _.
    eapply keeps_bind; [apply keeps_lift |]. intros shown _.
    eapply keeps_bind; [apply keeps_lift |]. intros shown_text _.
    eapply keeps_bind; [by apply appended_quiet |]. intros _ _.
    eapply keeps_bind.
    { apply create_appends. intros r Hr. exists comments, category.
      split; [| done]. apply (Hl (keyword, category)), list_elem_of_here. }
    intros article _.
    eapply keeps_bind; [by apply appended_quiet |]. intros _ _.
    by apply keeps_ret.
  - eapply keeps_bind; [by apply appended_quiet |]. intros _ _.
    by apply keeps_ret.
Qed.

(* ===================================================================== *)
(** ** The ingestion job when the platform cannot be used *)
(* ===================================================================== *)

Section Ends.
Context (I : World → Prop).

Lemma ends_ret {A} (a : A) (Q : A → Prop) : Q a → ends I (ret a) Q.
Proof. intros Hq w Hw. exists a. by rewrite run_ret. Qed.

Lemma ends_lift {A} (c : Completion A) (a : A) (Q : A → Prop) :
  c = Normal a → Q a → ends I (lift c) Q.
Proof. intros -> Hq w Hw. exists a. by rewrite run_lift. Qed.

Lemma ends_bind {A B} (m : M A) (f : A → M B) (Q : A → Prop) (R : B → Prop) :
  ends I m Q → (∀ a, Q a → ends I (f a) R) → ends I (m ≫= f) R.
Proof.
  intros Hm Hf w Hw. rewrite run_bind.
  destruct (Hm w Hw) as (a & Ha & Hq & Hw').
  destruct (run pg m w) as [c w']. simpl in Ha, Hw'. subst c.
  by apply Hf.
Qed.

Lemma ends_try_catch {A} (body : M A) (handler : JsVal → M A)
  (Q : A → Prop) :
  keeps I body Q → (∀ e, ends I (handler e) Q) →
  ends I (try_catch body handler) Q.
Proof.
  intros Hbody Hhandler w Hw. rewrite run_try_catch.
  destruct (Hbody w Hw) as [Hw' Hq].
  destruct (run pg body w) as [[a | e] w']; simpl in *.
  - exists a. auto.
  - by apply Hhandler.
Qed.

Lemma ends_for_of {A S} (xs : list A) (body : A → S → M S) (s : S) :
  Forall (λ x, ∀ s', ends I (body x s') (λ _, True)) xs →
  ends I (for_of xs body s) (λ _, True).
Proof.
  intros Hxs. revert s.
  induction Hxs as [| x xs Hx _ IH]; intros s; cbn [for_of].
  - by apply ends_ret.
  - eapply ends_bind; [apply Hx |]. intros s' _. apply IH.
Qed.

Lemma ends_perform {X} (e : Eff X) :
  (∀ w, I w → I (pg X e w).2) → ends I (perform e) (λ _, True).
Proof.
  intros He w Hw. rewrite run_perform. specialize (He w Hw).
  destruct (pg X e w) as [x w']. by exists x.
Qed.
End Ends.

Section Unreachable.
Context (T : gmap string (list Obj)).

Lemma cut_off_quiet {X} (e : Eff X) (w : World) :
  quiet e = true → cut_off T w → cut_off T (pg X e w).2.
Proof. intros Hq Hw. destruct e; try done. Qed.

Lemma cut_off_fetch (r : YtRequest) :
  keeps (cut_off T) (perform (Fetch r)) call_failed.
Proof.
  intros w Hw. rewrite run_perform. cbn [pg]. tidy.
  split; [done |]. intros c [= <-]. apply Hw.
Qed.

(** On a platform that cannot be used, the [try] block of a search never
    completes. *)
Lemma cut_off_search_body (url : YtRequest) :
  keeps (cut_off T)
    (response ← fetch url;
     data ← lift (json response);
     data_error ← lift (js_get data "error");
     if truthy data_error then
       message ← lift (js_get data_error "message");
       reason ← lift (to_text message);
       throw (new_error (utf16 "YouTube API Error: " ++ reason))
     else
       items ← lift (js_get data "items");
       ret (js_or items (JArr [])))
    (λ _, False).
Proof.
  unfold fetch.
  eapply (keeps_bind _ _ _ (λ resp, call_failed (Normal resp))).
  { eapply keeps_bind; [apply cut_off_fetch |]. intros c Hc.
    eapply keeps_weaken; [apply keeps_lift |]. by intros resp ->. }
  intros response Hfailed.
  eapply (keeps_bind _ _ _ (λ body, ∃ err, js_get body "error" = Normal err
                                           ∧ truthy err = true)).
  { eapply keeps_weaken; [apply keeps_lift |]. intros body Hbody.
    inversion Hfailed as [| e Hjson | body' err Herr Htruthy Hjson].
    - subst response. done.
    - subst response. simpl in Hbody. injection Hbody as ->. eauto. }
  intros body (err & Herr & Htruthy).
  eapply (keeps_bind _ _ _ (λ data_error, data_error = err)).
  { eapply keeps_weaken; [apply keeps_lift |]. intros e He. congruence. }
  intros data_error ->. rewrite Htruthy.
  eapply keeps_bind; [apply keeps_lift |]. intros message _.
  eapply keeps_bind; [apply keeps_lift |]. intros reason _.
  apply keeps_throw.
Qed.

Lemma cut_off_search (keyword maxResults : JsVal) (q n : jsstring) :
  encodeURIComponent keyword = Normal q →
  to_text (or_default maxResults (JNum 5)) = Normal n →
  ends (cut_off T) (searchTrendingVideos keyword maxResults)
    (λ v, v = JArr []).
Proof.
  intros Hq Hn. unfold searchTrendingVideos.
  eapply ends_bind; [by apply (ends_lift _ _ q (λ _, True)) |]. intros q' _.
  eapply ends_bind; [by apply (ends_lift _ _ n (λ _, True)) |]. intros n' _.
  apply ends_try_catch.
  - eapply keeps_weaken; [apply cut_off_search_body | done].
  - intros e. eapply ends_bind.
    { apply ends_perform. intros w. by apply cut_off_quiet. }
    intros _ _. by apply ends_ret.
Qed.

Lemma cut_off_main : ends (cut_off T) main (λ _, True).
Proof.
  unfold main.
  eapply ends_bind.
  { apply ends_perform. intros w. by apply cut_off_quiet. }
  intros _ _.
  eapply ends_bind; [| intros total _].
  - apply ends_for_of.
    eapply Forall_impl; [apply job_keywords_encodable |].
    intros [keyword category] Hencodable total. simpl in Hencodable.
    eapply ends_bind.
    { apply ends_perform. intros w. by apply cut_off_quiet. }
    intros _ _.
    eapply ends_bind; [by eapply cut_off_search |]. intros videos ->.
    eapply ends_bind; [by apply (ends_lift _ _ (JNum 0) (λ v, v = JNum 0)) |].
    intros found ->.
    eapply ends_bind; [by eapply (ends_lift _ _ _ (λ _, True)) |].
    intros found_text _.
    eapply ends_bind.
    { apply ends_perform. intros w. by apply cut_off_quiet. }
    intros _ _.
    eapply ends_bind; [by apply (ends_lift _ _ [] (λ l, l = [])) |].
    intros items ->. by apply ends_ret.
  - eapply ends_bind.
    { apply ends_perform. intros w. by apply cut_off_quiet. }
    intros _ _. by apply ends_ret.
Qed.
End Unreachable.

(** When every request to the platform fails, in whichever way, the
    ingestion job still runs to its end without throwing: each search is
    answered with no video, and nothing is written to the store. *)
Theorem ingestion_survives_unreachable_platform (w : World) :
  unreachable w →
  (run pg main w).1 = Normal tt ∧ tables (run pg main w).2 = tables w.
Proof.
  intros Hw.
  destruct (cut_off_main (tables w) w) as ([] & Hrun & _ & Htables & _);
    [done |].
  done.
Qed.

Lemma ingestion_survives_unreachable_platform_witness :
  unreachable demo_world
  ∧ (run pg main demo_world).1 = Normal tt
  ∧ tables (run pg main demo_world).2 = tables demo_world.
Proof.
  assert (unreachable demo_world) as Hw
    by (intros r; apply transport_error).
  split; [exact Hw |].
  exact (ingestion_survives_unreachable_platform demo_world Hw).
Defined.

(* ===================================================================== *)
(** ** POST /api/comments when a store call fails *)
(* ===================================================================== *)

Lemma pg_await_pass (q : Query) (w : World) (rest : list (option PgError)) :
  faults w = None :: rest →
  pg_await q w
  = match exec q (table w (q_table q)) with
    | (reply, Some rows) => (reply, after_write (q_table q) rows w)
    | (reply, None) => (reply, after_read w)
    end.
Proof. intros Hf. by rewrite pg_await_unfold, Hf. Qed.

Lemma with_count_patch (id : JsVal) (n : Z) (rows : list Obj) :
  patch_row [FEq "id" id] {["comment_count" := JNum n]} <$> rows
  = with_count id n rows.
Proof.
  unfold with_count. apply list_fmap_ext. intros _ r _.
  apply patch_row_singleton.
Qed.

(** The insert is the one store call of [POST /api/comments] whose failure
    is reported: the reply is 500 with the store's message, and neither the
    comment nor a count is written. *)
Theorem failed_comment_insert_answers_500
  (w : World) (req : Request) (e : PgError) (rest : list (option PgError)) :
  truthy (field (req_body req) "article_id") = true →
  truthy (field (req_body req) "text") = true →
  faults w = Some e :: rest →
  run pg (post_api_comments req) w
  = (Normal (store_failure e),
     print (ErrorLine (utf16 "Error posting comment:") (pg_error_val e))
       (after_read w)).
Proof.
  intros Hid Htext Hfaults. unfold post_api_comments.
  rewrite Hid, Htext. cbn [negb orb].
  rewrite run_try_catch, run_bind, run_await. cbn [pg].
  rewrite (pg_await_fault _ _ _ _ Hfaults). tidy. cbn [error failed].
  rewrite truthy_pg_error_val, run_throw. tidy.
  apply respond_500_store_failure.
Qed.

Lemma failed_comment_insert_answers_500_witness :
  let req := request [] [("article_id", JStr (utf16 "a1"));
                         ("text", JStr (utf16 "hi"))] in
  let out := run pg (post_api_comments req)
               (demo_faulty [Some timeout_error]) in
  reply_status out.1 = Some 500 ∧ tables out.2 = tables demo_world.
Proof.
  intros req out. unfold out.
  rewrite (failed_comment_insert_answers_500 _ req timeout_error []); done.
Defined.

(** When the read of the article's count fails after the comment has been
    stored, [POST /api/comments] still answers 200, and sets the count of
    the article to 1, whatever it was. *)
Theorem failed_count_read_resets_count
  (w : World) (req : Request) (e : PgError) :
  let article_id := field (req_body req) "article_id" in
  truthy article_id = true →
  truthy (field (req_body req) "text") = true →
  faults w = [None; Some e] →
  ∃ resp w',
    run pg (post_api_comments req) w = (Normal resp, w')
    ∧ status resp = 200
    ∧ table w' "comments" = table w "comments" ++ [comment_row (req_body req)]
    ∧ table w' "articles" = with_count article_id 1 (table w "articles").
Proof.
  intros article_id Hid Htext Hfaults. unfold post_api_comments.
  fold article_id. rewrite Hid, Htext. cbn [negb orb].
  rewrite run_try_catch, run_bind, run_await. cbn [pg].
  rewrite (pg_await_pass _ _ _ Hfaults), exec_insert_returning. tidy.
  set (w1 := after_write _ _ w).
  assert (faults w1 = [Some e]) as Hw1 by (simpl; by rewrite Hfaults).
  cbn [error ok truthy].
  rewrite run_bind, run_await. cbn [pg].
  rewrite (pg_await_fault _ _ _ _ Hw1). tidy.
  set (w2 := after_read w1).
  assert (healthy w2) as Hw2 by (unfold healthy; simpl; by rewrite Hfaults).
  cbn [data failed js_get_opt].
  change (js_add (js_or JUndefined (JNum 0)) (JNum 1)) with (JNum 1).
  rewrite sent_singleton by done.
  rewrite run_bind, run_await. cbn [pg].
  rewrite (pg_await_healthy _ _ Hw2), exec_update. tidy.
  rewrite run_bind, run_lift. cbn [data ok js_first fmap list_fmap head default].
  tidy. rewrite run_ret. tidy.
  eexists _, _. split; [reflexivity |]. split; [done |].
  simpl (q_table _). split.
  - rewrite table_after_write_other by done.
    unfold w2. rewrite table_after_read. unfold w1.
    by rewrite table_after_write.
  - rewrite table_after_write, with_count_patch. unfold w2.
    rewrite table_after_read. unfold w1.
    by rewrite table_after_write_other.
Qed.

Lemma failed_count_read_resets_count_witness :
  let req := request [] [("article_id", JStr (utf16 "a1"));
                         ("text", JStr (utf16 "hi"))] in
  let out := run pg (post_api_comments req)
               (demo_faulty [None; Some timeout_error]) in
  comment_counts demo_world = [Some (JNum 7); Some JNull; Some (JNum 0)]
  ∧ reply_status out.1 = Some 200
  ∧ comment_counts out.2 = [Some (JNum 1); Some JNull; Some (JNum 0)].
Proof.
  intros req out. split; [by vm_compute |].
  destruct (failed_count_read_resets_count
              (demo_faulty [None; Some timeout_error]) req timeout_error)
    as (resp & w' & Hrun & Hstatus & _ & Harticles); [done | done | done |].
  unfold out. rewrite Hrun. split; [by rewrite <- Hstatus |].
  unfold comment_counts. cbn [snd]. rewrite Harticles. by vm_compute.
Defined.

(** When the update of the count fails, [POST /api/comments] still answers
    200: the comment is stored and the article's count is what it was. *)
Theorem failed_count_update_is_not_reported
  (w : World) (req : Request) (e : PgError) :
  truthy (field (req_body req) "article_id") = true →
  truthy (field (req_body req) "text") = true →
  faults w = [None; None; Some e] →
  ∃ resp w',
    run pg (post_api_comments req) w = (Normal resp, w')
    ∧ status resp = 200
    ∧ table w' "comments" = table w "comments" ++ [comment_row (req_body req)]
    ∧ table w' "articles" = table w "articles".
Proof.
  intros Hid Htext Hfaults. unfold post_api_comments.
  rewrite Hid, Htext. cbn [negb orb].
  rewrite run_try_catch, run_bind, run_await. cbn [pg].
  rewrite (pg_await_pass _ _ _ Hfaults), exec_insert_returning. tidy.
  set (w1 := after_write _ _ w).
  assert (faults w1 = [None; Some e]) as Hw1 by (simpl; by rewrite Hfaults).
  cbn [error ok truthy].
  rewrite run_bind, run_await. cbn [pg].
  rewrite (pg_await_pass _ _ _ Hw1), exec_select_single. tidy.
  set (w2 := after_read w1).
  assert (faults w2 = [Some e]) as Hw2 by (simpl; by rewrite Hfaults).
  rewrite run_bind, run_await. cbn [pg].
  rewrite (pg_await_fault _ _ _ _ Hw2). tidy.
  rewrite run_bind, run_lift. cbn [data ok js_first fmap list_fmap head default].
  tidy. rewrite run_ret. tidy.
  eexists _, _. split; [reflexivity |]. split; [done |].
  rewrite !table_after_read. unfold w2. rewrite !table_after_read.
  unfold w1. simpl (q_table _).
  by rewrite table_after_write, table_after_write_other.
Qed.

Lemma failed_count_update_is_not_reported_witness :
  let req := request [] [("article_id", JStr (utf16 "a1"));
                         ("text", JStr (utf16 "hi"))] in
  let out := run pg (post_api_comments req)
               (demo_faulty [None; None; Some timeout_error]) in
  reply_status out.1 = Some 200
  ∧ length (table out.2 "comments") = 1%nat
  ∧ comment_counts out.2 = comment_counts demo_world.
Proof.
  intros req out.
  destruct (failed_count_update_is_not_reported
              (demo_faulty [None; None; Some timeout_error]) req timeout_error)
    as (resp & w' & Hrun & Hstatus & Hcomments & Harticles);
    [done | done | done |].
  unfold out. rewrite Hrun. split; [by rewrite <- Hstatus |].
  cbn [snd]. split; [by rewrite Hcomments |].
  unfold comment_counts. by rewrite Harticles.
Defined.

(* ===================================================================== *)
(** ** GET /api/articles/:id when a store call fails *)
(* ===================================================================== *)

Lemma pg_await_related_pass (name : string) (id : JsVal) (w : World)
  (rest : list (option PgError)) :
  faults w = None :: rest →
  pg_await (supabase.from name ▸ supabase.select "*"
              ▸ supabase.eq "article_id" id
              ▸ supabase.order "created_at" false) w
  = (ok (JArr (related name id w)), after_read w).
Proof.
  intros Hw. rewrite (pg_await_pass _ _ _ Hw).
  unfold exec, related, rows_where. cbn. by rewrite project_all.
Qed.

(** When the reactions or the comments of an article cannot be read,
    [GET /api/articles/:id] answers 500 with the store's message and the
    view is not counted: no table changes. *)
Theorem failed_related_read_answers_500
  (w : World) (req : Request) (article : Obj) (e : PgError) :
  let id := field (req_params req) "id" in
  rows_where "id" id (table w "articles") = [article] →
  related_read_fails e w →
  ∃ w',
    run pg (get_api_articles_id req) w = (Normal (store_failure e), w')
    ∧ tables w' = tables w.
Proof.
  intros id Hone [rest Hfaults]. unfold get_api_articles_id. cbv zeta. fold id.
  assert (∃ rest', faults w = None :: rest') as [rest' Hw]
    by (destruct Hfaults as [-> | ->]; eauto).
  rewrite run_try_catch, run_bind, run_await. cbn [pg].
  rewrite (pg_await_pass _ _ _ Hw), exec_select_single. tidy.
  simpl (q_table _). rewrite project_all, Hone. cbn [error ok truthy data].
  set (w1 := after_read w).
  rewrite run_bind, run_await. cbn [pg].
  destruct Hfaults as [Hfaults | Hfaults].
  - assert (faults w1 = Some e :: rest) as Hw1
      by (simpl; by rewrite Hfaults).
    rewrite (pg_await_fault _ _ _ _ Hw1). tidy. cbn [error failed].
    rewrite truthy_pg_error_val, run_throw. tidy.
    rewrite respond_500_store_failure. by eexists.
  - assert (faults w1 = None :: Some e :: rest) as Hw1
      by (simpl; by rewrite Hfaults).
    rewrite (pg_await_related_pass _ _ _ _ Hw1). tidy.
    cbn [error ok truthy data].
    set (w2 := after_read w1).
    assert (faults w2 = Some e :: rest) as Hw2
      by (simpl; by rewrite Hfaults).
    rewrite run_bind, run_await. cbn [pg].
    rewrite (pg_await_fault _ _ _ _ Hw2). tidy. cbn [error failed].
    rewrite truthy_pg_error_val, run_throw. tidy.
    rewrite respond_500_store_failure. by eexists.
Qed.

Lemma failed_related_read_answers_500_witness :
  let req := {| req_query := ∅;
                req_params := obj [("id", JStr (utf16 "a1"))];
                req_body := ∅ |} in
  let w := set_store (tables demo_viewed_world) [None; None; Some timeout_error]
             demo_viewed_world in
  reply_status (run pg (get_api_articles_id req) w).1 = Some 500
  ∧ tables (run pg (get_api_articles_id req) w).2 = tables w.
Proof.
  intros req w.
  destruct (failed_related_read_answers_500 w req
              (obj [("id", JStr (utf16 "a1")); ("view_count", JNum 41)])
              timeout_error)
    as (w' & Hrun & Htables); [by vm_compute | exists []; by right |].
  by rewrite Hrun.
Defined.

(** When the update of the view count fails, [GET /api/articles/:id] still
    answers 200 with the article: the view is silently not counted. *)
Theorem failed_view_update_is_not_reported
  (w : World) (req : Request) (article : Obj) (e : PgError)
  (rest : list (option PgError)) :
  let id := field (req_params req) "id" in
  rows_where "id" id (table w "articles") = [article] →
  faults w = None :: None :: None :: Some e :: rest →
  ∃ w',
    run pg (get_api_articles_id req) w
    = (Normal (article_detail article id w), w')
    ∧ tables w' = tables w.
Proof.
  intros id Hone Hfaults. unfold get_api_articles_id. cbv zeta. fold id.
  rewrite run_try_catch, run_bind, run_await. cbn [pg].
  rewrite (pg_await_pass _ _ _ Hfaults), exec_select_single. tidy.
  simpl (q_table _). rewrite project_all, Hone. cbn [error ok truthy data].
  set (w1 := after_read w).
  assert (faults w1 = None :: None :: Some e :: rest) as Hw1
    by (simpl; by rewrite Hfaults).
  rewrite run_bind, run_await. cbn [pg].
  rewrite (pg_await_related_pass _ _ _ _ Hw1). tidy.
  cbn [error ok truthy data].
  set (w2 := after_read w1).
  assert (faults w2 = None :: Some e :: rest) as Hw2
    by (simpl; by rewrite Hfaults).
  rewrite run_bind, run_await. cbn [pg].
  rewrite (pg_await_related_pass _ _ _ _ Hw2). tidy.
  cbn [error ok truthy data].
  set (w3 := after_read w2).
  assert (faults w3 = Some e :: rest) as Hw3
    by (simpl; by rewrite Hfaults).
  rewrite run_bind, run_lift. cbn [js_get]. tidy.
  rewrite run_bind, run_await. cbn [pg].
  rewrite (pg_await_fault _ _ _ _ Hw3). tidy.
  rewrite run_ret. tidy. by eexists.
Qed.

Lemma failed_view_update_is_not_reported_witness :
  let req := {| req_query := ∅;
                req_params := obj [("id", JStr (utf16 "a1"))];
                req_body := ∅ |} in
  let w := set_store (tables demo_viewed_world)
             [None; None; None; Some timeout_error] demo_viewed_world in
  reply_status (run pg (get_api_articles_id req) w).1 = Some 200
  ∧ tables (run pg (get_api_articles_id req) w).2 = tables w.
Proof.
  intros req w.
  destruct (failed_view_update_is_not_reported w req
              (obj [("id", JStr (utf16 "a1")); ("view_count", JNum 41)])
              timeout_error [])
    as (w' & Hrun & Htables); [by vm_compute | done |].
  by rewrite Hrun.
Defined.

(* ===================================================================== *)
(** ** Two comments in flight *)
(* ===================================================================== *)








(* ===================================================================== *)
(** ** POST /api/recommendations/articles: the limit comes first *)
(* ===================================================================== *)

Lemma filter_with_none (cb : JsVal → Completion bool) (l : list JsVal) :
  (∀ x, x ∈ l → cb x = Normal false) → filter_with cb l = Normal [].
Proof.
  induction l as [| x l IH]; intros Hcb; simpl; [done |].
  rewrite (Hcb x) by apply list_elem_of_here. simpl.
  rewrite IH; [done |]. intros y Hy. by apply Hcb, list_elem_of_further.
Qed.

(** The viewed articles are excluded after the store has cut the list to
    ten: a user who has viewed the ten newest articles is recommended
    nothing, however many older articles there are. *)
Theorem recommendations_stop_at_ten_newest
  (w : World) (req : Request) (l : list JsVal) :
  healthy w →
  req_body req !! "categories" = None →
  req_body req !! "viewed_articles" = Some (JArr l) →
  (∀ r, r ∈ ten_newest w → in_viewed l (field r "id")) →
  run pg (post_api_recommendations_articles req) w
  = (Normal (res_json (obj [("success", JBool true); ("data", JArr [])])),
     after_read w).
Proof.
  intros Hw Hcategories Hviewed Hseen.
  unfold post_api_recommendations_articles. cbv zeta.
  rewrite (field_missing _ _ Hcategories), (field_lookup _ _ _ Hviewed).
  cbn [truthy or_default].
  rewrite run_try_catch, run_bind, run_ret. tidy.
  rewrite run_bind, run_await. cbn [pg].
  rewrite pg_await_selected_healthy by done. simpl (q_table _).
  assert (selected (supabase.from "articles" ▸ supabase.select "*"
                      ▸ supabase.order "published_at" false
                      ▸ supabase.limit (JNum 10)) (table w "articles")
          = Some (ten_newest w)) as ->.
  { unfold selected, ten_newest, window. cbn [q_filters q_order q_offset
      q_limit supabase.limit supabase.order supabase.select
      supabase.with_verb supabase.from q_verb mbind option_bind].
    by rewrite filter_no_filters, as_count_number. }
  tidy. cbn [error ok truthy data].
  rewrite run_bind, run_lift. cbn [js_filter].
  rewrite filter_with_none.
  - cbn [mbind Completion_bind]. tidy. by rewrite run_ret.
  - intros x (r & -> & Hr)%list_elem_of_fmap.
    destruct (Hseen r Hr) as (y & Hy & Hsame).
    cbn [js_includes js_get mbind Completion_bind]. fold (field r "id").
    replace (existsb (λ y, same_value_zero y (field r "id")) l) with true;
      [done |].
    symmetry. apply existsb_exists. exists y.
    split; [by apply list_elem_of_In | done].
Qed.

Lemma viewed_existsb (l : list JsVal) (id : JsVal) :
  existsb (λ y, same_value_zero y id) l = true → in_viewed l id.
Proof.
  intros (y & Hy & Hsame)%existsb_exists. exists y.
  split; [by apply list_elem_of_In | done].
Qed.

Lemma recommendations_stop_at_ten_newest_witness :
  let req := request [] [("viewed_articles",
                           JArr [JStr (utf16 "a1"); JStr (utf16 "a2");
                                 JStr (utf16 "a3")])] in
  healthy demo_world
  ∧ reply_data (run pg (post_api_recommendations_articles req) demo_world).1
    = [].
Proof.
  intros req. split; [done |].
  rewrite (recommendations_stop_at_ten_newest demo_world req
             [JStr (utf16 "a1"); JStr (utf16 "a2"); JStr (utf16 "a3")]);
    [done | done | done | done |].
  intros r Hr. apply viewed_existsb. revert r Hr.
  apply Forall_forall. apply (bool_decide_eq_true_1 _). by vm_compute.
Defined.


